(** * ZUS Coffee chatbot: memory loop, tool executor and SQL sanitizer

    A shallow embedding of the parts of the repository that the
    specification makes claims about:

    - [src/agent/memory.py]      ([manage_memory_node],
                                  [retrieve_long_term_memory_node]),
    - [src/graph.py]             ([calculator], [tool_executor_node]),
    - [src/agent/nodes/calculator.py] ([calculator_tool_node]),
    - [src/api/start_api.py]     ([clean_sql_query], [expand_fuzzy_sql],
                                  the result test of [get_outlet_info]),

    and of the code around them:

    - [src/api/start_api.py]     ([get_product_summary]),
    - [src/agent/planner.py]     ([planner_node]),
    - [src/graph.py]             ([chat_response_generator_node], the
                                  edges of the graph),
    - [src/agent/nodes/chat.py]  ([chat_fallback_node]),
    - [src/rag integration/ingest_product_kb.py] (the price of a
                                  product),
    - [src/rag integration/database_outlets_set_up.py] (the
                                  parameters of an outlet row),
    - [src/scrapping/scrap_location.py] ([generate_opening_summary],
                                  [build_description], the record of
                                  an outlet),
    - [src/scrapping/scrap_zus_drinkware.py] (the variants of a
                                  product, [format_for_rag]).

    Text is a list of 8-bit characters and stands for a [str] of
    ASCII characters: the character classes ([\s], [\d], [\w], case
    folding) are those of Python 3 on the ASCII range, and a statement
    that holds of the program on such text only says so with
    [Str.isascii].  The language model, the
    embedding index, the registered tools, the retriever and Python's
    floats are oracles: they are variables of the sections that use
    them. *)

From Stdlib Require Import List Ascii String Bool Arith Lia.
From stdpp Require Import gmap strings.
Import ListNotations.
Open Scope list_scope.


(** ** Text *)

Abbreviation text := (list ascii).

Definition T (s : string) : text := list_ascii_of_string s.

Definition nonempty {A : Type} (l : list A) : bool :=
  match l with [] => false | _ :: _ => true end.

Definition nl : ascii := ascii_of_nat 10.
Definition dq : ascii := ascii_of_nat 34.
Definition bt : ascii := ascii_of_nat 96.
Definition sp : ascii := ascii_of_nat 32.

Module Chars.

Definition code (a : ascii) : nat := nat_of_ascii a.

Definition between (lo hi : nat) (a : ascii) : bool :=
  (lo <=? code a) && (code a <=? hi).

(** [str.isspace] and the class [\s] of a [str] pattern, on ASCII:
    TAB, LF, VT, FF, CR, the separators FS, GS, RS, US, and SPACE. *)
Definition is_space (a : ascii) : bool :=
  between 9 13 a || between 28 31 a || (code a =? 32).

Definition is_digit (a : ascii) : bool := between 48 57 a.
Definition is_upper (a : ascii) : bool := between 65 90 a.
Definition is_lower (a : ascii) : bool := between 97 122 a.
Definition is_alpha (a : ascii) : bool := is_upper a || is_lower a.

(** The class [\w]. *)
Definition is_word (a : ascii) : bool :=
  is_alpha a || is_digit a || (code a =? 95).

Definition lower (a : ascii) : ascii :=
  if is_upper a then ascii_of_nat (code a + 32) else a.
Definition upper (a : ascii) : ascii :=
  if is_lower a then ascii_of_nat (code a - 32) else a.

Definition is_chr (c : ascii) (a : ascii) : bool := Ascii.eqb a c.
Definition isnt_chr (c : ascii) (a : ascii) : bool := negb (Ascii.eqb a c).
(** A literal character under [re.IGNORECASE]. *)
Definition is_ci (c : ascii) (a : ascii) : bool := Ascii.eqb (lower a) (lower c).
Definition any (a : ascii) : bool := true.
(** [.] without [re.DOTALL]. *)
Definition dot (a : ascii) : bool := isnt_chr nl a.

End Chars.
Import Chars.

(** ** The [str] methods the program uses *)

Module Str.

Fixpoint lstrip (s : text) : text :=
  match s with
  | a :: s' => if is_space a then lstrip s' else s
  | [] => []
  end.

Definition rstrip (s : text) : text := rev (lstrip (rev s)).

(** [s.strip()] *)
Definition strip (s : text) : text := rstrip (lstrip s).

(** [s.strip(c)] for a one-character argument. *)
Fixpoint lstrip_char (c : ascii) (s : text) : text :=
  match s with
  | a :: s' => if Ascii.eqb a c then lstrip_char c s' else s
  | [] => []
  end.
Definition strip_char (c : ascii) (s : text) : text :=
  rev (lstrip_char c (rev (lstrip_char c s))).

Definition upper (s : text) : text := map Chars.upper s.

Fixpoint text_eqb (s t : text) : bool :=
  match s, t with
  | [], [] => true
  | a :: s', b :: t' => Ascii.eqb a b && text_eqb s' t'
  | _, _ => false
  end.

Fixpoint starts_with (p s : text) : bool :=
  match p, s with
  | [], _ => true
  | a :: p', b :: s' => Ascii.eqb a b && starts_with p' s'
  | _ :: _, [] => false
  end.

(** [p in s] *)
Fixpoint contains (p s : text) : bool :=
  starts_with p s ||
  match s with
  | [] => false
  | _ :: s' => contains p s'
  end.

(** [s.replace(old, new)] for a non-empty [old]: the occurrences of
    [old] are replaced from left to right, without overlap. *)
Fixpoint replace_loop (fuel : nat) (old new s : text) : text :=
  match fuel with
  | 0 => s
  | S fuel' =>
      if starts_with old s
      then new ++ replace_loop fuel' old new (skipn (length old) s)
      else match s with
           | [] => []
           | a :: s' => a :: replace_loop fuel' old new s'
           end
  end.

Definition replace (old new s : text) : text :=
  match old with
  | [] => s
  | _ :: _ => replace_loop (S (length s)) old new s
  end.

(** [sep.join(l)] *)
Fixpoint join (sep : text) (l : list text) : text :=
  match l with
  | [] => []
  | [x] => x
  | x :: l' => x ++ sep ++ join sep l'
  end.

(** [s.isascii()]: every character of [s] is below 128.  On such a
    text the classes [\s], [\d] and [\w], [str.strip] and the letter
    cases of [re.IGNORECASE] are those of [Chars]; Python also takes
    white space, digits and letters from beyond that range (U+00A0,
    the Arabic-Indic digits, the long s and the dotless i among the
    letters that fold to s and i).  A statement that holds of the
    program for ASCII text only has [isascii] of its input as a
    hypothesis. *)
Definition isascii (s : text) : bool :=
  forallb (fun a => code a <? 128) s.

End Str.

(** ** The fragment of Python's [re] that the program uses

    A backtracking matcher in continuation-passing style: alternatives
    are tried from left to right, greedy repetition tries the longest
    run first and lazy repetition the shortest, as [re] does.
    Repetition is only ever applied to a character class in this
    program ([\s*], [.*?], [[^;]*?], ...), and so it is here. *)

Module Re.

Inductive regex : Type :=
| Eps                                  (* the empty pattern *)
| Chr (p : ascii -> bool)              (* one character of a class *)
| Cat (r1 r2 : regex)                  (* r1 r2 *)
| Alt (r1 r2 : regex)                  (* r1|r2 *)
| Opt (r : regex)                      (* r? *)
| Star (p : ascii -> bool)             (* [p]* *)
| StarLazy (p : ascii -> bool)         (* [p]*? *)
| Group (n : nat) (r : regex)          (* capturing group n *)
| Bol                                  (* ^ *)
| Eol                                  (* $ *)
| WordB.                               (* \b *)

Definition Plus (p : ascii -> bool) : regex := Cat (Chr p) (Star p).

(** A literal, and a literal under [re.IGNORECASE]. *)
Fixpoint lit (w : text) : regex :=
  match w with
  | [] => Eps
  | a :: w' => Cat (Chr (is_chr a)) (lit w')
  end.
Fixpoint lit_ci (w : text) : regex :=
  match w with
  | [] => Eps
  | a :: w' => Cat (Chr (is_ci a)) (lit_ci w')
  end.

Fixpoint alts (rs : list regex) : regex :=
  match rs with
  | [] => Chr (fun _ => false)
  | [r] => r
  | r :: rs' => Alt r (alts rs')
  end.

(** Captured groups, most recent first. *)
Definition caps := list (nat * text).

Fixpoint group (n : nat) (c : caps) : option text :=
  match c with
  | [] => None
  | (m, w) :: c' => if n =? m then Some w else group n c'
  end.

Section Matcher.
Context {R : Type}.

(** A continuation receives the character before the position
    reached, the rest of the input and the groups captured. *)
Definition cont := option ascii -> text -> caps -> option R.

Definition orelse (x y : option R) : option R :=
  match x with Some _ => x | None => y end.

Fixpoint star_greedy (p : ascii -> bool) (k : cont)
    (prev : option ascii) (s : text) (c : caps) : option R :=
  match s with
  | a :: s' =>
      if p a then orelse (star_greedy p k (Some a) s' c) (k prev s c)
      else k prev s c
  | [] => k prev s c
  end.

Fixpoint star_lazy (p : ascii -> bool) (k : cont)
    (prev : option ascii) (s : text) (c : caps) : option R :=
  orelse (k prev s c)
    match s with
    | a :: s' => if p a then star_lazy p k (Some a) s' c else None
    | [] => None
    end.

Definition word_opt (o : option ascii) : bool :=
  match o with Some a => is_word a | None => false end.

Fixpoint rmatch (r : regex) (k : cont)
    (prev : option ascii) (s : text) (c : caps) : option R :=
  match r with
  | Eps => k prev s c
  | Chr p =>
      match s with
      | a :: s' => if p a then k (Some a) s' c else None
      | [] => None
      end
  | Cat r1 r2 => rmatch r1 (rmatch r2 k) prev s c
  | Alt r1 r2 => orelse (rmatch r1 k prev s c) (rmatch r2 k prev s c)
  | Opt r1 => orelse (rmatch r1 k prev s c) (k prev s c)
  | Star p => star_greedy p k prev s c
  | StarLazy p => star_lazy p k prev s c
  | Group n r1 =>
      rmatch r1
        (fun prev' s' c' =>
           k prev' s' ((n, firstn (length s - length s') s) :: c'))
        prev s c
  | Bol => match prev with None => k prev s c | Some _ => None end
  | Eol =>
      match s with
      | [] => k prev s c
      | [a] => if Ascii.eqb a nl then k prev s c else None
      | _ => None
      end
  | WordB =>
      if xorb (word_opt prev) (word_opt (head s)) then k prev s c
      else None
  end.
End Matcher.

(** A match found at some position: the character before it, the
    text matched, what follows, and the groups. *)
Record found := Found {
  m_prev : option ascii;
  m_text : text;
  m_last : option ascii;
  m_rest : text;
  m_caps : caps
}.

(** One attempt at the current position. *)
Definition match_here (r : regex) (prev : option ascii) (s : text)
    : option found :=
  rmatch r
    (fun prev' s' c' =>
       Some (Found prev (firstn (length s - length s') s) prev' s' c'))
    prev s [].

(** [re.match(r, s)] *)
Definition re_match (r : regex) (s : text) : option found :=
  match_here r None s.

(** [re.search(r, s)]: the leftmost position with a match. *)
Fixpoint search_from (r : regex) (prev : option ascii) (s : text)
    : option found :=
  match match_here r prev s with
  | Some m => Some m
  | None =>
      match s with
      | [] => None
      | a :: s' => search_from r (Some a) s'
      end
  end.
Definition re_search (r : regex) (s : text) : option found :=
  search_from r None s.

(** The scan shared by [re.sub] and [re.findall]: the text cut into
    the characters that no match covers and the successive
    non-overlapping matches.  Every pattern of this program matches
    non-empty text only; an empty match is recorded and the scan
    moves on by one character. *)
Inductive piece : Type :=
| Keep (a : ascii)
| Hit (m : found).

Fixpoint scan_loop (fuel : nat) (r : regex) (prev : option ascii)
    (s : text) : list piece :=
  match fuel with
  | 0 => map Keep s
  | S fuel' =>
      match match_here r prev s with
      | Some m =>
          match m_text m with
          | _ :: _ => Hit m :: scan_loop fuel' r (m_last m) (m_rest m)
          | [] =>
              Hit m ::
              match s with
              | [] => []
              | a :: s' => Keep a :: scan_loop fuel' r (Some a) s'
              end
          end
      | None =>
          match s with
          | [] => []
          | a :: s' => Keep a :: scan_loop fuel' r (Some a) s'
          end
      end
  end.

Definition scan (r : regex) (s : text) : list piece :=
  scan_loop (S (length s)) r None s.

(** Replacement templates: literal text and group references. *)
Inductive titem : Type :=
| TLit (w : text)
| TGroup (n : nat).

Definition expand_item (m : found) (i : titem) : text :=
  match i with
  | TLit w => w
  | TGroup n => match group n (m_caps m) with Some w => w | None => [] end
  end.

Definition expand (tmpl : list titem) (m : found) : text :=
  flat_map (expand_item m) tmpl.

Definition emit (tmpl : list titem) (p : piece) : text :=
  match p with
  | Keep a => [a]
  | Hit m => expand tmpl m
  end.

(** [re.sub(r, tmpl, s)] *)
Definition re_sub (r : regex) (tmpl : list titem) (s : text) : text :=
  flat_map (emit tmpl) (scan r s).

Definition hits (ps : list piece) : list found :=
  flat_map (fun p => match p with Hit m => [m] | Keep _ => [] end) ps.

Definition group_or_empty (n : nat) (m : found) : text :=
  match group n (m_caps m) with Some w => w | None => [] end.

(** [re.findall(r, s)] for a pattern with three groups. *)
Definition findall3 (r : regex) (s : text) : list (text * text * text) :=
  map (fun m => (group_or_empty 1 m, group_or_empty 2 m, group_or_empty 3 m))
      (hits (scan r s)).

End Re.
Import Re.

(** ** Static facts about a pattern, and shapes of text

    Helpers for the proofs: what a pattern can capture and how a match
    must begin, computed from the pattern itself; the white-space
    normal form that step 5 of the sanitizer produces; and the texts
    obtained from a normal form by breaking lines. *)

Module Shape.

(** The character before the position reached after reading [u]. *)
Fixpoint prev_after (prev : option ascii) (u : text) : option ascii :=
  match u with
  | [] => prev
  | a :: u' => prev_after (Some a) u'
  end.

(** The numbers of the groups of a pattern. *)
Fixpoint groups_of (r : regex) : list nat :=
  match r with
  | Cat r1 r2 | Alt r1 r2 => groups_of r1 ++ groups_of r2
  | Opt r1 => groups_of r1
  | Group n r1 => n :: groups_of r1
  | _ => []
  end.

(** Patterns that read no character. *)
Fixpoint reads_nothing (r : regex) : bool :=
  match r with
  | Eps | Bol | Eol | WordB => true
  | Cat r1 r2 => reads_nothing r1 && reads_nothing r2
  | Group _ r1 => reads_nothing r1
  | _ => false
  end.

Definition all_ascii : list ascii := map ascii_of_nat (seq 0 256).

(** [class_within f P]: every character of the class [f] satisfies [P]. *)
Definition class_within (f P : ascii -> bool) : bool :=
  forallb (fun a => implb (f a) (P a)) all_ascii.

(** [begins_with r P]: every match of [r] is non-empty and its first
    character satisfies [P]. *)
Fixpoint begins_with (r : regex) (P : ascii -> bool) : bool :=
  match r with
  | Chr f => class_within f P
  | Cat r1 r2 => begins_with r1 P || (reads_nothing r1 && begins_with r2 P)
  | Alt r1 r2 => begins_with r1 P && begins_with r2 P
  | Group _ r1 => begins_with r1 P
  | _ => false
  end.

(** The text that a piece of a scan covers. *)
Definition source (p : piece) : text :=
  match p with
  | Keep a => [a]
  | Hit m => m_text m
  end.

(** No match of [r] starts at any position of [s], [prev] being the
    character before [s]. *)
Fixpoint no_match (r : regex) (prev : option ascii) (s : text) : Prop :=
  match_here r prev s = None
  /\ match s with
     | [] => True
     | a :: s' => no_match r (Some a) s'
     end.

(** Step 5 as a function: every run of white space becomes one space.
    [in_space] tells that the run has begun. *)
Fixpoint collapse (in_space : bool) (s : text) : text :=
  match s with
  | [] => []
  | a :: s' =>
      if is_space a
      then if in_space then collapse true s' else sp :: collapse true s'
      else a :: collapse false s'
  end.

(** The texts that step 5 leaves as they are: their only white space
    is the space character, never twice in a row ([after_space] tells
    that the character before the text is a space). *)
Fixpoint normal (after_space : bool) (s : text) : bool :=
  match s with
  | [] => true
  | a :: s' =>
      if is_space a
      then Ascii.eqb a sp && negb after_space && normal true s'
      else normal false s'
  end.

(** [broken b s t]: [t] is [s] with line breaks added before some
    characters that are not white space and that follow a space; [b]
    allows a break before the first character. *)
Inductive broken : bool -> text -> text -> Prop :=
| broken_nil b : broken b [] []
| broken_keep b a s t :
    broken (is_space a) s t -> broken b (a :: s) (a :: t)
| broken_break a s t :
    is_space a = false -> broken false s t ->
    broken true (a :: s) (nl :: a :: t).

(** [dropped c s t]: [t] is [s] without some of its characters [c]. *)
Inductive dropped (c : ascii) : text -> text -> Prop :=
| dropped_nil : dropped c [] []
| dropped_keep a s t : dropped c s t -> dropped c (a :: s) (a :: t)
| dropped_drop s t : dropped c s t -> dropped c (c :: s) t.

(** The number of characters [c] in [s]. *)
Definition occurrences (c : ascii) (s : text) : nat :=
  length (List.filter (is_chr c) s).

(** Whether a break is allowed after [prev]: at the start of the text
    and after white space. *)
Definition may_break (prev : option ascii) : bool :=
  match prev with
  | None => true
  | Some a => is_space a
  end.

End Shape.

(** ** The SQL sanitizer and the fuzzy expansion ([src/api/start_api.py]) *)

Module Sql.

Fixpoint cats (rs : list regex) : regex :=
  match rs with
  | [] => Eps
  | [r] => r
  | r :: rs' => Cat r (cats rs')
  end.

(** The pattern of step 1, with [re.DOTALL]: three backticks, an
    optional tag among sql, SQL, SQLQuery, mysql, postgresql, then
    [\s*], the lazy group 1 [.*?], [\s*] and three backticks. *)
Definition block_pattern : regex :=
  cats [ lit (T "```");
         Opt (alts [ lit (T "sql"); lit (T "SQL"); lit (T "SQLQuery");
                     lit (T "mysql"); lit (T "postgresql") ]);
         Star is_space;
         Group 1 (StarLazy any);
         Star is_space;
         lit (T "```") ].

(** The pattern of step 2, with [re.IGNORECASE]: at the start of the
    text, one of SQL\s*Query, SQLQuery, MySQL, PostgreSQL, SQL, then
    [\s*], a colon and [\s*]. *)
Definition prefix_pattern : regex :=
  cats [ Bol;
         alts [ cats [ lit_ci (T "SQL"); Star is_space; lit_ci (T "Query") ];
                lit_ci (T "SQLQuery"); lit_ci (T "MySQL");
                lit_ci (T "PostgreSQL"); lit_ci (T "SQL") ];
         Star is_space;
         lit_ci (T ":");
         Star is_space ].

(** The pattern of step 3, with [re.IGNORECASE | re.DOTALL]: group 1
    is SELECT, the lazy [.*?] and a semicolon. *)
Definition sql_statement_pattern : regex :=
  Group 1 (cats [ lit_ci (T "SELECT"); StarLazy any; lit_ci (T ";") ]).

(** The pattern of step 4: a backtick, group 1 of the characters up
    to the next backtick, and that backtick. *)
Definition backtick_pattern : regex :=
  cats [ lit [bt]; Group 1 (Star (isnt_chr bt)); lit [bt] ].

(** [r'\s+'] *)
Definition space_pattern : regex := Plus is_space.

Definition keywords : list text :=
  [ T "SELECT"; T "FROM"; T "WHERE"; T "GROUP BY"; T "HAVING";
    T "ORDER BY"; T "LIMIT"; T "JOIN"; T "LEFT JOIN"; T "RIGHT JOIN";
    T "INNER JOIN"; T "OUTER JOIN"; T "UNION"; T "VALUES"; T "INSERT";
    T "UPDATE"; T "DELETE" ].

(** ['|'.join(r'\b{}\b'.format(k) for k in keywords)] inside one
    group, with [re.IGNORECASE] *)
Definition keyword_pattern : regex :=
  Group 1 (alts (map (fun k => cats [ WordB; lit_ci k; WordB ]) keywords)).

(** [r'\n\s*\n'] *)
Definition blank_pattern : regex :=
  cats [ lit [nl]; Star is_space; lit [nl] ].

(** The seven steps of [clean_sql_query], in their order. *)
Definition strip_fences (s : text) : text :=
  re_sub block_pattern [TGroup 1] s.

Definition strip_prefix (s : text) : text :=
  re_sub prefix_pattern [] s.

Definition extract_statement (s : text) : text :=
  match re_search sql_statement_pattern s with
  | Some m => group_or_empty 1 m
  | None => s
  end.

Definition strip_backticks (s : text) : text :=
  re_sub backtick_pattern [TGroup 1] s.

Definition normalize_spaces (s : text) : text :=
  re_sub space_pattern [TLit [sp]] s.

Definition break_keywords (s : text) : text :=
  re_sub keyword_pattern [TLit [nl]; TGroup 1] s.

Definition final_cleanup (s : text) : text :=
  re_sub blank_pattern [TLit [nl]] (Str.strip s).

Definition clean_sql_query (s : text) : text :=
  final_cleanup
    (break_keywords
       (normalize_spaces
          (strip_backticks
             (extract_statement
                (strip_prefix
                   (strip_fences s)))))).

(** The statement that step 3 keeps, and its form after step 5. *)
Definition statement_of (s : text) : text :=
  extract_statement (strip_prefix (strip_fences s)).

Definition normalized_statement (s : text) : text :=
  normalize_spaces (strip_backticks (statement_of s)).

(** The form of the statement that step 3 keeps. *)
Definition select_shape (o : text) : Prop :=
  exists h b,
    o = h ++ b ++ [";"%char] /\ map lower h = T "select"
    /\ forallb (isnt_chr ";") b = true.

(** Every clause keyword that step 6 finds in [s] is at the start of
    [s] or follows white space. *)
Definition keywords_spaced (s : text) : bool :=
  forallb (fun m => Shape.may_break (m_prev m))
          (hits (scan keyword_pattern s)).

Definition quoted (w : text) : text := dq :: w ++ [dq].

(** The columns of the allow-list, as the pattern spells them:
    between double quotes. *)
Definition allow_list : list text :=
  [ quoted (T "address"); quoted (T "full_description");
    quoted (T "services") ].

(** The pattern of [expand_fuzzy_sql], with [re.IGNORECASE]: group 1
    is WHERE, [\s+] and the lazy [[^;]*?]; group 2 is one of the three
    quoted columns; then [\s+], LIKE, [\s+], a quote and a percent
    sign, the lazy group 3 [.*?], a percent sign and a quote. *)
Definition fuzzy_pattern : regex :=
  cats [ Group 1 (cats [ lit_ci (T "WHERE"); Plus is_space;
                         StarLazy (isnt_chr ";") ]);
         Group 2 (alts (map lit_ci allow_list));
         Plus is_space;
         lit_ci (T "LIKE");
         Plus is_space;
         lit_ci (T "'%");
         Group 3 (StarLazy dot);
         lit_ci (T "%'") ].

(** The parts of the pattern: group 1, the alternatives of group 2,
    and what follows group 2. *)
Definition fuzzy_where : regex :=
  Group 1 (cats [ lit_ci (T "WHERE"); Plus is_space;
                  StarLazy (isnt_chr ";") ]).

Definition fuzzy_columns : regex := alts (map lit_ci allow_list).

Definition fuzzy_tail : regex :=
  cats [ Plus is_space;
         lit_ci (T "LIKE");
         Plus is_space;
         lit_ci (T "'%");
         Group 3 (StarLazy dot);
         lit_ci (T "%'") ].

(** The f-string for the text to replace: the column, LIKE and the
    keyword between percent signs and quotes. *)
Definition like_clause (column keyword : text) : text :=
  column ++ T " LIKE '%" ++ keyword ++ T "%'".

(** The f-string for the replacement: the original clause, OR the
    same test on the column and the keyword without their spaces. *)
Definition fuzzy_clause (column keyword : text) : text :=
  let keyword_no_space := Str.replace [sp] [] keyword in
  T "(" ++ column ++ T " LIKE '%" ++ keyword ++ T "%' OR REPLACE("
    ++ column ++ T ", ' ', '') LIKE '%" ++ keyword_no_space ++ T "%')".

Definition rewrite_one (sql : text) (m : text * text * text) : text :=
  let '(_, column, keyword) := m in
  Str.replace (like_clause column keyword) (fuzzy_clause column keyword) sql.

Definition expand_fuzzy_sql (sql : text) : text :=
  fold_left rewrite_one (findall3 fuzzy_pattern sql) sql.

(** [clash u v]: the texts [u] and [v] differ at a position that both
    have, so neither begins the other. *)
Fixpoint clash (u v : text) : bool :=
  match u, v with
  | a :: u', b :: v' => negb (Ascii.eqb a b) || clash u' v'
  | _, _ => false
  end.

(** The same, [v] being compared in lower case. *)
Fixpoint clash_ci (q v : text) : bool :=
  match q, v with
  | a :: q', b :: v' => negb (Ascii.eqb (lower b) a) || clash_ci q' v'
  | _, _ => false
  end.

(** No quoted column of the allow-list begins anywhere in [w], in any
    letter case, not even cut short by the end of [w]. *)
Fixpoint no_column_begins (w : text) : bool :=
  match w with
  | [] => true
  | _ :: w' => forallb (fun q => clash_ci q w) allow_list && no_column_begins w'
  end.

(** Before the last character of [w], no quote follows a percent
    sign; [after_percent] tells whether a percent sign may stand
    before [w]. *)
Fixpoint quotes_ok_from (after_percent : bool) (w : text) : bool :=
  match w with
  | [] => true
  | a :: w' =>
      match w' with
      | [] => true
      | _ :: _ =>
          negb (is_chr "'" a && after_percent)
          && quotes_ok_from (is_chr "%" a) w'
      end
  end.

(** A part of a statement that no rewriting can cut: a LIKE clause on
    a column outside the allow-list, with a keyword free of quotes, is
    one. *)
Definition outside_allow_list (w : text) : bool :=
  no_column_begins w && quotes_ok_from true w.

(** A column, bare or quoted, that is not one of the allow-list: it
    holds no quote, and no quoted column of the allow-list begins in
    it, the space that follows it in a clause included. *)
Definition other_column (c : text) : bool :=
  nonempty c && forallb (isnt_chr "'") c && no_column_begins (c ++ [sp]).

(** A keyword without quote or double quote. *)
Definition plain_keyword (k : text) : bool :=
  forallb (fun a => isnt_chr dq a && isnt_chr "'" a) k.

(** One rewriting, from a column and a keyword. *)
Definition rewrite_step (sql : text) (st : text * text) : text :=
  Str.replace (like_clause (fst st) (snd st)) (fuzzy_clause (fst st) (snd st))
    sql.

End Sql.

(** ** Turns, tool calls and the conversation state *)

(** What a callee does: it returns a value or raises an exception,
    of which the model keeps the message ([str(e)]). *)
Inductive result (A : Type) : Type :=
| Ok (a : A)
| Raise (e : text).
Arguments Ok {A} a.
Arguments Raise {A} e.

(** Argument values of a tool call. *)
Inductive Value : Type :=
| VStr (s : text)
| VList (l : list text).

Record ToolCall := {
  tc_name : string;
  tc_args : gmap string Value;
  tc_id : string
}.

(** The message classes of [langchain_core.messages]. *)
Inductive Message : Type :=
| SystemMessage (content : text)
| HumanMessage (content : text)
| AIMessage (content : text) (tool_calls : list ToolCall)
| ToolMessage (content : text) (tool_call_id : string)
| FunctionMessage (content : text).

(** [type(m).__name__] *)
Definition class_name (m : Message) : string :=
  match m with
  | SystemMessage _ => "SystemMessage"
  | HumanMessage _ => "HumanMessage"
  | AIMessage _ _ => "AIMessage"
  | ToolMessage _ _ => "ToolMessage"
  | FunctionMessage _ => "FunctionMessage"
  end.

Definition content_of (m : Message) : text :=
  match m with
  | SystemMessage c | HumanMessage c | AIMessage c _
  | ToolMessage c _ | FunctionMessage c => c
  end.

Definition is_system (m : Message) : bool :=
  match m with SystemMessage _ => true | _ => false end.
Definition is_human (m : Message) : bool :=
  match m with HumanMessage _ => true | _ => false end.
Definition is_human_or_ai (m : Message) : bool :=
  match m with HumanMessage _ | AIMessage _ _ => true | _ => false end.

(** [GraphState] of [src/graph.py].  The nodes read the keys other
    than [messages] with [state.get], so they may be absent. *)
Record GraphState := {
  messages : list Message;
  long_term_summary : option text;
  retrieved_context : option (list text);
  intent : option text;
  next_action_type : option text;
  slots : option (gmap string Value)
}.

(** ** Memory management and retrieval ([src/agent/memory.py]) *)

Module Memory.

Definition MAX_RECENT_MESSAGES : nat := 10.
Definition MESSAGES_TO_SUMMARIZE_PER_BATCH : nat := 5.

(** The semantic index, as the texts of its docstore in the order
    they were added.  [FAISS.from_texts] starts it with one empty
    text. *)
Definition vectorstore_init : list text := [ [] ].

Definition conversational (msgs : list Message) : list Message :=
  List.filter (fun m => negb (is_system m)) msgs.

Definition system_messages (msgs : list Message) : list Message :=
  List.filter is_system msgs.

Section Nodes.
(** [summary_chain.invoke]: the summarizer, given the turns to fold
    and the existing summary, answers with a text or fails. *)
Variable summary_chain : list Message -> text -> result text.
(** [vectorstore.similarity_search(query, k)] on a given index. *)
Variable similarity_search : list text -> text -> nat -> list text.

Definition manage_memory_node (state : GraphState) (vectorstore : list text)
    : result (GraphState * list text) :=
  let msgs := messages state in
  let summary := default (T "No prior summary.") (long_term_summary state) in
  let conv := conversational msgs in
  if MAX_RECENT_MESSAGES <? length conv then
    let batch := firstn MESSAGES_TO_SUMMARIZE_PER_BATCH conv in
    let to_summarize := List.filter is_human_or_ai batch in
    match summary_chain to_summarize summary with
    | Raise e => Raise e
    | Ok reply =>
        let new_summary := Str.strip reply in
        let vectorstore' :=
          if nonempty new_summary then vectorstore ++ [new_summary]
          else vectorstore in
        let remaining := skipn MESSAGES_TO_SUMMARIZE_PER_BATCH conv in
        Ok ({| messages := system_messages msgs ++ remaining;
               long_term_summary := Some new_summary;
               retrieved_context := retrieved_context state;
               intent := intent state;
               next_action_type := next_action_type state;
               slots := slots state |},
            vectorstore')
    end
  else Ok (state, vectorstore).

(** [next((m.content for m in reversed(messages)
          if isinstance(m, HumanMessage)), empty)] *)
Definition last_human_input (msgs : list Message) : text :=
  match List.find is_human (rev msgs) with
  | Some m => content_of m
  | None => []
  end.

Definition retrieve_long_term_memory_node (state : GraphState)
    (vectorstore : list text) : GraphState :=
  let last_input := last_human_input (messages state) in
  let docs :=
    if nonempty last_input && (1 <? length vectorstore)
    then similarity_search vectorstore last_input 3
    else [] in
  {| messages := messages state;
     long_term_summary := long_term_summary state;
     retrieved_context := Some docs;
     intent := intent state;
     next_action_type := next_action_type state;
     slots := slots state |}.
End Nodes.

End Memory.

(** ** The tool executor and the calculator tool ([src/graph.py]) *)

Module Graph.

(** How [eval] sees names: [eval(expression)] runs in the namespace
    of its caller, builtins included; [eval(expr, globals, locals)]
    with the builtins set to [None] and no locals sees no name. *)
Inductive namespace : Type :=
| CallerNamespace
| NoNames.

(** A registered tool: its name, the parameter names of its
    signature, and what invoking it on an argument dictionary does. *)
Record Tool := {
  tool_name : string;
  tool_parameters : list string;
  tool_invoke : gmap string Value -> result text
}.

Definition has_parameter (t : Tool) (p : string) : bool :=
  existsb (String.eqb p) (tool_parameters t).

Section Executor.
(** [eval]: the text of the value ([str] of it), or the exception. *)
Variable py_eval : namespace -> text -> result text.
(** The registry [tools]. *)
Variable tools : list Tool.

(** The [calculator] tool. *)
Definition calculator (expression : text) : text :=
  match py_eval CallerNamespace expression with
  | Ok v => v
  | Raise e =>
      T "Error: Could not calculate '" ++ expression
        ++ T "'. Please provide a valid mathematical expression. Details: "
        ++ e
  end.

(** [next((t for t in tools if t.name == tool_name), None)] *)
Definition find_tool (name : string) : option Tool :=
  List.find (fun t => String.eqb (tool_name t) name) tools.

Definition actual_tool_args (t : Tool) (args : gmap string Value)
    (summary : text) (context : list text) : gmap string Value :=
  let a1 :=
    if has_parameter t "long_term_summary"
    then <["long_term_summary"%string := VStr summary]> args else args in
  if has_parameter t "retrieved_context"
  then <["retrieved_context"%string := VList context]> a1 else a1.

(** One turn of the loop over the tool calls: the invocation made,
    if any, and the message appended to the results. *)
Definition run_tool_call (summary : text) (context : list text)
    (tc : ToolCall)
    : option (string * gmap string Value) * Message :=
  match find_tool (tc_name tc) with
  | Some t =>
      let args := actual_tool_args t (tc_args tc) summary context in
      (Some (tool_name t, args),
       match tool_invoke t args with
       | Ok tool_result => ToolMessage tool_result (tc_id tc)
       | Raise e =>
           ToolMessage
             (T "Error executing tool '" ++ T (tc_name tc) ++ T "': " ++ e)
             (tc_id tc)
       end)
  | None =>
      (None,
       ToolMessage
         (T "Tool '" ++ T (tc_name tc)
            ++ T "' was requested but not found or not callable.")
         (tc_id tc))
  end.

(** The invocations made, in order, and the [messages] entry of
    the update that the node returns. *)
Record executed := {
  invocations : list (string * gmap string Value);
  new_messages : list Message
}.

Definition tool_executor_node (state : GraphState) : result executed :=
  match last (messages state) with
  | None => Raise (T "list index out of range")
  | Some (AIMessage _ calls) =>
      match calls with
      | [] =>
          Ok {| invocations := [];
                new_messages :=
                  [ AIMessage
                      (T "An internal error occurred: No tool calls found.")
                      [] ] |}
      | _ :: _ =>
          let summary := default [] (long_term_summary state) in
          let context := default [] (retrieved_context state) in
          let steps := map (run_tool_call summary context) calls in
          Ok {| invocations := omap fst steps;
                new_messages := map snd steps |}
      end
  | Some m =>
      Raise (T "'" ++ T (class_name m)
               ++ T "' object has no attribute 'tool_calls'")
  end.
End Executor.

End Graph.

(** ** The calculator node ([src/agent/nodes/calculator.py]) *)

Module Calculator.
Import Graph.

(** The characters of the class in the validation pattern: digits,
    the point, the four operators, the parentheses and [\s]. *)
Definition expression_char (a : ascii) : bool :=
  is_digit a || is_chr "." a || is_chr "+" a || is_chr "-" a
  || is_chr "*" a || is_chr "/" a || is_chr "(" a || is_chr ")" a
  || is_space a.

(** The characters that the specification lists for an expression:
    the class above without [\s]. *)
Definition plain_arithmetic_char (a : ascii) : bool :=
is_digit a || is_chr "." a || is_chr "+" a || is_chr "-" a
|| is_chr "*" a || is_chr "/" a || is_chr "(" a || is_chr ")" a.

(** The validation pattern: the start of the text, one or more
    characters of the class, the end of the text. *)
Definition expression_pattern : regex :=
  Sql.cats [ Bol; Plus expression_char; Eol ].

(** [llm_response.content.strip().strip(DQ).strip(QUOTE)] *)
Definition parsed_expression (reply : text) : text :=
  Str.strip_char "'" (Str.strip_char dq (Str.strip reply)).

(** The test that raises [ValueError]. *)
Definition rejected (expr : text) : bool :=
  Str.contains (T "INVALID") (Str.upper expr)
  || match re_match expression_pattern expr with
     | Some _ => false
     | None => true
     end.

Definition calculator_error (e : text) : text :=
  T "⚠️ Calculator error: " ++ e.

Definition invalid_answer : text :=
  calculator_error (T "Could not extract valid expression.").

Section Node.
Variable py_eval : namespace -> text -> result text.
(** [llm.invoke] on the system prompt and the user input. *)
Variable llm : text -> result text.

(** The [try] block after the model has replied. *)
Definition answer_for (reply : text) : text :=
  let expr := parsed_expression reply in
  if rejected expr then invalid_answer
  else match py_eval NoNames expr with
       | Ok v => T "The answer is " ++ v ++ T "."
       | Raise e => calculator_error e
       end.

Definition calculator_tool_node (state : GraphState) : list Message :=
  let user_input := Memory.last_human_input (messages state) in
  let answer :=
    match llm user_input with
    | Ok reply => answer_for reply
    | Raise e => calculator_error e
    end in
  [ AIMessage answer [] ].
End Node.

End Calculator.

(** ** The [/outlets] endpoint ([src/api/start_api.py]) *)

Module Api.
Import Sql.

Inductive http : Type :=
| Response (query_response : text)
| HTTPException (status : nat) (detail : text)
| Unhandled (e : text).

Definition nothing_found : text :=
  T "I couldn't find any information for your query. Please try rephrasing it or searching for a different outlet.".

(** [not result or BRACKETS in result] *)
Definition empty_result (r : text) : bool :=
  negb (nonempty r) || Str.contains (T "[]") r.

Section Endpoint.
(** The text-to-SQL chain and the query tool; [None] when the
    set-up at import time did not create them. *)
Variable generate_query : option (text -> result text).
Variable execute_query : option (text -> result text).

Definition get_outlet_info (query : text)
    (long_term_summary : option text) (retrieved_context : text) : http :=
  match generate_query, execute_query with
  | Some generate, Some execute =>
      match long_term_summary with
      | None => Unhandled (T "'NoneType' object is not subscriptable")
      | Some _ =>
          match generate query with
          | Raise e =>
              HTTPException 500
                (T "Failed to retrieve outlet information: " ++ e)
          | Ok raw_sql_query =>
              let cleaned_sql_query := clean_sql_query raw_sql_query in
              let fuzzy_sql_query := expand_fuzzy_sql cleaned_sql_query in
              match execute fuzzy_sql_query with
              | Raise e =>
                  HTTPException 500
                    (T "Failed to retrieve outlet information: " ++ e)
              | Ok r =>
                  if empty_result r then Response nothing_found
                  else Response r
              end
          end
      end
  | _, _ => HTTPException 503 (T "Outlets database or SQL chain not ready.")
  end.
End Endpoint.

End Api.

(** ** Concrete inputs used by the examples below *)

Module Examples.
Import Memory Graph.

Definition user_turn (n : nat) : Message :=
  HumanMessage (T "turn " ++ [ascii_of_nat (48 + n)]).

Definition state_of (msgs : list Message) : GraphState :=
  {| messages := msgs;
     long_term_summary := None;
     retrieved_context := None;
     intent := None;
     next_action_type := None;
     slots := None |}.

(** One system turn and eleven conversational turns. *)
Definition eleven_turns : GraphState :=
  state_of
    (SystemMessage (T "be brief") :: map user_turn (seq 0 6)
       ++ [ ToolMessage (T "4") "call_0" ] ++ map user_turn (seq 6 4)).

Definition three_turns : GraphState :=
  state_of (SystemMessage (T "be brief") :: map user_turn (seq 0 3)).

Definition fixed_summary (_ : list Message) (_ : text) : result text :=
  Ok (T "  The user said hello. ").

Definition blank_summary (_ : list Message) (_ : text) : result text :=
  Ok (T "   ").

(** An index with one real entry, and a search that returns the
    first [k] texts of the index. *)
Definition small_index : list text := [ []; T "The user said hello." ].

Definition first_k (index : list text) (_ : text) (k : nat) : list text :=
  firstn k index.

Definition empty_user_turn : GraphState :=
  state_of [ HumanMessage [] ].

Definition asked_state : GraphState :=
  state_of [ HumanMessage (T "what did I say?") ].

(** A registry with one tool, and a planner turn with two calls. *)
Definition adder : Tool :=
  {| tool_name := "calculator";
     tool_parameters := [ "expression"%string ];
     tool_invoke := fun _ => Ok (T "4") |}.

Definition failing : Tool :=
  {| tool_name := "get_outlet_details";
     tool_parameters :=
       [ "query"%string; "long_term_summary"%string;
         "retrieved_context"%string ];
     tool_invoke := fun _ => Raise (T "connection refused") |}.

Definition call (name id : string) : ToolCall :=
  {| tc_name := name; tc_args := ∅; tc_id := id |}.

Definition two_calls : GraphState :=
  state_of
    [ HumanMessage (T "2+2 and 3+1?");
      AIMessage [] [ call "calculator" "call_1"; call "calculator" "call_2" ] ].

Definition mixed_calls : GraphState :=
  state_of
    [ AIMessage []
        [ call "calculator" "call_1"; call "get_outlet_details" "call_2";
          call "weather" "call_3" ] ].

(** The input of the round-trip property: the statement between
    code fences tagged sql; and the same with the column quoted. *)
Definition fenced (stmt : text) : text :=
  T "```sql" ++ [nl] ++ stmt ++ [nl] ++ T "```".

Definition ss2_statement : text :=
  T "SELECT * FROM outlets WHERE address LIKE '%SS 2%';".

Definition ss2_statement_quoted : text :=
  T "SELECT * FROM outlets WHERE " ++ Sql.quoted (T "address")
    ++ T " LIKE '%SS 2%';".

(** A labelled answer with backticks, one of them unpaired, and
    trailing commentary. *)
Definition labelled_answer : text :=
  T "SQLQuery: select `name`,   `address` from `outlets`" ++ [nl]
    ++ T "where `id = 1 limit 5; this lists one outlet".

(** A statement whose literal contains a clause keyword. *)
Definition limit_statement : text :=
  T "SELECT * FROM outlets WHERE address LIKE '%Limit%';".

(** A statement whose FROM stands right after a parenthesis. *)
Definition count_statement : text :=
  T "SELECT COUNT(*)FROM outlets;".

Definition subquery_statement : text :=
  T "SELECT name FROM (SELECT * FROM outlets) t;".

Definition always (v : text) (_ : text) : result text := Ok v.

(** A sanitized statement with a clause on a column of the allow-list
    and one on another column. *)
Definition two_clauses : text :=
  T "SELECT * " ++ [nl] ++ T "FROM outlets " ++ [nl] ++ T "WHERE "
    ++ Sql.quoted (T "name") ++ T " LIKE '%ZUS%' AND "
    ++ Sql.quoted (T "services") ++ T " LIKE '%Dine In%';".

(** An answer of the text-to-SQL chain in which the literal of the
    address clause does not end with a percent sign, and the statement
    that the sanitizer makes of it. *)
Definition open_literal_answer : text :=
  T "SELECT * FROM outlets WHERE " ++ Sql.quoted (T "address")
    ++ T " LIKE '%a' AND name LIKE '%b%';".

Definition open_literal_statement : text :=
  T "SELECT * " ++ [nl] ++ T "FROM outlets " ++ [nl] ++ T "WHERE "
    ++ Sql.quoted (T "address") ++ T " LIKE '%a' AND name LIKE '%b%';".

Definition name_clause_only : text :=
  T "SELECT * " ++ [nl] ++ T "FROM outlets " ++ [nl] ++ T "WHERE "
    ++ Sql.quoted (T "name") ++ T " LIKE '%ZUS%';".

(** An evaluator that knows one sum. *)
Definition eval_sum (_ : Graph.namespace) (expr : text) : result text :=
if Str.text_eqb expr (T "3 + 5") then Ok (T "8")
else Raise (T "invalid syntax").

End Examples.

(** ** Counting the places where a word stands *)

Module Count.

(** [s] begins with [w], letter case apart. *)
Fixpoint starts_with_ci (w s : text) : bool :=
  match w, s with
  | [], _ => true
  | a :: w', b :: s' => Ascii.eqb (lower b) (lower a) && starts_with_ci w' s'
  | _ :: _, [] => false
  end.

(** The number of positions of [s] at which [w] stands, letter case
    apart. *)
Fixpoint count_ci (w s : text) : nat :=
  (if starts_with_ci w s then 1 else 0)
  + match s with
    | [] => 0
    | _ :: s' => count_ci w s'
    end.

End Count.

(** A sanitized statement with two clauses on columns of the
    allow-list under one WHERE. *)
Module Clauses.

Definition two_fuzzy_clauses : text :=
  T "SELECT * " ++ [nl] ++ T "FROM outlets " ++ [nl] ++ T "WHERE "
    ++ Sql.quoted (T "address") ++ T " LIKE '%SS 2%' AND "
    ++ Sql.quoted (T "services") ++ T " LIKE '%Dine In%';".

(** A statement with the same clause twice under one WHERE. *)
Definition repeated_clause : text :=
  T "SELECT * FROM outlets WHERE " ++ Sql.quoted (T "address")
    ++ T " LIKE '%a%' AND " ++ Sql.quoted (T "address")
    ++ T " LIKE '%a%';".

End Clauses.

(** ** Line breaks at the start of words

    What steps 5 to 7 of the sanitizer do to a text, whatever the
    text: the vocabulary of the properties that hold for every
    input. *)

Module Lines.
Import Count.

(** Patterns of which every match starts at a word boundary. *)
Fixpoint at_boundary (r : regex) : bool :=
  match r with
  | WordB => true
  | Cat r1 r2 =>
      at_boundary r1 || (Shape.reads_nothing r1 && at_boundary r2)
  | Alt r1 r2 => at_boundary r1 && at_boundary r2
  | Group _ r1 => at_boundary r1
  | _ => false
  end.

(** [lined prev s t]: [t] is [s] with line feeds added before some
    of the word characters that start a word; [prev] is the character
    before [s]. *)
Inductive lined : option ascii -> text -> text -> Prop :=
| lined_nil prev : lined prev [] []
| lined_keep prev a s t :
    lined (Some a) s t -> lined prev (a :: s) (a :: t)
| lined_break prev a s t :
    word_opt prev = false -> is_word a = true ->
    lined (Some a) s t -> lined prev (a :: s) (nl :: a :: t).

(** The characters of a text that are not white space. *)
Definition solid (s : text) : text :=
  List.filter (fun a => negb (is_space a)) s.

(** What may follow a white-space character: after a space, a
    character that is not white space, or a line feed; after a line
    feed, a character that is not white space; nothing else is white
    space. *)
Definition follows_ok (a : ascii) (rest : text) : bool :=
  if is_space a then
    (Ascii.eqb a sp
     && match rest with
        | [] => true
        | b :: _ => negb (is_space b) || Ascii.eqb b nl
        end)
    || (Ascii.eqb a nl
        && match rest with
           | [] => false
           | b :: _ => negb (is_space b)
           end)
  else true.

Fixpoint spaced (s : text) : bool :=
  match s with
  | [] => true
  | a :: s' => follows_ok a s' && spaced s'
  end.

(** After every line feed of [t] one of the keywords of step 6
    stands, in some letter case. *)
Definition keyword_lines (t : text) : Prop :=
  forall pre post,
    t = pre ++ nl :: post ->
    exists k, In k Sql.keywords /\ starts_with_ci k post = true.

(** A text that ends with a character that is not white space. *)
Definition ends_solid (k : text) : bool := negb (is_space (List.last k sp)).

End Lines.

(** ** The [/products] endpoint ([src/api/start_api.py]) and the price
    that the ingestion stores ([src/rag integration/ingest_product_kb.py]) *)

Module Products.

(** The values that [json.loads] returns. *)
#[warnings="-register-all"]
Inductive json : Type :=
| JNull
| JBool (b : bool)
| JNumber (n : text)
| JString (s : text)
| JArray (l : list json)
| JObject (o : list (text * json)).

(** [value[:1]] is defined on strings and lists; on the other values
    it raises. *)
Definition sliceable (v : json) : bool :=
  match v with
  | JString _ | JArray _ => true
  | _ => false
  end.

Definition digit_or_point (a : ascii) : bool := is_digit a || is_chr "." a.

(** The texts made of digits and points that [float] accepts: those
    with a digit and at most one point. *)
Definition float_literal (s : text) : bool :=
  forallb digit_or_point s
  && nonempty (List.filter is_digit s)
  && (length (List.filter (is_chr ".") s) <=? 1).

(** The amount of the price patterns, as group [n]: one or more
    digits and, optionally, as group [n + 1], a point and one or more
    digits. *)
Definition amount (n : nat) : regex :=
  Group n
    (Cat (Plus is_digit)
         (Opt (Group (S n) (Cat (lit_ci (T ".")) (Plus is_digit))))).

(** The optional currency, as group [n], between optional white
    space. *)
Definition currency (n : nat) : regex :=
  Sql.cats [ Star is_space; Opt (Group n (lit_ci (T "RM"))); Star is_space ].

(** The three price patterns, with [re.IGNORECASE]: a word among
    below, under, less than; a word among above, over, more than; and
    between, an amount, and or to, and a second amount. *)
Definition price_below_pattern : regex :=
  Sql.cats
    [ Group 1 (alts [ lit_ci (T "below"); lit_ci (T "under");
                      lit_ci (T "less than") ]);
      currency 2; amount 3 ].

Definition price_above_pattern : regex :=
  Sql.cats
    [ Group 1 (alts [ lit_ci (T "above"); lit_ci (T "over");
                      lit_ci (T "more than") ]);
      currency 2; amount 3 ].

Definition price_between_pattern : regex :=
  Sql.cats
    [ Group 1 (lit_ci (T "between"));
      currency 2; amount 3;
      Star is_space;
      Group 5 (alts [ lit_ci (T "and"); lit_ci (T "to") ]);
      currency 6; amount 7 ].

Definition not_loaded : text :=
  T "Product knowledge base not loaded. Please ensure ingestion script ran successfully.".

Definition no_product : text :=
  T "I couldn't find any products matching your criteria, especially with the specified price range. Please try a different query or adjust your budget.".

(** The characters that the ingestion removes from a price text:
    the pattern is the class of what is neither a digit nor a point. *)
Definition non_numeric_pattern : regex :=
  Chr (fun a => negb (digit_or_point a)).

Inductive reply : Type :=
| Summary (summary : text)
| HTTPException (status : nat) (detail : text)
| Unhandled (e : text).

(** What [json.loads] does with a text: it returns the value, raises
    [JSONDecodeError], or raises another exception, as it does with
    [RecursionError] on deeply nested brackets and with [ValueError]
    on a number of too many digits; [e] is the message. *)
Inductive decoding : Type :=
| Decoded (v : json)
| JSONDecodeError
| OtherError (e : text).

Section Endpoint.
(** Python's floats: [float] of a text, which raises [ValueError] on
    some texts, and the two comparisons that the filter makes. *)
Variable float : Type.
Variable py_float : text -> option float.
Variable float_ge : float -> float -> bool.
Variable float_le : float -> float -> bool.

(** A document of the product index, with the [price_float] entry of
    its metadata. *)
Record Document := {
  page_content : text;
  price_float : option float
}.

(** [json.loads] *)
Variable json_loads : text -> decoding.
(** The message of the error that [value[:1]] raises. *)
Variable slice_error : json -> text.
(** The retriever and the chain, which the set-up creates together
    with the index, or not at all. *)
Variable product_kb :
  option ((text -> result (list Document))
          * (list Document -> text -> text -> json -> result text)).

(** The price that the ingestion stores for a product: the price
    text without the characters that are neither digits nor points,
    as a float; nothing when [float] raises [ValueError]. *)
Definition price_value (raw_price : text) : option float :=
  py_float (re_sub non_numeric_pattern [] raw_price).

Definition float_of_group (n : nat) (m : found) : result float :=
  match py_float (group_or_empty n m) with
  | Some v => Ok v
  | None =>
      Raise (T "could not convert string to float: '"
               ++ group_or_empty n m ++ T "'")
  end.

(** The bounds [min_price] and [max_price] that the query gives. *)
Definition price_bounds (query : text)
    : result (option float * option float) :=
  let price_below_match := re_search price_below_pattern query in
  let price_above_match := re_search price_above_pattern query in
  let price_between_match := re_search price_between_pattern query in
  match price_below_match with
  | Some m =>
      match float_of_group 3 m with
      | Ok v => Ok (None, Some v)
      | Raise e => Raise e
      end
  | None =>
      match price_above_match with
      | Some m =>
          match float_of_group 3 m with
          | Ok v => Ok (Some v, None)
          | Raise e => Raise e
          end
      | None =>
          match price_between_match with
          | Some m =>
              match float_of_group 3 m with
              | Ok lo =>
                  match float_of_group 7 m with
                  | Ok hi => Ok (Some lo, Some hi)
                  | Raise e => Raise e
                  end
              | Raise e => Raise e
              end
          | None => Ok (None, None)
          end
      end
  end.

Definition within (min_price max_price : option float) (doc_price : float)
    : bool :=
  match min_price with
  | None => true
  | Some lo => float_ge doc_price lo
  end
  && match max_price with
     | None => true
     | Some hi => float_le doc_price hi
     end.

(** One turn of the loop over the retrieved documents. *)
Definition keep_priced (min_price max_price : option float)
    (filtered_docs : list Document) (doc : Document) : list Document :=
  match price_float doc with
  | Some doc_price =>
      if within min_price max_price doc_price
      then filtered_docs ++ [doc]
      else filtered_docs
  | None => filtered_docs
  end.

Definition filter_docs (min_price max_price : option float)
    (retrieved_docs : list Document) : list Document :=
  match min_price, max_price with
  | None, None => retrieved_docs
  | _, _ => fold_left (keep_priced min_price max_price) retrieved_docs []
  end.

(** The documents that carry a price between the bounds. *)
Definition priced_within (min_price max_price : option float)
    (doc : Document) : bool :=
  match price_float doc with
  | Some doc_price => within min_price max_price doc_price
  | None => false
  end.

(** [retrieved_context_list]: the decoded context, or the empty list
    when the context is empty or [JSONDecodeError] is raised; another
    exception of [json.loads] is not caught. *)
Definition context_list (retrieved_context : text) : result json :=
  if nonempty retrieved_context
  then match json_loads retrieved_context with
       | Decoded v => Ok v
       | JSONDecodeError => Ok (JArray [])
       | OtherError e => Raise e
       end
  else Ok (JArray []).

Definition failed (e : text) : reply :=
  HTTPException 500 (T "Failed to retrieve product information: " ++ e).

Definition get_product_summary (query : text)
    (long_term_summary : option text) (retrieved_context : text) : reply :=
  match product_kb with
  | None => HTTPException 503 not_loaded
  | Some (product_retriever, product_rag_chain) =>
      match context_list retrieved_context with
      | Raise e => Unhandled e
      | Ok retrieved_context_list =>
          match long_term_summary with
          | None => Unhandled (T "'NoneType' object is not subscriptable")
          | Some summary =>
              if sliceable retrieved_context_list then
                match price_bounds query with
                | Raise e => Unhandled e
                | Ok (min_price, max_price) =>
                    match product_retriever query with
                    | Raise e => failed e
                    | Ok retrieved_docs =>
                        let filtered_docs :=
                          filter_docs min_price max_price retrieved_docs in
                        if nonempty filtered_docs
                        then match
                               product_rag_chain filtered_docs query summary
                                 retrieved_context_list
                             with
                             | Ok response => Summary response
                             | Raise e => failed e
                             end
                        else Summary no_product
                    end
                end
              else Unhandled (slice_error retrieved_context_list)
          end
      end
  end.
End Endpoint.

(** A stand-in for Python's floats in the examples: the accepted
    texts themselves, compared by their length. *)
Definition literal_float (s : text) : option text :=
  if float_literal s then Some s else None.

Definition shorter_or_equal (x y : text) : bool := length x <=? length y.
Definition longer_or_equal (x y : text) : bool := length y <=? length x.

Module Samples.

(** Three documents, one without price; a retriever that returns
    them; and a chain that answers with the content of the first
    document it is given. *)
Definition three_docs : list (Document text) :=
  [ {| page_content := T "Tumbler"; price_float := Some (T "1050.00") |};
    {| page_content := T "Straw"; price_float := None |};
    {| page_content := T "Mug"; price_float := Some (T "39") |} ].

Definition always_docs (_ : text) : result (list (Document text)) :=
  Ok three_docs.

Definition echo_chain (docs : list (Document text)) (_ _ : text) (_ : json)
    : result text :=
  match docs with
  | d :: _ => Ok (page_content text d)
  | [] => Raise (T "no document")
  end.

End Samples.

End Products.

(** ** The planner and the routing of the graph
    ([src/agent/planner.py], [src/graph.py]) *)

Module Planner.
Import Graph.

(** The nodes that [src/graph.py] adds to the graph. *)
Inductive node : Type :=
| manage_memory
| retrieve_memory
| planner
| tool_executor
| chat_response_generator.

(** The update that [planner_node] returns. *)
Record planned := {
  planned_messages : list Message;
  planned_next_action_type : text;
  planned_intent : text
}.

(** The summary and the context as the prompts of the planner and of
    the response generator receive them. *)
Definition summary_text (state : GraphState) : text :=
  default (T "No prior conversation summary available.")
    (long_term_summary state).

Definition retrieved_context_str (state : GraphState) : text :=
  match default [] (retrieved_context state) with
  | [] => T "No relevant past context found."
  | (_ :: _) as retrieved_context_list => Str.join [nl] retrieved_context_list
  end.

Section Nodes.
(** The description of a registered tool. *)
Variable tool_description : Tool -> text.
(** [planner_chain.invoke]: the planner prompt piped into the model
    bound to the tools, given the turns, the summary, the context and
    the tool descriptions; it answers with the content and the tool
    calls of an assistant turn, or fails. *)
Variable planner_chain :
  list Message -> text -> text -> text -> result (text * list ToolCall).
(** [main_chat_chain.invoke], given the turns, the summary and the
    context; it answers with an assistant turn. *)
Variable main_chat_chain :
  list Message -> text -> text -> result Message.

Definition tool_descriptions_str (tools_list : list Tool) : text :=
  Str.join [nl]
    (map (fun t => T "- " ++ T (tool_name t) ++ T ": " ++ tool_description t)
         tools_list).

Definition planner_node (state : GraphState) (tools_list : list Tool)
    : result planned :=
  match
    planner_chain (messages state) (summary_text state)
      (retrieved_context_str state) (tool_descriptions_str tools_list)
  with
  | Raise e => Raise e
  | Ok (content, tool_calls) =>
      match tool_calls with
      | _ :: _ =>
          Ok {| planned_messages := [ AIMessage content tool_calls ];
                planned_next_action_type := T "tool_call";
                planned_intent := T "tool_call_detected" |}
      | [] =>
          Ok {| planned_messages := [ AIMessage content tool_calls ];
                planned_next_action_type := T "final_answer";
                planned_intent := T "chat" |}
      end
  end.

(** [chat_response_generator_node]: the [messages] entry of its
    update. *)
Definition chat_response_generator_node (state : GraphState)
    : result (list Message) :=
  match
    main_chat_chain (messages state) (summary_text state)
      (retrieved_context_str state)
  with
  | Raise e => Raise e
  | Ok response => Ok [ response ]
  end.

(** [chat_fallback_node] of [src/agent/nodes/chat.py]: the summary
    defaults to the empty text, and the fixed text stands in for a
    context that joins to the empty text. *)
Definition fallback_context (state : GraphState) : text :=
  match Str.join [nl] (default [] (retrieved_context state)) with
  | [] => T "No relevant context."
  | (_ :: _) as joined => joined
  end.

Definition chat_fallback_node (state : GraphState) : result (list Message) :=
  match
    main_chat_chain (messages state) (default [] (long_term_summary state))
      (fallback_context state)
  with
  | Raise e => Raise e
  | Ok reply => Ok [ AIMessage (content_of reply) [] ]
  end.
End Nodes.

(** The conditional edges after the planner: the value of
    [next_action_type] is looked up in the mapping. *)
Definition after_planner (next_action_type : text) : option node :=
  if Str.text_eqb next_action_type (T "tool_call") then Some tool_executor
  else if Str.text_eqb next_action_type (T "final_answer")
       then Some chat_response_generator
       else None.

(** The edges of the graph: the node that follows, [None] after the
    finish point, or when the mapping of the conditional edges has no
    entry for the value. *)
Definition next_node (n : node) (next_action_type : text) : option node :=
  match n with
  | manage_memory => Some retrieve_memory
  | retrieve_memory => Some planner
  | planner => after_planner next_action_type
  | tool_executor => Some chat_response_generator
  | chat_response_generator => None
  end.

End Planner.

(** ** The scrapers and the outlet database
    ([src/scrapping/scrap_location.py],
     [src/scrapping/scrap_zus_drinkware.py],
     [src/rag integration/database_outlets_set_up.py]) *)

From Stdlib Require DecimalString Sorted.

Module Scrapers.
Import Products.

(** [str(n)] for a natural number. *)
Definition decimal (n : nat) : text :=
  T (DecimalString.NilZero.string_of_uint (Nat.to_uint n)).

(** [list(set(values))]: the values without repetition; only their
    number and, when there is one, that one are used. *)
Fixpoint distinct (values : list text) : list text :=
  match values with
  | [] => []
  | v :: values' =>
      if existsb (Str.text_eqb v) values' then distinct values'
      else v :: distinct values'
  end.

(** [generate_opening_summary]: [hours] is the dictionary of the
    opening times by day, as the list of its items in their order. *)
Definition generate_opening_summary (hours : list (text * text)) : text :=
  match distinct (map snd hours) with
  | [ v ] => T "Monday–Sunday: " ++ v
  | _ =>
      Str.join (T "; ")
        (map (fun item => fst item ++ T ": " ++ snd item) hours)
  end.

Definition build_description (name address : text) (services : list text)
    (summary link : text) : text :=
  let services_str :=
    match services with
    | [] => T "various services"
    | _ :: _ => Str.join (T ", ") services
    end in
  name ++ T " is located at " ++ address ++ T ". It offers " ++ services_str
    ++ T ". Open hours: " ++ summary ++ T ". Google Maps: " ++ link.

(** The record that the outlet scraper composes for one outlet. *)
Definition scraped_outlet (id_counter : nat) (name address maps_link : text)
    (services : list text) (opening_hours : list (text * text))
    : gmap string json :=
  let opening_summary := generate_opening_summary opening_hours in
  let full_desc :=
    build_description name address services opening_summary maps_link in
  <["full_description"%string := JString full_desc]>
  (<["opening_hours_summary"%string := JString opening_summary]>
  (<["opening_hours"%string :=
       JObject (map (fun item => (fst item, JString (snd item)))
                    opening_hours)]>
  (<["services"%string := JArray (map JString services)]>
  (<["google_maps_link"%string := JString maps_link]>
  (<["address"%string := JString address]>
  (<["name"%string := JString name]>
  (<["id"%string := JNumber (decimal id_counter)]> ∅))))))).

(** The parameters of the INSERT statement for one outlet. *)
Record outlet_row := {
  row_name : json;
  row_address : json;
  row_services : text;
  row_hours : json;
  row_Maps_link : json;
  row_opening_hours : text;
  row_full_description : json
}.

(** The texts of a list of JSON strings; nothing when an item is not
    a string. *)
Fixpoint strings_of (l : list json) : option (list text) :=
  match l with
  | [] => Some []
  | JString s :: l' =>
      match strings_of l' with
      | Some ss => Some (s :: ss)
      | None => None
      end
  | _ :: _ => None
  end.

Section Ingestion.
(** [json.dumps] *)
Variable json_dumps : json -> text.
(** The message of the error that joining a list with an item that
    is not a string raises. *)
Variable join_error : list json -> text.

(** The values that the ingestion reads from one record of the JSON
    file.  Joining a list that holds something else than strings
    raises. *)
Definition outlet_parameters (outlet : gmap string json)
    : result outlet_row :=
  let name := default (JString (T "N/A")) (outlet !! "name"%string) in
  let address := default (JString (T "N/A")) (outlet !! "address"%string) in
  let services_list := default (JArray []) (outlet !! "services"%string) in
  let hours_summary :=
    default (JString (T "N/A")) (outlet !! "opening_hours_summary"%string) in
  let Maps_link :=
    default (JString (T "N/A")) (outlet !! "Maps_link"%string) in
  let detailed_opening_hours :=
    default (JObject []) (outlet !! "opening_hours"%string) in
  let full_description :=
    default (JString (T "N/A")) (outlet !! "full_description"%string) in
  let row services_str :=
    Ok {| row_name := name;
          row_address := address;
          row_services := services_str;
          row_hours := hours_summary;
          row_Maps_link := Maps_link;
          row_opening_hours := json_dumps detailed_opening_hours;
          row_full_description := full_description |} in
  match services_list with
  | JArray l =>
      match strings_of l with
      | Some ss => row (Str.join (T ", ") ss)
      | None => Raise (join_error l)
      end
  | _ => row []
  end.
End Ingestion.

(** *** The product scraper *)

(** A product as [scrape_section] records it. *)
Record Product := {
  product_name : text;
  product_price : text;
  product_variants : list text;
  product_section : text
}.

(** The code-point order of [str], which is the order of the bytes of
    the encoded texts. *)
Fixpoint text_ltb (s t : text) : bool :=
  match s, t with
  | [], [] => false
  | [], _ :: _ => true
  | _ :: _, [] => false
  | a :: s', b :: t' =>
      (code a <? code b) || ((code a =? code b) && text_ltb s' t')
  end.

(** [sorted] on texts without repetition, by insertion. *)
Fixpoint insert_sorted (v : text) (l : list text) : list text :=
  match l with
  | [] => [ v ]
  | w :: l' => if text_ltb v w then v :: l else w :: insert_sorted v l'
  end.

Definition sorted (l : list text) : list text :=
  fold_right insert_sorted [] l.

Definition label_texts : list text :=
  [ T "sale price"; T "regular price"; [] ].

(** The variants of a product card: the hidden texts that, in lower
    case, are not a price label nor empty, without repetition and
    sorted. *)
Definition clean_variants (raw_variants : list text) : list text :=
  sorted
    (distinct
       (List.filter
          (fun v => negb (existsb (Str.text_eqb (map lower v)) label_texts))
          raw_variants)).

(** [grouped.setdefault(key, []).append(p)] on the dictionary as the
    list of its items. *)
Fixpoint setdefault_append (key : text) (p : Product)
    (grouped : list (text * list Product)) : list (text * list Product) :=
  match grouped with
  | [] => [ (key, [ p ]) ]
  | (k, l) :: grouped' =>
      if Str.text_eqb k key then (k, l ++ [ p ]) :: grouped'
      else (k, l) :: setdefault_append key p grouped'
  end.

Fixpoint lookup (key : text) (grouped : list (text * list Product))
    : option (list Product) :=
  match grouped with
  | [] => None
  | (k, l) :: grouped' =>
      if Str.text_eqb k key then Some l else lookup key grouped'
  end.

Definition group_by_section (products : list Product)
    : list (text * list Product) :=
  fold_left (fun grouped p => setdefault_append (product_section p) p grouped)
    products [].

Definition product_line (counter : nat) (p : Product) : text :=
  let line :=
    decimal counter ++ T ". " ++ product_name p ++ [nl] ++ T "Price: "
      ++ product_price p in
  match product_variants p with
  | [] => line
  | _ :: _ =>
      line ++ [nl] ++ T "Variants: "
        ++ Str.join (T ", ") (product_variants p)
  end.

(** The lines of the products [ps], numbered from [counter]. *)
Fixpoint numbered (counter : nat) (ps : list Product) : list text :=
  match ps with
  | [] => []
  | p :: ps' => product_line counter p :: numbered (S counter) ps'
  end.

(** The products of a section, in their order. *)
Definition of_section (section : text) (products : list Product)
    : list Product :=
  List.filter (fun p => Str.text_eqb (product_section p) section) products.

(** The lines of a section that has products: its heading, its
    numbered products and an empty line. *)
Definition block (section : text) (counter : nat) (ps : list Product)
    : list text :=
  match ps with
  | [] => []
  | _ :: _ =>
      (T "== " ++ section ++ T " Products ==") :: numbered counter ps ++ [ [] ]
  end.

Definition title_line : text :=
  T "ZUS Drinkware Products - Tumbler and Accessories" ++ [nl].

Definition intro_line : text :=
  T "This document contains a list of ZUS Coffee's available drinkware products, including tumblers and accessories. Each entry includes product name, price, and available variants."
    ++ [nl].

(** One turn of the loop over the two sections: the lines and the
    counter after it. *)
Definition section_lines (grouped : list (text * list Product))
    (acc : list text * nat) (section : text) : list text * nat :=
  let '(result, counter) := acc in
  match lookup section grouped with
  | Some ps =>
      let '(result', counter') :=
        fold_left
          (fun rc p =>
             (fst rc ++ [ product_line (snd rc) p ], S (snd rc)))
          ps
          (result ++ [ T "== " ++ section ++ T " Products ==" ], counter) in
      (result' ++ [ [] ], counter')
  | None => acc
  end.

Definition format_for_rag (products : list Product) : text :=
  let grouped := group_by_section products in
  let '(result, _) :=
    fold_left (section_lines grouped) [ T "Tumbler"; T "Accessories" ]
      ([ title_line; intro_line ], 1) in
  Str.join [nl] result.

End Scrapers.

(** ** The parts of the pattern of step 1 *)

Module Fences.
Import Sql.

(** The optional tag of the opening fence: the alternatives in the
    order in which the pattern lists them. *)
Definition fence_tag : regex :=
  Opt (alts [ lit (T "sql"); lit (T "SQL"); lit (T "SQLQuery");
              lit (T "mysql"); lit (T "postgresql") ]).

(** What follows the tag: white space, the lazy group 1, white space
    and the closing fence. *)
Definition fence_body : regex :=
  cats [ Star is_space; Group 1 (StarLazy any); Star is_space;
         lit (T "```") ].

(** A pattern that does not look at the character before the
    position of a match: it has neither [^] nor [\b]. *)
Fixpoint prev_free (r : regex) : bool :=
  match r with
  | Bol | WordB => false
  | Cat r1 r2 | Alt r1 r2 => prev_free r1 && prev_free r2
  | Opt r1 | Group _ r1 => prev_free r1
  | Eps | Chr _ | Star _ | StarLazy _ | Eol => true
  end.

(** Two matches that read the same text, leave the same rest and
    capture the same groups. *)
Definition same_match (m m' : found) : Prop :=
  m_text m = m_text m' /\ m_rest m = m_rest m' /\ m_caps m = m_caps m'.

(** Two attempts that both fail, or both succeed with results that
    [Q] relates. *)
Definition lift {R : Type} (Q : R -> R -> Prop) (x y : option R) : Prop :=
  match x, y with
  | Some a, Some b => Q a b
  | None, None => True
  | _, _ => False
  end.

(** A fenced statement tagged SQLQuery. *)
Definition tagged (body : text) : text :=
  T "```SQLQuery" ++ [nl] ++ body ++ [nl] ++ T "```".

Definition all_outlets : text := T "SELECT * FROM outlets".

End Fences.

(** * Properties *)

(** ** Text lemmas *)

Module StrFacts.
Import Str.

Lemma starts_with_spec (p s : text) :
  starts_with p s = true <-> exists post, s = p ++ post.
Proof.
  revert s; induction p as [|a p IH]; intros s; simpl.
  - split; [intros _; exists s; reflexivity | reflexivity].
  - destruct s as [|b s].
    + split; [discriminate | intros [post H]; discriminate].
    + rewrite andb_true_iff, IH. split.
      * intros [Hab [post ->]]. apply Ascii.eqb_eq in Hab as ->.
        exists post; reflexivity.
      * intros [post H]. injection H as -> ->. split.
        -- apply Ascii.eqb_refl.
        -- exists post; reflexivity.
Qed.

Lemma contains_spec (p s : text) :
  contains p s = true <-> exists pre post, s = pre ++ p ++ post.
Proof.
  induction s as [|b s IH].
  - simpl. rewrite orb_false_r, starts_with_spec. split.
    + intros [post H]. exists [], post. exact H.
    + intros [pre [post H]]. destruct pre as [|x pre]; [|discriminate].
      exists post. exact H.
  - cbn [contains]. rewrite orb_true_iff, IH, starts_with_spec. split.
    + intros [[post H] | [pre [post H]]].
      * exists [], post. exact H.
      * exists (b :: pre), post. rewrite H. reflexivity.
    + intros [pre [post H]]. destruct pre as [|x pre].
      * left. exists post. exact H.
      * right. injection H as _ H. exists pre, post. exact H.
Qed.

(** The fuel of [replace] is enough: more of it changes nothing. *)
Lemma replace_loop_fuel (old new : text) :
  old <> [] ->
  forall fuel fuel' s,
    length s < fuel -> length s < fuel' ->
    replace_loop fuel old new s = replace_loop fuel' old new s.
Proof.
  intros Hold. induction fuel as [|fuel IH]; intros [|fuel'] s H H'; try lia.
  cbn [replace_loop]. destruct (starts_with old s) eqn:E.
  - f_equal. apply starts_with_spec in E as [post ->].
    destruct old as [|a old]; [congruence|].
    rewrite length_app in H, H'. cbn [length] in H, H'.
    apply IH; rewrite length_skipn, length_app; cbn [length]; lia.
  - destruct s as [|a s]; [reflexivity|]. cbn in H, H'. f_equal.
    apply IH; lia.
Qed.

End StrFacts.

(** ** The outlets endpoint *)

Module ApiFacts.
Import Api.

(** C9: when the generated query executes to a result [r], the
    endpoint answers with the fixed nothing-found message if [r] is
    empty or contains the two characters [[]] anywhere, and with [r]
    itself in every other case. *)
Theorem outlet_empty_result_message
    (generate execute : text -> result text)
    (query summary context raw r : text)
    (Hgen : generate query = Ok raw)
    (Hexec : execute (Sql.expand_fuzzy_sql (Sql.clean_sql_query raw)) = Ok r) :
  ((r = [] \/ exists pre post, r = pre ++ T "[]" ++ post) ->
     get_outlet_info (Some generate) (Some execute) query (Some summary) context
     = Response nothing_found)
  /\ (~ (r = [] \/ exists pre post, r = pre ++ T "[]" ++ post) ->
     get_outlet_info (Some generate) (Some execute) query (Some summary) context
     = Response r).
Proof.
  unfold get_outlet_info. rewrite Hgen, Hexec. unfold empty_result.
  split.
  - intros [-> | H]; [reflexivity|].
    apply StrFacts.contains_spec in H. rewrite H, orb_true_r. reflexivity.
  - intros H. destruct r as [|a r]; [exfalso; apply H; left; reflexivity|].
    simpl nonempty. simpl negb. rewrite orb_false_l.
    destruct (Str.contains (T "[]") (a :: r)) eqn:E; [|reflexivity].
    exfalso. apply H. right. apply StrFacts.contains_spec. exact E.
Qed.

Lemma outlet_empty_result_message_witness :
  get_outlet_info (Some (Examples.always Examples.ss2_statement))
    (Some (Examples.always (T "[(1, 'SS 2')] and []")))
    (T "ss2") (Some []) (T "[]")
  = Response nothing_found.
Proof.
  refine (proj1 (outlet_empty_result_message
                   (Examples.always Examples.ss2_statement)
                   (Examples.always (T "[(1, 'SS 2')] and []"))
                   (T "ss2") [] (T "[]") _ _ eq_refl eq_refl) _).
  right. exists (T "[(1, 'SS 2')] and "), []. reflexivity.
Defined.

End ApiFacts.

(** ** Memory management and retrieval *)

Module MemoryFacts.
Import Memory.

Lemma conversational_app (l1 l2 : list Message) :
  conversational (l1 ++ l2) = conversational l1 ++ conversational l2.
Proof. apply List.filter_app. Qed.

Lemma system_messages_app (l1 l2 : list Message) :
  system_messages (l1 ++ l2) = system_messages l1 ++ system_messages l2.
Proof. apply List.filter_app. Qed.

Lemma conversational_of_system (l : list Message) :
  conversational (system_messages l) = [].
Proof.
  induction l as [|m l IH]; [reflexivity|].
  unfold system_messages, conversational in *. simpl.
  destruct (is_system m) eqn:E; simpl; [rewrite E; simpl|]; exact IH.
Qed.

Lemma system_messages_idem (l : list Message) :
  system_messages (system_messages l) = system_messages l.
Proof.
  induction l as [|m l IH]; [reflexivity|].
  unfold system_messages in *. simpl.
  destruct (is_system m) eqn:E; simpl; [rewrite E; f_equal|]; exact IH.
Qed.

Lemma forallb_skipn {A : Type} (f : A -> bool) (n : nat) (l : list A) :
  forallb f l = true -> forallb f (skipn n l) = true.
Proof.
  revert n; induction l as [|x l IH]; intros [|n] H; try exact H;
    try reflexivity.
  simpl in *. apply andb_true_iff in H as [_ H]. apply IH, H.
Qed.

Lemma system_messages_none (c : list Message) :
  forallb (fun m => negb (is_system m)) c = true -> system_messages c = [].
Proof.
  induction c as [|m c IH]; [reflexivity|]. simpl.
  intros H. apply andb_true_iff in H as [Hm H].
  unfold system_messages in *. simpl.
  destruct (is_system m); [discriminate|]. apply IH, H.
Qed.

Lemma conversational_skipn (n : nat) (l : list Message) :
  conversational (skipn n (conversational l)) = skipn n (conversational l).
Proof.
  apply List.forallb_filter_id, forallb_skipn, List.forallb_filter.
Qed.

Lemma system_skipn (n : nat) (l : list Message) :
  system_messages (skipn n (conversational l)) = [].
Proof.
  apply system_messages_none, forallb_skipn, List.forallb_filter.
Qed.

(** C1: with more than ten conversational turns, and the summarizer
    answering [reply] on the human and assistant turns of the oldest
    five, the node returns the system turns followed by the
    conversational turns after the fifth (six of them when there
    were eleven), with the stripped reply as the summary; with ten
    or fewer it returns its input, state and index, as it is. *)
Theorem manage_memory_node_eviction
    (summary_chain : list Message -> text -> result text)
    (state : GraphState) (vectorstore : list text) :
  (10 < length (conversational (messages state)) ->
   forall reply,
     summary_chain
       (List.filter is_human_or_ai
          (firstn 5 (conversational (messages state))))
       (default (T "No prior summary.") (long_term_summary state))
     = Ok reply ->
     exists state' vectorstore',
       manage_memory_node summary_chain state vectorstore
       = Ok (state', vectorstore')
       /\ messages state'
          = system_messages (messages state)
              ++ skipn 5 (conversational (messages state))
       /\ system_messages (messages state')
          = system_messages (messages state)
       /\ conversational (messages state')
          = skipn 5 (conversational (messages state))
       /\ length (conversational (messages state'))
          = length (conversational (messages state)) - 5
       /\ (length (conversational (messages state)) = 11 ->
           length (conversational (messages state')) = 6)
       /\ long_term_summary state' = Some (Str.strip reply))
  /\ (length (conversational (messages state)) <= 10 ->
      manage_memory_node summary_chain state vectorstore
      = Ok (state, vectorstore)).
Proof.
  split.
  - intros Hlen reply Hreply. unfold manage_memory_node.
    unfold MAX_RECENT_MESSAGES, MESSAGES_TO_SUMMARIZE_PER_BATCH.
    destruct (Nat.ltb_spec 10 (length (conversational (messages state))))
      as [_|Hle]; [|lia].
    rewrite Hreply. eexists _, _. split; [reflexivity|]. cbn [messages long_term_summary].
    assert (Hconv :
      conversational
        (system_messages (messages state)
           ++ skipn 5 (conversational (messages state)))
      = skipn 5 (conversational (messages state))).
    { rewrite conversational_app, conversational_of_system,
        conversational_skipn. reflexivity. }
    split; [reflexivity|]. split.
    { rewrite system_messages_app, system_messages_idem, system_skipn.
      apply app_nil_r. }
    split; [exact Hconv|]. rewrite Hconv, length_skipn.
    split; [reflexivity|]. split; [lia|reflexivity].
  - intros Hle. unfold manage_memory_node, MAX_RECENT_MESSAGES.
    destruct (Nat.ltb_spec 10 (length (conversational (messages state))))
      as [Hlt|_]; [lia|reflexivity].
Qed.

Lemma manage_memory_node_eviction_witness :
  (exists state' vectorstore',
     manage_memory_node Examples.fixed_summary Examples.eleven_turns
       vectorstore_init = Ok (state', vectorstore')
     /\ length (conversational (messages state')) = 6
     /\ long_term_summary state' = Some (T "The user said hello."))
  /\ manage_memory_node Examples.fixed_summary Examples.three_turns
       vectorstore_init = Ok (Examples.three_turns, vectorstore_init).
Proof.
  split.
  - destruct (proj1 (manage_memory_node_eviction Examples.fixed_summary
                       Examples.eleven_turns vectorstore_init))
      with (reply := T "  The user said hello. ")
      as (state' & vs' & H & _ & _ & _ & _ & H6 & Hs).
    + vm_compute. lia.
    + reflexivity.
    + exists state', vs'. split; [exact H|]. split; [|exact Hs].
      apply H6. reflexivity.
  - apply (proj2 (manage_memory_node_eviction Examples.fixed_summary
                    Examples.three_turns vectorstore_init)).
    vm_compute. lia.
Defined.

(** C10: when eviction fires and the summarizer's reply strips to
    the empty text, the batch is still evicted, nothing is added to
    the index, and the summary of the returned state is the empty
    text, whatever the summary was before. *)
Theorem manage_memory_node_blank_summary
    (summary_chain : list Message -> text -> result text)
    (state : GraphState) (vectorstore : list text) (reply : text)
    (Hlen : 10 < length (conversational (messages state)))
    (Hreply :
       summary_chain
         (List.filter is_human_or_ai
            (firstn 5 (conversational (messages state))))
         (default (T "No prior summary.") (long_term_summary state))
       = Ok reply)
    (Hblank : Str.strip reply = []) :
  manage_memory_node summary_chain state vectorstore
  = Ok ({| messages :=
             system_messages (messages state)
               ++ skipn 5 (conversational (messages state));
           long_term_summary := Some [];
           retrieved_context := retrieved_context state;
           intent := intent state;
           next_action_type := next_action_type state;
           slots := slots state |},
        vectorstore).
Proof.
  unfold manage_memory_node, MAX_RECENT_MESSAGES,
    MESSAGES_TO_SUMMARIZE_PER_BATCH.
  destruct (Nat.ltb_spec 10 (length (conversational (messages state))))
    as [_|Hle]; [|lia].
  rewrite Hreply, Hblank. reflexivity.
Qed.

Lemma manage_memory_node_blank_summary_witness :
  exists state',
    manage_memory_node Examples.blank_summary Examples.eleven_turns
      vectorstore_init = Ok (state', vectorstore_init)
    /\ long_term_summary state' = Some []
    /\ length (messages state') = 7.
Proof.
  eexists. split.
  - apply (manage_memory_node_blank_summary Examples.blank_summary
             Examples.eleven_turns vectorstore_init (T "   ")).
    + vm_compute. lia.
    + reflexivity.
    + reflexivity.
  - split; reflexivity.
Defined.

Lemma find_none {A : Type} (f : A -> bool) (l : list A) :
  forallb (fun x => negb (f x)) l = true -> List.find f l = None.
Proof.
  induction l as [|x l IH]; [reflexivity|]. simpl. intros H.
  apply andb_true_iff in H as [Hx H]. destruct (f x); [discriminate|].
  apply IH, H.
Qed.

Lemma find_first {A : Type} (f : A -> bool) (l1 l2 : list A) (x : A) :
  forallb (fun y => negb (f y)) l1 = true -> f x = true ->
  List.find f (l1 ++ x :: l2) = Some x.
Proof.
  induction l1 as [|y l1 IH]; simpl; intros H Hx.
  - rewrite Hx. reflexivity.
  - apply andb_true_iff in H as [Hy H]. destruct (f y); [discriminate|].
    apply IH; assumption.
Qed.

Lemma forallb_rev {A : Type} (f : A -> bool) (l : list A) :
  forallb f (rev l) = forallb f l.
Proof.
  induction l as [|x l IH]; [reflexivity|]. simpl.
  rewrite List.forallb_app, IH. simpl. rewrite andb_true_r. apply andb_comm.
Qed.

Lemma last_human_input_none (msgs : list Message) :
  forallb (fun m => negb (is_human m)) msgs = true ->
  last_human_input msgs = [].
Proof.
  intros H. unfold last_human_input.
  rewrite find_none; [reflexivity|]. rewrite forallb_rev. exact H.
Qed.

Lemma last_human_input_latest (pre post : list Message) (c : text) :
  forallb (fun m => negb (is_human m)) post = true ->
  last_human_input (pre ++ HumanMessage c :: post) = c.
Proof.
  intros H. unfold last_human_input.
  rewrite rev_app_distr. simpl. rewrite <- app_assoc. simpl.
  rewrite find_first; [reflexivity| |reflexivity].
  rewrite forallb_rev. exact H.
Qed.

(** C8, as the code has it: the node returns no snippet when there
    is no user turn, when the latest user turn has an empty text, or
    when the index holds at most its first entry; otherwise the
    snippets are the result of the search for the three nearest
    texts to the latest user turn's text.  Nothing else of the state
    changes, and the index is only read. *)
Theorem retrieve_long_term_memory_node_snippets
    (similarity_search : list text -> text -> nat -> list text)
    (state : GraphState) (vectorstore : list text) :
  let state' :=
    retrieve_long_term_memory_node similarity_search state vectorstore in
  (forallb (fun m => negb (is_human m)) (messages state) = true ->
   retrieved_context state' = Some [])
  /\ (length vectorstore <= 1 -> retrieved_context state' = Some [])
  /\ (forall pre c post,
        messages state = pre ++ HumanMessage c :: post ->
        forallb (fun m => negb (is_human m)) post = true ->
        (c = [] -> retrieved_context state' = Some [])
        /\ (c <> [] -> 1 < length vectorstore ->
            retrieved_context state'
            = Some (similarity_search vectorstore c 3)))
  /\ messages state' = messages state
  /\ long_term_summary state' = long_term_summary state
  /\ intent state' = intent state
  /\ next_action_type state' = next_action_type state
  /\ slots state' = slots state.
Proof.
  cbv zeta. unfold retrieve_long_term_memory_node.
  cbn [retrieved_context messages long_term_summary intent
         next_action_type slots].
  split; [|split; [|split]].
  - intros H. rewrite (last_human_input_none _ H). reflexivity.
  - intros H. destruct (Nat.ltb_spec 1 (length vectorstore)); [lia|].
    rewrite andb_false_r. reflexivity.
  - intros pre c post Hm Hpost. rewrite Hm.
    rewrite (last_human_input_latest pre post c Hpost). split.
    + intros ->. reflexivity.
    + intros Hc Hlen. destruct c as [|a c]; [congruence|].
      destruct (Nat.ltb_spec 1 (length vectorstore)); [|lia].
      reflexivity.
  - repeat split.
Qed.

Lemma retrieve_long_term_memory_node_snippets_witness :
  retrieved_context
    (retrieve_long_term_memory_node Examples.first_k Examples.asked_state
       Examples.small_index)
  = Some [ []; T "The user said hello." ].
Proof.
  destruct (retrieve_long_term_memory_node_snippets Examples.first_k
              Examples.asked_state Examples.small_index)
    as (_ & _ & H & _).
  destruct (H [] (T "what did I say?") [] eq_refl eq_refl) as [_ H'].
  apply H'; [discriminate | vm_compute; lia].
Defined.

(** C8 as the specification words it fails: here a user turn exists
    and the index holds a real entry, the search for that turn's
    text has results, and the node returns no snippet. *)
Lemma retrieve_skips_empty_user_text :
  In (HumanMessage []) (messages Examples.empty_user_turn)
  /\ 1 < length Examples.small_index
  /\ Examples.first_k Examples.small_index
       (last_human_input (messages Examples.empty_user_turn)) 3 <> []
  /\ retrieved_context
       (retrieve_long_term_memory_node Examples.first_k
          Examples.empty_user_turn Examples.small_index)
     = Some [].
Proof.
  split; [left; reflexivity|]. split; [vm_compute; lia|].
  split; [discriminate|reflexivity].
Qed.

End MemoryFacts.

(** ** The tool executor *)

Module GraphFacts.
Import Graph.

Lemma tool_executor_node_steps (tools : list Tool) (state : GraphState)
    (content : text) (calls : list ToolCall) :
  last (messages state) = Some (AIMessage content calls) ->
  calls <> [] ->
  tool_executor_node tools state
  = Ok {| invocations :=
            omap fst
              (map (run_tool_call tools
                      (default [] (long_term_summary state))
                      (default [] (retrieved_context state))) calls);
          new_messages :=
            map snd
              (map (run_tool_call tools
                      (default [] (long_term_summary state))
                      (default [] (retrieved_context state))) calls) |}.
Proof.
  intros Hlast Hcalls. unfold tool_executor_node. rewrite Hlast.
  destruct calls; [congruence|reflexivity].
Qed.

(** C4: for a planner turn with tool calls the executor returns
    normally, with one tool-result turn per call, in order, each
    carrying the id of its call: the tool's result when the tool
    returns, the error description when it raises, and the
    not-found text when no registered tool has that name. *)
Theorem tool_executor_node_one_result_per_call
    (tools : list Tool) (state : GraphState)
    (content : text) (calls : list ToolCall)
    (Hlast : last (messages state) = Some (AIMessage content calls))
    (Hcalls : calls <> []) :
  exists done,
    tool_executor_node tools state = Ok done
    /\ length (new_messages done) = length calls
    /\ forall i tc,
         calls !! i = Some tc ->
         exists c,
           new_messages done !! i = Some (ToolMessage c (tc_id tc))
           /\ match find_tool tools (tc_name tc) with
              | None =>
                  c = T "Tool '" ++ T (tc_name tc)
                        ++ T "' was requested but not found or not callable."
              | Some t =>
                  match
                    tool_invoke t
                      (actual_tool_args t (tc_args tc)
                         (default [] (long_term_summary state))
                         (default [] (retrieved_context state)))
                  with
                  | Ok r => c = r
                  | Raise e =>
                      c = T "Error executing tool '" ++ T (tc_name tc)
                            ++ T "': " ++ e
                  end
              end.
Proof.
  eexists. split; [apply (tool_executor_node_steps _ _ _ _ Hlast Hcalls)|].
  cbn [new_messages]. split; [rewrite !length_map; reflexivity|].
  intros i tc Hi. rewrite !list_lookup_fmap, Hi. cbn [fmap option_fmap option_map].
  unfold run_tool_call. destruct (find_tool tools (tc_name tc)) as [t|].
  - cbn [snd]. destruct (tool_invoke t _); eexists; split; reflexivity.
  - eexists; split; reflexivity.
Qed.

Lemma tool_executor_node_one_result_per_call_witness :
  exists done,
    tool_executor_node [Examples.adder; Examples.failing]
      Examples.mixed_calls = Ok done
    /\ new_messages done
       = [ ToolMessage (T "4") "call_1";
           ToolMessage
             (T "Error executing tool 'get_outlet_details': connection refused")
             "call_2";
           ToolMessage
             (T "Tool 'weather' was requested but not found or not callable.")
             "call_3" ].
Proof.
  destruct (tool_executor_node_one_result_per_call
              [Examples.adder; Examples.failing] Examples.mixed_calls
              [] [ Examples.call "calculator" "call_1";
                   Examples.call "get_outlet_details" "call_2";
                   Examples.call "weather" "call_3" ] eq_refl)
    as (done & H & Hlen & Hmsg).
  - discriminate.
  - exists done. split; [exact H|].
    destruct (Hmsg 0 _ eq_refl) as (c0 & H0 & E0).
    destruct (Hmsg 1 _ eq_refl) as (c1 & H1 & E1).
    destruct (Hmsg 2 _ eq_refl) as (c2 & H2 & E2).
    cbn in E0, E1, E2. subst c0 c1 c2.
    destruct (new_messages done) as [|m0 [|m1 [|m2 [|m3 l]]]];
      try discriminate.
    cbn in H0, H1, H2.
    injection H0 as ->. injection H1 as ->. injection H2 as ->.
    reflexivity.
Defined.

(** C3, as the code has it: the executor loops over every tool call
    of the planner turn.  Each call whose name is registered is
    dispatched, in order, with the memory fields the tool declares
    merged into its arguments; there are as many tool-result turns
    as calls. *)
Theorem tool_executor_node_dispatches_all
    (tools : list Tool) (state : GraphState)
    (content : text) (calls : list ToolCall)
    (Hlast : last (messages state) = Some (AIMessage content calls))
    (Hcalls : calls <> []) :
  exists done,
    tool_executor_node tools state = Ok done
    /\ length (new_messages done) = length calls
    /\ invocations done
       = omap (fun tc =>
                 match find_tool tools (tc_name tc) with
                 | Some t =>
                     Some (tool_name t,
                           actual_tool_args t (tc_args tc)
                             (default [] (long_term_summary state))
                             (default [] (retrieved_context state)))
                 | None => None
                 end) calls
    /\ (Forall (fun tc => find_tool tools (tc_name tc) <> None) calls ->
        length (invocations done) = length calls).
Proof.
  eexists. split; [apply (tool_executor_node_steps _ _ _ _ Hlast Hcalls)|].
  cbn [new_messages invocations].
  split; [rewrite !length_map; reflexivity|].
  clear Hlast Hcalls.
  assert (E : forall l,
    omap fst
      (map (run_tool_call tools (default [] (long_term_summary state))
              (default [] (retrieved_context state))) l)
    = omap (fun tc =>
              match find_tool tools (tc_name tc) with
              | Some t =>
                  Some (tool_name t,
                        actual_tool_args t (tc_args tc)
                          (default [] (long_term_summary state))
                          (default [] (retrieved_context state)))
              | None => None
              end) l).
  { induction l as [|tc l IH]; [reflexivity|]. cbn [map omap list_omap].
    rewrite IH. unfold run_tool_call at 1.
    destruct (find_tool tools (tc_name tc)); reflexivity. }
  split; [apply E|]. rewrite E. clear E.
  induction 1 as [|tc l Htc _ IH]; [reflexivity|]. cbn [omap list_omap].
  destruct (find_tool tools (tc_name tc)); [|congruence].
  cbn [length]. rewrite IH. reflexivity.
Qed.

Lemma tool_executor_node_dispatches_all_witness :
  exists done,
    tool_executor_node [Examples.adder] Examples.two_calls = Ok done
    /\ length (invocations done) = 2.
Proof.
  destruct (tool_executor_node_dispatches_all [Examples.adder]
              Examples.two_calls []
              [ Examples.call "calculator" "call_1";
                Examples.call "calculator" "call_2" ] eq_refl)
    as (done & H & _ & _ & Hall).
  - discriminate.
  - exists done. split; [exact H|]. apply Hall.
    repeat constructor; discriminate.
Defined.

(** C3 as the specification words it fails: of the two calls of this
    planner turn, the second is dispatched as well. *)
Lemma tool_executor_node_runs_second_call :
  exists done,
    tool_executor_node [Examples.adder] Examples.two_calls = Ok done
    /\ map fst (invocations done)
       = [ "calculator"%string; "calculator"%string ]
    /\ new_messages done
       = [ ToolMessage (T "4") "call_1"; ToolMessage (T "4") "call_2" ].
Proof. eexists. repeat split. Qed.

End GraphFacts.

(** ** The calculator node *)

Module CalculatorFacts.
Import Graph Calculator.

Lemma star_greedy_eol {R : Type} (p : ascii -> bool) (k : cont (R := R))
    (prev : option ascii) (s : text) (c : caps) :
  p nl = true ->
  star_greedy p (rmatch Eol k) prev s c <> None -> forallb p s = true.
Proof.
  intros Hnl. revert prev. induction s as [|a s IH]; intros prev H;
    [reflexivity|].
  cbn [star_greedy] in H. cbn [forallb].
  assert (Heol : rmatch Eol k prev (a :: s) c <> None ->
                 a = nl /\ s = []).
  { cbn [rmatch]. destruct s; [|congruence].
    destruct (Ascii.eqb_spec a nl); [auto|congruence]. }
  destruct (p a) eqn:Ea.
  - cbn [andb].
    destruct (star_greedy p (rmatch Eol k) (Some a) s c) eqn:E.
    + apply (IH (Some a)). rewrite E. discriminate.
    + cbn [orelse] in H. destruct (Heol H) as [_ ->]. reflexivity.
  - destruct (Heol H) as [-> _]. congruence.
Qed.

Lemma star_greedy_all {R : Type} (p : ascii -> bool) (k : cont (R := R))
    (prev : option ascii) (s : text) (c : caps) :
  (forall q, k q [] c <> None) ->
  forallb p s = true ->
  star_greedy p (rmatch Eol k) prev s c <> None.
Proof.
  intros Hk. revert prev. induction s as [|a s IH]; intros prev H.
  - cbn. apply Hk.
  - cbn [forallb] in H. apply andb_true_iff in H as [Ha H].
    cbn [star_greedy]. rewrite Ha.
    specialize (IH (Some a) H).
    destruct (star_greedy p (rmatch Eol k) (Some a) s c);
      [discriminate|congruence].
Qed.

(** The pattern accepts exactly the non-empty texts made of the
    characters of its class. *)
Lemma expression_pattern_spec (expr : text) :
  re_match expression_pattern expr <> None
  <-> expr <> [] /\ forallb expression_char expr = true.
Proof.
  unfold re_match, match_here, expression_pattern, Plus.
  cbn [Sql.cats rmatch]. destruct expr as [|a s].
  - split; [congruence|intros [H _]; congruence].
  - cbn [forallb]. split.
    + intros H. split; [discriminate|].
      destruct (expression_char a); [|congruence]. cbn [andb].
      revert H. apply star_greedy_eol. reflexivity.
    + intros [_ H]. apply andb_true_iff in H as [-> H].
      apply star_greedy_all; [discriminate|exact H].
Qed.

Lemma expression_char_no_letter (a : ascii) :
  expression_char a = true ->
  is_alpha a = false /\ a <> "_"%char /\ Chars.upper a <> "I"%char.
Proof.
  destruct a as [[] [] [] [] [] [] [] []]; vm_compute;
    intros H; try discriminate H; repeat split; discriminate.
Qed.

Lemma upper_has_no_I (expr : text) :
  forallb expression_char expr = true ->
  Str.contains (T "INVALID") (Str.upper expr) = false.
Proof.
  intros H. destruct (Str.contains _ _) eqn:E; [|reflexivity]. exfalso.
  apply StrFacts.contains_spec in E as (pre & post & E).
  assert (Hin : In "I"%char (Str.upper expr)).
  { rewrite E. apply in_or_app. right. left. reflexivity. }
  unfold Str.upper in Hin. apply in_map_iff in Hin as (a & Ha & Hin).
  rewrite List.forallb_forall in H.
  destruct (expression_char_no_letter a (H a Hin)) as (_ & _ & Hn).
  contradiction.
Qed.

Lemma rejected_spec (expr : text) :
  rejected expr = false
  <-> expr <> [] /\ forallb expression_char expr = true.
Proof.
  unfold rejected. rewrite orb_false_iff. split.
  - intros [_ H]. apply expression_pattern_spec.
    destruct (re_match expression_pattern expr); [discriminate|congruence].
  - intros H. split; [apply upper_has_no_I, H|].
    apply expression_pattern_spec in H.
    destruct (re_match expression_pattern expr); [reflexivity|congruence].
Qed.

(** C2, as the code has it, for a reply of ASCII characters: the
    calculator node accepts exactly the non-empty expressions made of
    digits, points, parentheses, the operators + - * / and white
    space; for an empty expression or one with any other character
    its answer is the invalid-expression error; an accepted
    expression holds no letter and no underscore, and is evaluated in
    the namespace without names. *)
Theorem calculator_node_validation
    (py_eval : namespace -> text -> result text) (reply : text)
    (Hascii : Str.isascii reply = true) :
  (parsed_expression reply = []
   \/ existsb (fun a => negb (expression_char a)) (parsed_expression reply)
      = true ->
   answer_for py_eval reply = invalid_answer)
  /\ (parsed_expression reply <> [] ->
      forallb expression_char (parsed_expression reply) = true ->
      answer_for py_eval reply
      = match py_eval NoNames (parsed_expression reply) with
        | Ok v => T "The answer is " ++ v ++ T "."
        | Raise e => calculator_error e
        end
      /\ Forall (fun a => is_alpha a = false /\ a <> "_"%char)
           (parsed_expression reply)).
Proof.
  unfold answer_for. split.
  - intros H. destruct (rejected (parsed_expression reply)) eqn:E;
      [reflexivity|]. exfalso.
    apply rejected_spec in E as [Hne Hall]. destruct H as [H|H];
      [contradiction|].
    apply List.existsb_exists in H as (a & Hin & Ha).
    rewrite List.forallb_forall in Hall. rewrite (Hall a Hin) in Ha.
    discriminate.
  - intros Hne Hall. split.
    + rewrite (proj2 (rejected_spec _) (conj Hne Hall)). reflexivity.
    + apply List.Forall_forall. intros a Hin.
      rewrite List.forallb_forall in Hall.
      destruct (expression_char_no_letter a (Hall a Hin)) as (H1 & H2 & _).
      split; assumption.
Qed.

Lemma calculator_node_validation_witness :
  answer_for Examples.eval_sum (T " '3 + 5' ") = T "The answer is 8."
  /\ answer_for Examples.eval_sum (T "len('abc')") = invalid_answer.
Proof.
  split.
  - apply (proj2 (calculator_node_validation Examples.eval_sum
                    (T " '3 + 5' ") eq_refl)); [discriminate|reflexivity].
  - apply (proj1 (calculator_node_validation Examples.eval_sum
                    (T "len('abc')") eq_refl)). right. reflexivity.
Defined.

(** C2 as the specification words it fails: this expression holds a
    character that is neither a digit, a point, a parenthesis nor an
    operator, and the node accepts and evaluates it. *)
Lemma calculator_node_accepts_spaces :
  existsb (fun a => negb (plain_arithmetic_char a)) (T "3 + 5") = true
  /\ rejected (parsed_expression (T "3 + 5")) = false
  /\ answer_for Examples.eval_sum (T "3 + 5") = T "The answer is 8.".
Proof. repeat split. Qed.

End CalculatorFacts.

(** ** The SQL sanitizer on the statement of the round trip *)

Module RoundTrip.
Import Sql Examples.

(** C6, as the code has it: the fenced statement is sanitized to the
    statement with a line break before FROM and WHERE, without fence
    or backtick; the fuzzy expansion leaves it as it is, because its
    pattern asks for the column between double quotes; with the column
    so quoted, the LIKE clause becomes the disjunction of the pattern
    with and without the space. *)
Theorem sanitize_then_expand_ss2 :
  clean_sql_query (fenced ss2_statement)
  = T "SELECT * " ++ [nl] ++ T "FROM outlets " ++ [nl]
      ++ T "WHERE address LIKE '%SS 2%';"
  /\ existsb (is_chr bt) (clean_sql_query (fenced ss2_statement)) = false
  /\ expand_fuzzy_sql (clean_sql_query (fenced ss2_statement))
     = clean_sql_query (fenced ss2_statement)
  /\ existsb (is_chr bt) (clean_sql_query (fenced ss2_statement_quoted))
     = false
  /\ expand_fuzzy_sql (clean_sql_query (fenced ss2_statement_quoted))
     = T "SELECT * " ++ [nl] ++ T "FROM outlets " ++ [nl]
         ++ T "WHERE (" ++ quoted (T "address") ++ T " LIKE '%SS 2%' OR REPLACE("
         ++ quoted (T "address") ++ T ", ' ', '') LIKE '%SS2%');".
Proof. repeat split; vm_compute; reflexivity. Qed.

(** C6 as the specification words it fails: after the expansion of
    the sanitized statement there is no second branch, and nothing
    matches the keyword without its space. *)
Lemma expand_leaves_unquoted_column :
  Str.contains (T " OR ")
    (expand_fuzzy_sql (clean_sql_query (fenced ss2_statement))) = false
  /\ Str.contains (T "'%SS2%'")
       (expand_fuzzy_sql (clean_sql_query (fenced ss2_statement))) = false.
Proof. split; vm_compute; reflexivity. Qed.

End RoundTrip.

(** ** The matcher *)

Module ReFacts.
Import Shape.

Lemma prev_after_app (p : option ascii) (u v : text) :
  prev_after p (u ++ v) = prev_after (prev_after p u) v.
Proof. revert p; induction u as [|a u IH]; intros p; [reflexivity|apply IH]. Qed.

Lemma firstn_consumed (u s : text) :
  firstn (length (u ++ s) - length s) (u ++ s) = u.
Proof.
  rewrite length_app, Nat.add_sub. induction u as [|a u IH]; simpl.
  - reflexivity.
  - f_equal. exact IH.
Qed.

Lemma firstn_consumed_eq (u s t : text) :
  t = u ++ s -> firstn (length t - length s) t = u.
Proof. intros ->. apply firstn_consumed. Qed.

Lemma in_all_ascii (a : ascii) : In a all_ascii.
Proof.
  unfold all_ascii. apply in_map_iff. exists (nat_of_ascii a). split.
  - apply ascii_nat_embedding.
  - apply in_seq. pose proof (nat_ascii_bounded a). lia.
Qed.

Lemma class_within_spec (f P : ascii -> bool) (a : ascii) :
  class_within f P = true -> f a = true -> P a = true.
Proof.
  unfold class_within. rewrite List.forallb_forall. intros H Ha.
  specialize (H a (in_all_ascii a)). rewrite Ha in H. exact H.
Qed.

Section Inversion.
Context {R : Type}.
Implicit Types (k : cont (R := R)) (p : option ascii) (s u : text)
  (c : caps) (x : R).

Lemma star_greedy_inv (f : ascii -> bool) k p s c x :
  star_greedy f k p s c = Some x ->
  exists u s', s = u ++ s' /\ forallb f u = true
               /\ k (prev_after p u) s' c = Some x.
Proof.
  revert p. induction s as [|a s IH]; intros p H; cbn [star_greedy] in H.
  - exists [], []. auto.
  - destruct (f a) eqn:Ea; [|exists [], (a :: s); auto].
    destruct (star_greedy f k (Some a) s c) eqn:E.
    + cbn [orelse] in H. rewrite <- H in *.
      destruct (IH _ E) as (u & s' & -> & Hu & Hk).
      exists (a :: u), s'. cbn. rewrite Ea. auto.
    + exists [], (a :: s). auto.
Qed.

Lemma star_lazy_inv (f : ascii -> bool) k p s c x :
  star_lazy f k p s c = Some x ->
  exists u s', s = u ++ s' /\ forallb f u = true
               /\ k (prev_after p u) s' c = Some x.
Proof.
  revert p. induction s as [|a s IH]; intros p H; cbn [star_lazy] in H.
  - destruct (k p [] c) eqn:E; [|discriminate].
    exists [], []. cbn in *. rewrite E. auto.
  - destruct (k p (a :: s) c) eqn:E.
    + exists [], (a :: s). cbn in *. rewrite E. auto.
    + cbn [orelse] in H. destruct (f a) eqn:Ea; [|discriminate].
      destruct (IH _ H) as (u & s' & -> & Hu & Hk).
      exists (a :: u), s'. cbn. rewrite Ea. auto.
Qed.

(** What any successful match does: it reads a prefix of the input,
    adds captures for groups of the pattern, and its continuation
    succeeds on the rest. *)
Lemma rmatch_inv (r : regex) :
  forall k p s c x,
    rmatch r k p s c = Some x ->
    exists u s' new,
      s = u ++ s'
      /\ Forall (fun e => In (fst e) (groups_of r)) new
      /\ k (prev_after p u) s' (new ++ c) = Some x.
Proof.
  induction r as [|f|r1 IH1 r2 IH2|r1 IH1 r2 IH2|r1 IH1|f|f|n r1 IH1| | |];
    intros k p s c x H; cbn [rmatch] in H.
  - exists [], s, []. auto.
  - destruct s as [|a s]; [discriminate|].
    destruct (f a); [|discriminate]. exists [a], s, []. auto.
  - destruct (IH1 _ _ _ _ _ H) as (u1 & s1 & n1 & -> & F1 & H1).
    destruct (IH2 _ _ _ _ _ H1) as (u2 & s2 & n2 & -> & F2 & H2).
    exists (u1 ++ u2), s2, (n2 ++ n1).
    rewrite prev_after_app, <- !app_assoc. split; [reflexivity|].
    split; [|exact H2]. cbn [groups_of]. apply List.Forall_app. split.
    + eapply List.Forall_impl; [|exact F2]. intros e He.
      apply in_or_app. auto.
    + eapply List.Forall_impl; [|exact F1]. intros e He.
      apply in_or_app. auto.
  - cbn [groups_of]. destruct (rmatch r1 k p s c) eqn:E.
    + cbn [orelse] in H. rewrite H in E.
      destruct (IH1 _ _ _ _ _ E) as (u & s' & n' & -> & F & Hk).
      exists u, s', n'. repeat split; [|exact Hk].
      eapply List.Forall_impl; [|exact F]. intros e He.
      apply in_or_app. auto.
    + cbn [orelse] in H.
      destruct (IH2 _ _ _ _ _ H) as (u & s' & n' & -> & F & Hk).
      exists u, s', n'. repeat split; [|exact Hk].
      eapply List.Forall_impl; [|exact F]. intros e He.
      apply in_or_app. auto.
  - cbn [groups_of]. destruct (rmatch r1 k p s c) eqn:E.
    + cbn [orelse] in H. rewrite H in E. exact (IH1 _ _ _ _ _ E).
    + exists [], s, []. auto.
  - destruct (star_greedy_inv _ _ _ _ _ _ H) as (u & s' & -> & _ & Hk).
    exists u, s', []. auto.
  - destruct (star_lazy_inv _ _ _ _ _ _ H) as (u & s' & -> & _ & Hk).
    exists u, s', []. auto.
  - destruct (IH1 _ _ _ _ _ H) as (u & s' & n' & -> & F & Hk).
    eexists u, s', (_ :: n'). split; [reflexivity|]. split; [|exact Hk].
    cbn [groups_of]. constructor; [left; reflexivity|].
    eapply List.Forall_impl; [|exact F]. intros e He. right. exact He.
  - destruct p; [discriminate|]. exists [], s, []. auto.
  - exists [], s, []. repeat split; [constructor|].
    destruct s as [|a [|b s]]; [exact H| |discriminate].
    destruct (Ascii.eqb a nl); [exact H|discriminate].
  - exists [], s, []. repeat split; [constructor|].
    destruct (xorb _ _); [exact H|discriminate].
Qed.

Lemma reads_nothing_inv (r : regex) :
  reads_nothing r = true ->
  forall k p s c x,
    rmatch r k p s c = Some x -> exists c', k p s c' = Some x.
Proof.
  induction r as [|f|r1 IH1 r2 IH2|r1 IH1 r2 IH2|r1 IH1|f|f|n r1 IH1| | |];
    cbn [reads_nothing]; intros Hr k p s c x H; try discriminate;
    cbn [rmatch] in H.
  - eauto.
  - apply andb_true_iff in Hr as [Hr1 Hr2].
    destruct (IH1 Hr1 _ _ _ _ _ H) as [c1 H1]. exact (IH2 Hr2 _ _ _ _ _ H1).
  - destruct (IH1 Hr _ _ _ _ _ H) as [c1 H1]. eauto.
  - destruct p; [discriminate|]. eauto.
  - destruct s as [|a [|b s]]; [eauto| |discriminate].
    destruct (Ascii.eqb a nl); [eauto|discriminate].
  - destruct (xorb _ _); [eauto|discriminate].
Qed.

Lemma begins_with_inv (r : regex) (P : ascii -> bool) :
  begins_with r P = true ->
  forall k p s c x,
    rmatch r k p s c = Some x ->
    exists a u s' c',
      s = a :: u ++ s' /\ P a = true
      /\ k (prev_after p (a :: u)) s' c' = Some x.
Proof.
  induction r as [|f|r1 IH1 r2 IH2|r1 IH1 r2 IH2|r1 IH1|f|f|n r1 IH1| | |];
    cbn [begins_with]; intros Hr k p s c x H; try discriminate;
    cbn [rmatch] in H.
  - destruct s as [|a s]; [discriminate|]. destruct (f a) eqn:Ea;
      [|discriminate]. exists a, [], s, c. split; [reflexivity|].
    split; [exact (class_within_spec _ _ _ Hr Ea)|exact H].
  - apply orb_true_iff in Hr as [Hr|Hr].
    + destruct (IH1 Hr _ _ _ _ _ H) as (a & u & s1 & c1 & -> & Ha & H1).
      destruct (rmatch_inv _ _ _ _ _ _ H1) as (u2 & s2 & n2 & -> & _ & H2).
      exists a, (u ++ u2), s2, (n2 ++ c1).
      rewrite <- app_assoc. split; [reflexivity|]. split; [exact Ha|].
      rewrite app_comm_cons, prev_after_app. exact H2.
    + apply andb_true_iff in Hr as [Hn Hr].
      destruct (reads_nothing_inv _ Hn _ _ _ _ _ H) as [c' H'].
      exact (IH2 Hr _ _ _ _ _ H').
  - apply andb_true_iff in Hr as [Hr1 Hr2].
    destruct (rmatch r1 k p s c) eqn:E.
    + cbn [orelse] in H. rewrite H in E. exact (IH1 Hr1 _ _ _ _ _ E).
    + exact (IH2 Hr2 _ _ _ _ _ H).
  - destruct (IH1 Hr _ _ _ _ _ H) as (a & u & s' & c' & -> & Ha & Hk).
    eexists a, u, s', _. split; [reflexivity|]. split; [exact Ha|exact Hk].
Qed.

(** Literals. *)
Lemma lit_inv (w : text) k p s c x :
  rmatch (lit w) k p s c = Some x ->
  exists s', s = w ++ s' /\ k (prev_after p w) s' c = Some x.
Proof.
  revert p s. induction w as [|a w IH]; intros p s H; cbn in H.
  - exists s. auto.
  - destruct s as [|b s]; [discriminate|]. unfold is_chr in H.
    destruct (Ascii.eqb_spec b a) as [->|]; [|discriminate].
    destruct (IH _ _ H) as (s' & -> & Hk). exists s'. auto.
Qed.

Lemma lit_ci_inv (w : text) k p s c x :
  rmatch (lit_ci w) k p s c = Some x ->
  exists h s', s = h ++ s' /\ map lower h = map lower w
               /\ k (prev_after p h) s' c = Some x.
Proof.
  revert p s. induction w as [|a w IH]; intros p s H; cbn in H.
  - exists [], s. auto.
  - destruct s as [|b s]; [discriminate|]. unfold is_ci in H.
    destruct (Ascii.eqb_spec (lower b) (lower a)) as [E|]; [|discriminate].
    destruct (IH _ _ H) as (h & s' & -> & Hh & Hk).
    exists (b :: h), s'. cbn. rewrite E, Hh. auto.
Qed.

Lemma lit_ci_ok (w h : text) k p s c :
  map lower h = map lower w ->
  rmatch (lit_ci w) k p (h ++ s) c = k (prev_after p h) s c.
Proof.
  revert p h. induction w as [|a w IH]; intros p [|b h] E; try discriminate;
    cbn; [reflexivity|].
  cbn in E. injection E as Eb E. unfold is_ci. rewrite Eb, Ascii.eqb_refl.
  apply IH, E.
Qed.

End Inversion.

(** One attempt at a position. *)
Lemma match_here_inv (r : regex) (p : option ascii) (s : text) (m : found) :
  match_here r p s = Some m ->
  exists u s' new,
    s = u ++ s'
    /\ Forall (fun e => In (fst e) (groups_of r)) new
    /\ m = Found p u (prev_after p u) s' new.
Proof.
  unfold match_here. intros H.
  destruct (rmatch_inv _ _ _ _ _ _ H) as (u & s' & new & -> & F & Hk).
  exists u, s', new. cbn beta in Hk. rewrite firstn_consumed, app_nil_r in Hk.
  injection Hk as <-. auto.
Qed.

Lemma match_here_group (n : nat) (r : regex) (p : option ascii) (s : text)
    (m : found) :
  match_here (Group n r) p s = Some m -> group n (m_caps m) = Some (m_text m).
Proof.
  unfold match_here. cbn [rmatch]. intros H.
  destruct (rmatch_inv _ _ _ _ _ _ H) as (u & s' & new & -> & F & Hk).
  cbn beta in Hk. injection Hk as <-. cbn. rewrite Nat.eqb_refl. reflexivity.
Qed.

Lemma match_here_begins (r : regex) (P : ascii -> bool) (p : option ascii)
    (s : text) (m : found) :
  begins_with r P = true -> match_here r p s = Some m ->
  exists a u, m_text m = a :: u /\ P a = true.
Proof.
  intros Hr H. unfold match_here in H.
  destruct (begins_with_inv _ _ Hr _ _ _ _ _ H) as (a & u & s' & c' & -> & Ha & Hk).
  cbn beta in Hk. injection Hk as <-. cbn [m_text].
  exists a, u. split; [exact (firstn_consumed (a :: u) s')|exact Ha].
Qed.

Lemma match_here_fails_on (r : regex) (P : ascii -> bool) (p : option ascii)
    (s : text) :
  begins_with r P = true ->
  match s with [] => True | a :: _ => P a = false end ->
  match_here r p s = None.
Proof.
  intros Hr Hs. destruct (match_here r p s) as [m|] eqn:E; [|reflexivity].
  exfalso. unfold match_here in E.
  destruct (begins_with_inv _ _ Hr _ _ _ _ _ E) as (a & u & s' & c' & -> & Ha & _).
  congruence.
Qed.

(** The scan. *)
Lemma scan_loop_hit (r : regex) (m : found) :
  forall fuel p s,
    In (Hit m) (scan_loop fuel r p s) ->
    exists pre s', s = pre ++ s'
                   /\ match_here r (prev_after p pre) s' = Some m.
Proof.
  induction fuel as [|fuel IH]; intros p s Hin; cbn [scan_loop] in Hin.
  - apply in_map_iff in Hin as (a & Ha & _). discriminate.
  - assert (Hkeep :
      In (Hit m)
        match s with
        | [] => []
        | a :: s' => Keep a :: scan_loop fuel r (Some a) s'
        end ->
      exists pre s', s = pre ++ s'
                     /\ match_here r (prev_after p pre) s' = Some m).
    { destruct s as [|a s]; [intros []|]. intros [Hh|Hh]; [discriminate|].
      destruct (IH _ _ Hh) as (pre & s' & -> & Hm).
      exists (a :: pre), s'. auto. }
    destruct (match_here r p s) as [m0|] eqn:E; [|exact (Hkeep Hin)].
    destruct (match_here_inv _ _ _ _ E) as (u & s0 & new & -> & _ & ->).
    cbn [m_text m_last m_rest] in Hin.
    destruct u as [|b u].
    + destruct Hin as [Hh|Hh]; [|exact (Hkeep Hh)].
      injection Hh as <-. exists [], s0. auto.
    + destruct Hin as [Hh|Hh].
      * injection Hh as <-. exists [], ((b :: u) ++ s0). auto.
      * destruct (IH _ _ Hh) as (pre & s' & -> & Hm).
        exists ((b :: u) ++ pre), s'. rewrite prev_after_app, <- app_assoc.
        auto.
Qed.

(** The fuel of [scan] is enough: more of it changes nothing. *)
Lemma scan_loop_fuel (r : regex) :
  forall fuel fuel' p s,
    length s < fuel -> length s < fuel' ->
    scan_loop fuel r p s = scan_loop fuel' r p s.
Proof.
  induction fuel as [|fuel IH]; intros [|fuel'] p s H H'; try lia.
  cbn [scan_loop].
  assert (Hkeep :
    match s with
    | [] => []
    | a :: s' => Keep a :: scan_loop fuel r (Some a) s'
    end
    = match s with
      | [] => []
      | a :: s' => Keep a :: scan_loop fuel' r (Some a) s'
      end).
  { destruct s as [|a s]; [reflexivity|]. cbn in H, H'. f_equal.
    apply IH; lia. }
  destruct (match_here r p s) as [m|] eqn:E; [|exact Hkeep].
  destruct (match_here_inv _ _ _ _ E) as (u & s' & new & -> & _ & ->).
  cbn [m_text m_last m_rest]. destruct u as [|b u]; [rewrite Hkeep; reflexivity|].
  f_equal. rewrite length_app in H, H'. cbn in H, H'. apply IH; lia.
Qed.

Lemma scan_loop_no_match (r : regex) :
  forall s fuel p, no_match r p s -> scan_loop fuel r p s = map Keep s.
Proof.
  induction s as [|a s IH]; intros [|fuel] p [H Hs]; try reflexivity;
    cbn [scan_loop]; rewrite H; [reflexivity|].
  cbn [map]. f_equal. apply IH, Hs.
Qed.

Lemma emit_keeps (tmpl : list titem) (s : text) :
  flat_map (emit tmpl) (map Keep s) = s.
Proof. induction s as [|a s IH]; [reflexivity|]. cbn. f_equal. exact IH. Qed.

Lemma re_sub_no_match (r : regex) (tmpl : list titem) (s : text) :
  no_match r None s -> re_sub r tmpl s = s.
Proof.
  intros H. unfold re_sub, scan. rewrite (scan_loop_no_match _ _ _ _ H).
  apply emit_keeps.
Qed.

Lemma no_match_begins (r : regex) (P : ascii -> bool) :
  begins_with r P = true ->
  forall s p, forallb (fun a => negb (P a)) s = true -> no_match r p s.
Proof.
  intros Hr. induction s as [|a s IH]; intros p H; cbn [no_match].
  - split; [|exact I]. apply (match_here_fails_on _ P); [exact Hr|exact I].
  - cbn [forallb] in H. apply andb_true_iff in H as [Ha H]. split.
    + apply (match_here_fails_on _ P); [exact Hr|].
      destruct (P a); [discriminate|reflexivity].
    + apply IH, H.
Qed.

End ReFacts.

(** ** The fuzzy expansion *)

Module FuzzyFacts.
Import Shape ReFacts Sql.

Lemma fuzzy_pattern_parts :
  fuzzy_pattern = Cat fuzzy_where (Cat (Group 2 fuzzy_columns) fuzzy_tail).
Proof. reflexivity. Qed.

Lemma alts_lit_ci_inv {R : Type} (ws : list text) (k : cont (R := R))
    (p : option ascii) (s : text) (c : caps) (x : R) :
  rmatch (alts (map lit_ci ws)) k p s c = Some x ->
  exists w h s',
    In w ws /\ s = h ++ s' /\ map lower h = map lower w
    /\ k (prev_after p h) s' c = Some x.
Proof.
  induction ws as [|w ws IH]; cbn [map alts]; intros H.
  - cbn in H. destruct s; [discriminate|discriminate].
  - assert (Hw : forall y, rmatch (lit_ci w) k p s c = Some y -> y = x ->
                 exists w0 h s',
                   In w0 (w :: ws) /\ s = h ++ s'
                   /\ map lower h = map lower w0
                   /\ k (prev_after p h) s' c = Some x).
    { intros y Hl ->.
      destruct (lit_ci_inv _ _ _ _ _ _ Hl) as (h & s' & E & Hh & Hk).
      exists w, h, s'. split; [left; reflexivity|auto]. }
    destruct ws as [|w' ws]; [exact (Hw _ H eq_refl)|].
    cbn [map] in *. cbn [rmatch] in H.
    destruct (rmatch (lit_ci w) k p s c) eqn:E.
    + cbn [orelse] in H. injection H as H. exact (Hw _ eq_refl H).
    + cbn [orelse] in H. destruct (IH H) as (w0 & h & s' & Hin & Hrest).
      exists w0, h, s'. split; [right; exact Hin|exact Hrest].
Qed.

Lemma group_skip (n : nat) (new c : caps) :
  Forall (fun e => fst e <> n) new -> group n (new ++ c) = group n c.
Proof.
  induction 1 as [|[m w] new Hm _ IH]; [reflexivity|]. cbn in *.
  destruct (Nat.eqb_spec n m); [congruence|exact IH].
Qed.

Lemma allow_list_lower (w : text) :
  In w allow_list -> map lower w = w.
Proof.
  intros [<-|[<-|[<-|[]]]]; reflexivity.
Qed.

(** Whatever the pattern matches, its group 2 is one of the quoted
    columns of the allow-list, in some letter case, and it is a part
    of the text matched. *)
Lemma fuzzy_hit_column (p : option ascii) (s : text) (m : found) :
  match_here fuzzy_pattern p s = Some m ->
  exists column,
    group 2 (m_caps m) = Some column
    /\ In (map lower column) allow_list
    /\ exists pre post, s = pre ++ column ++ post.
Proof.
  rewrite fuzzy_pattern_parts. unfold match_here. cbn [rmatch]. intros H.
  destruct (rmatch_inv _ _ _ _ _ _ H) as (u & s1 & n1 & -> & _ & H1).
  clear H. cbn beta in H1.
  destruct (alts_lit_ci_inv _ _ _ _ _ _ H1) as (w & h & s2 & Hw & -> & Hh & H2).
  clear H1. cbn beta in H2. rewrite firstn_consumed in H2.
  destruct (rmatch_inv _ _ _ _ _ _ H2) as (u3 & s3 & n3 & -> & F3 & H3).
  clear H2. cbn beta in H3. injection H3 as <-. cbn [m_caps].
  exists h. split; [|split].
  - rewrite group_skip; [cbn; reflexivity|].
    eapply List.Forall_impl; [|exact F3]. intros e He.
    cbn in He. destruct He as [<-|[]]. discriminate.
  - rewrite Hh, (allow_list_lower _ Hw). exact Hw.
  - exists u, (u3 ++ s3). reflexivity.
Qed.

Lemma in_hits (m : found) (l : list piece) : In m (hits l) <-> In (Hit m) l.
Proof.
  unfold hits. rewrite in_flat_map. split.
  - intros ([a|m'] & Hin & Hm); [destruct Hm|].
    destruct Hm as [->|[]]. exact Hin.
  - intros H. exists (Hit m). split; [exact H|left; reflexivity].
Qed.

Lemma search_none_no_match (r : regex) :
  forall s p, search_from r p s = None -> no_match r p s.
Proof.
  induction s as [|a s IH]; intros p H; cbn [search_from no_match] in *;
    destruct (match_here r p _); try discriminate; split; auto.
Qed.

Lemma no_match_no_hits (r : regex) (s : text) :
  no_match r None s -> hits (scan r s) = [].
Proof.
  intros H. unfold scan. rewrite (scan_loop_no_match _ _ _ _ H).
  clear H. induction s as [|a s IH]; [reflexivity|exact IH].
Qed.

Lemma expand_as_steps (sql : text) :
  expand_fuzzy_sql sql
  = fold_left rewrite_step
      (map (fun m => (group_or_empty 2 m, group_or_empty 3 m))
           (hits (scan fuzzy_pattern sql)))
      sql.
Proof.
  unfold expand_fuzzy_sql, findall3.
  generalize (hits (scan fuzzy_pattern sql)). intros l.
  assert (H : forall acc,
    fold_left rewrite_one
      (map (fun m => (group_or_empty 1 m, group_or_empty 2 m,
                      group_or_empty 3 m)) l) acc
    = fold_left rewrite_step
        (map (fun m => (group_or_empty 2 m, group_or_empty 3 m)) l) acc).
  { induction l as [|m l IH]; intros acc; [reflexivity|].
    cbn [map fold_left]. apply IH. }
  apply H.
Qed.

Lemma hit_column (sql : text) (m : found) :
  In m (hits (scan fuzzy_pattern sql)) ->
  In (map lower (group_or_empty 2 m)) allow_list
  /\ exists pre post, sql = pre ++ group_or_empty 2 m ++ post.
Proof.
  intros Hin. apply in_hits in Hin. unfold scan in Hin.
  destruct (scan_loop_hit _ _ _ _ _ Hin) as (pre & s' & -> & Hm).
  destruct (fuzzy_hit_column _ _ _ Hm) as (col & Hg & Hal & u & v & ->).
  unfold group_or_empty. rewrite Hg. split; [exact Hal|].
  exists (pre ++ u), v. rewrite <- !app_assoc. reflexivity.
Qed.

(** *** What a replacement leaves in place *)

Lemma clash_starts (old y post : text) :
  clash old y = true -> Str.starts_with old (y ++ post) = false.
Proof.
  revert y. induction old as [|a old IH]; intros [|b y] H; try discriminate.
  cbn in H |- *. destruct (Ascii.eqb a b); [|reflexivity].
  cbn in H |- *. exact (IH _ H).
Qed.

Lemma clash_ci_clash (col rest y : text) :
  clash_ci (map lower col) y = true -> clash (col ++ rest) y = true.
Proof.
  revert y. induction col as [|c col IH]; intros [|b y] H; try discriminate.
  cbn in H |- *. destruct (Ascii.eqb_spec c b) as [->|Hne].
  - rewrite Ascii.eqb_refl in H. cbn in H |- *. exact (IH _ H).
  - reflexivity.
Qed.

Lemma no_column_clash (w col rest : text) :
  no_column_begins w = true -> In (map lower col) allow_list ->
  forall x y, w = x ++ y -> y <> [] -> clash (col ++ rest) y = true.
Proof.
  intros Hw Hcol x. revert w Hw.
  induction x as [|a x IH]; intros w Hw y -> Hy.
  - destruct y as [|b y]; [congruence|]. cbn [app no_column_begins] in Hw.
    apply andb_true_iff in Hw as [Hw _].
    rewrite List.forallb_forall in Hw.
    apply clash_ci_clash. exact (Hw _ Hcol).
  - cbn [app no_column_begins] in Hw. apply andb_true_iff in Hw as [_ Hw].
    exact (IH _ Hw y eq_refl Hy).
Qed.

Lemma replace_inside (old new w : text) :
  (forall x y, w = x ++ y -> y <> [] -> clash old y = true) ->
  forall fuel post,
    exists post', Str.replace_loop fuel old new (w ++ post) = w ++ post'.
Proof.
  induction w as [|a w IH]; intros Hw fuel post.
  - eexists. reflexivity.
  - destruct fuel as [|fuel]; [exists post; reflexivity|].
    cbn [Str.replace_loop app].
    change (a :: w ++ post) with ((a :: w) ++ post).
    rewrite (clash_starts old (a :: w) post)
      by (apply (Hw [] (a :: w)); [reflexivity|discriminate]).
    cbn [app].
    destruct (IH (fun x y E => Hw (a :: x) y (f_equal (cons a) E)) fuel post)
      as [post' ->].
    exists post'. reflexivity.
Qed.

Lemma quote_not_inside (l : text) :
  forall x pp l' o',
    (forall x0, x = x0 ++ ["%"%char] -> pp = true) ->
    quotes_ok_from pp (l ++ l') = true ->
    l <> [] -> l' <> [] ->
    x ++ l = o' ++ T "%'" -> False.
Proof.
  induction l as [|a l IH]; intros x pp l' o' Hpp Hq Hl Hl' E; [congruence|].
  destruct l as [|a2 l].
  - change (o' ++ T "%'") with (o' ++ ["%"%char] ++ ["'"%char]) in E.
    rewrite app_assoc in E. apply app_inj_tail in E as [Ex ->].
    rewrite (Hpp _ Ex) in Hq. cbn [app quotes_ok_from] in Hq.
    destruct l'; [congruence|discriminate].
  - cbn [app quotes_ok_from] in Hq. apply andb_true_iff in Hq as [_ Hq].
    apply (IH (x ++ [a]) (is_chr "%" a) l' o'); try assumption;
      [|discriminate|rewrite <- app_assoc; exact E].
    intros x0 Ex. apply app_inj_tail in Ex as [_ ->]. reflexivity.
Qed.

Lemma skipn_exact (u v : text) : skipn (length u) (u ++ v) = v.
Proof. induction u as [|a u IH]; [reflexivity|exact IH]. Qed.

(** A replacement whose new text contains the old one between [a]
    and [b] only adds [a] before and [b] after each occurrence; it
    leaves in place every part where no occurrence begins and inside
    which none ends. *)
Lemma replace_frame (o' a b w : text) :
  (forall x y, w = x ++ y -> y <> [] -> clash (o' ++ T "%'") y = true) ->
  quotes_ok_from true w = true ->
  forall fuel pre post,
    exists pre' post',
      Str.replace_loop fuel (o' ++ T "%'") (a ++ (o' ++ T "%'") ++ b)
        (pre ++ w ++ post)
      = pre' ++ w ++ post'.
Proof.
  intros Hw Hq. set (old := o' ++ T "%'") in *.
  induction fuel as [|fuel IH]; intros pre post;
    [exists pre, post; reflexivity|].
  destruct pre as [|x pre].
  { destruct (replace_inside old (a ++ old ++ b) w Hw (S fuel) post)
      as [post' E].
    exists [], post'. exact E. }
  cbn [Str.replace_loop].
  destruct (Str.starts_with old ((x :: pre) ++ w ++ post)) eqn:Es.
  - apply StrFacts.starts_with_spec in Es as [rest Es]. rewrite Es.
    rewrite skipn_exact.
    apply List.app_eq_app in Es as [l [[Epre Erest]|[Eold Erest]]].
    + subst rest. destruct (IH l post) as (pre' & post' & ->).
      exists ((a ++ old ++ b) ++ pre'), post'. rewrite <- !app_assoc.
      reflexivity.
    + apply List.app_eq_app in Erest as [l2 [[Ew Erest]|[El Epost]]].
      * destruct l as [|c l].
        { rewrite app_nil_r in Eold. cbn [app] in Ew. subst l2 rest.
          destruct (IH [] post) as (pre' & post' & E). cbn [app] in E.
          rewrite E. exists ((a ++ old ++ b) ++ pre'), post'.
          rewrite <- !app_assoc. reflexivity. }
        destruct l2 as [|c2 l2].
        { rewrite app_nil_r in Ew. subst w rest. cbn [app].
          exists (a ++ x :: pre),
                 (b ++ Str.replace_loop fuel old (a ++ old ++ b) post).
          rewrite Eold, <- !app_assoc. reflexivity. }
        exfalso. subst w.
        apply (quote_not_inside (c :: l) (x :: pre) true (c2 :: l2) o');
          [reflexivity|exact Hq|discriminate|discriminate|].
        symmetry. exact Eold.
      * subst l post. eexists (a ++ x :: pre), _.
        rewrite Eold, <- !app_assoc. reflexivity.
  - cbn [app]. destruct (IH pre post) as (pre' & post' & ->).
    exists (x :: pre'), post'. reflexivity.
Qed.

Lemma fuzzy_clause_contains (column keyword : text) :
  exists b,
    fuzzy_clause column keyword
    = T "(" ++ like_clause column keyword ++ b.
Proof.
  eexists. unfold fuzzy_clause, like_clause. rewrite <- !app_assoc.
  reflexivity.
Qed.

Lemma like_clause_ends (column keyword : text) :
  like_clause column keyword
  = (column ++ T " LIKE '%" ++ keyword) ++ T "%'".
Proof. unfold like_clause. rewrite <- !app_assoc. reflexivity. Qed.

Lemma replace_nonempty (old new s : text) :
  old <> [] ->
  Str.replace old new s = Str.replace_loop (S (length s)) old new s.
Proof. destruct old; [congruence|reflexivity]. Qed.

Lemma rewrite_step_frame (w : text) (st : text * text) :
  outside_allow_list w = true ->
  In (map lower (fst st)) allow_list ->
  forall pre post,
    exists pre' post', rewrite_step (pre ++ w ++ post) st = pre' ++ w ++ post'.
Proof.
  intros Hw Hcol pre post. destruct st as [column keyword]. cbn [fst] in Hcol.
  unfold outside_allow_list in Hw. apply andb_true_iff in Hw as [Hcols Hq].
  unfold rewrite_step. cbn [fst snd].
  destruct (fuzzy_clause_contains column keyword) as [b ->].
  assert (Hclash : forall x y, w = x ++ y -> y <> [] ->
                     clash (like_clause column keyword) y = true).
  { unfold like_clause. exact (no_column_clash w column _ Hcols Hcol). }
  revert Hclash. rewrite like_clause_ends. intros Hclash.
  rewrite replace_nonempty by (destruct column; discriminate).
  apply replace_frame; assumption.
Qed.

Lemma steps_frame (w : text) (steps : list (text * text)) :
  outside_allow_list w = true ->
  Forall (fun st => In (map lower (fst st)) allow_list) steps ->
  forall pre post,
    exists pre' post',
      fold_left rewrite_step steps (pre ++ w ++ post) = pre' ++ w ++ post'.
Proof.
  intros Hw. induction 1 as [|st steps Hst _ IH]; intros pre post.
  - exists pre, post. reflexivity.
  - cbn [fold_left].
    destruct (rewrite_step_frame w st Hw Hst pre post) as (p1 & q1 & ->).
    apply IH.
Qed.

(** *** LIKE clauses on other columns *)

Lemma lower_is_dq (a : ascii) : lower a = dq -> a = dq.
Proof.
  destruct a as [[] [] [] [] [] [] [] []]; vm_compute; intros H;
    try discriminate H; reflexivity.
Qed.

Lemma clash_ci_app (q v z : text) :
  clash_ci q v = true -> clash_ci q (v ++ z) = true.
Proof.
  revert v. induction q as [|a q IH]; intros [|b v] H; try discriminate.
  cbn in H |- *. destruct (negb (Ascii.eqb (lower b) a)); [reflexivity|].
  cbn in H |- *. exact (IH _ H).
Qed.

Lemma no_column_without_dq (w : text) :
  forallb (isnt_chr dq) w = true -> no_column_begins w = true.
Proof.
  induction w as [|b w IH]; [reflexivity|]. cbn [forallb no_column_begins].
  intros H. apply andb_true_iff in H as [Hb H]. rewrite (IH H), andb_true_r.
  assert (E : Ascii.eqb (lower b) dq = false).
  { destruct (Ascii.eqb_spec (lower b) dq) as [E|]; [|reflexivity].
    apply lower_is_dq in E. subst b. discriminate. }
  unfold allow_list, quoted. cbn [forallb clash_ci]. rewrite E. reflexivity.
Qed.

Lemma no_column_app (c rest : text) :
  no_column_begins (c ++ [sp]) = true ->
  no_column_begins (sp :: rest) = true ->
  no_column_begins (c ++ sp :: rest) = true.
Proof.
  intros Hc Hr. induction c as [|a c IH]; [exact Hr|].
  cbn [app no_column_begins] in Hc |- *.
  apply andb_true_iff in Hc as [Ha Hc]. rewrite (IH Hc), andb_true_r.
  rewrite List.forallb_forall in *. intros q Hq.
  change (a :: c ++ sp :: rest) with ((a :: c) ++ sp :: rest).
  replace ((a :: c) ++ sp :: rest) with (((a :: c) ++ [sp]) ++ rest)
    by (rewrite <- app_assoc; reflexivity).
  apply clash_ci_app. exact (Ha q Hq).
Qed.

Lemma quotes_step (pp : bool) (a b : ascii) (w : text) :
  quotes_ok_from pp (a :: b :: w)
  = negb (is_chr "'" a && pp) && quotes_ok_from (is_chr "%" a) (b :: w).
Proof. reflexivity. Qed.

Lemma quotes_keyword (k : text) :
  forallb (isnt_chr "'") k = true ->
  forall pp, quotes_ok_from pp (k ++ T "%'") = true.
Proof.
  induction k as [|b k IH]; intros H pp; [reflexivity|].
  cbn [forallb] in H. apply andb_true_iff in H as [Hb H].
  assert (E : is_chr "'" b = false)
    by (unfold isnt_chr in Hb; apply negb_true_iff in Hb; exact Hb).
  destruct k as [|b2 k].
  - cbn [app]. change (T "%'") with ["%"%char; "'"%char].
    rewrite quotes_step, E. reflexivity.
  - cbn [app]. rewrite quotes_step, E. exact (IH H _).
Qed.

Lemma quotes_column (c v : text) :
  forallb (isnt_chr "'") c = true ->
  (forall pp, quotes_ok_from pp v = true) ->
  forall pp, quotes_ok_from pp (c ++ v) = true.
Proof.
  intros Hc Hv. induction c as [|a c IH]; intros pp; [apply Hv|].
  cbn [forallb] in Hc. apply andb_true_iff in Hc as [Ha Hc].
  assert (E : is_chr "'" a = false)
    by (unfold isnt_chr in Ha; apply negb_true_iff in Ha; exact Ha).
  cbn [app]. specialize (IH Hc (is_chr "%" a)).
  destruct (c ++ v) as [|b w]; [reflexivity|].
  rewrite quotes_step, E, IH. reflexivity.
Qed.

Lemma quotes_like (k : text) :
  forallb (isnt_chr "'") k = true ->
  forall pp, quotes_ok_from pp (T " LIKE '%" ++ k ++ T "%'") = true.
Proof.
  intros Hk pp. pose proof (quotes_keyword k Hk true) as H.
  change (T " LIKE '%")
    with [" "%char; "L"%char; "I"%char; "K"%char; "E"%char; " "%char;
          "'"%char; "%"%char].
  cbn [app]. destruct (k ++ T "%'") as [|b w] eqn:E.
  - destruct k; discriminate E.
  - rewrite !quotes_step.
    change (is_chr "%" "%"%char) with true. rewrite H.
    destruct pp; reflexivity.
Qed.

(** A LIKE clause on another column is a part that no rewriting cuts. *)
Lemma like_clause_outside (column keyword : text) :
  other_column column = true -> plain_keyword keyword = true ->
  outside_allow_list (like_clause column keyword) = true.
Proof.
  unfold other_column, plain_keyword, outside_allow_list, like_clause.
  intros Hc Hk. apply andb_true_iff in Hc as [Hc Hcols].
  apply andb_true_iff in Hc as [_ Hq].
  assert (Hk1 : forallb (isnt_chr dq) keyword = true
                /\ forallb (isnt_chr "'") keyword = true).
  { rewrite !List.forallb_forall in *. split; intros a Ha;
      specialize (Hk a Ha); apply andb_true_iff in Hk as [H1 H2]; assumption. }
  destruct Hk1 as [Hkd Hkq]. apply andb_true_iff. split.
  - change (T " LIKE '%" ++ keyword ++ T "%'")
      with (sp :: T "LIKE '%" ++ keyword ++ T "%'").
    apply no_column_app; [exact Hcols|].
    apply no_column_without_dq.
    change (sp :: T "LIKE '%" ++ keyword ++ T "%'")
      with (T " LIKE '%" ++ keyword ++ T "%'").
    rewrite !List.forallb_app, Hkd. reflexivity.
  - apply quotes_column; [exact Hq|]. apply quotes_like. exact Hkq.
Qed.

(** A LIKE clause on a column outside the allow-list, with a keyword
    without quotes, still stands in the result when no replaced text
    reaches it. *)
Lemma like_clause_stays (sql pre column keyword post : text) :
  sql = pre ++ like_clause column keyword ++ post ->
  other_column column = true -> plain_keyword keyword = true ->
  exists pre' post',
    expand_fuzzy_sql sql = pre' ++ like_clause column keyword ++ post'.
Proof.
  intros -> Hc Hk. rewrite expand_as_steps.
  apply steps_frame; [apply like_clause_outside; assumption|].
  apply List.Forall_forall. intros st Hin.
  apply in_map_iff in Hin as (m & <- & Hm). cbn [fst].
  exact (proj1 (hit_column _ _ Hm)).
Qed.

(** X24: a statement of ASCII characters in which the pattern finds
    no match is returned as it is; in particular a statement that
    nowhere spells one of the three columns of the allow-list between
    double quotes, in any letter case. *)
Theorem expand_fuzzy_sql_unchanged_without_match (sql : text)
    (Hascii : Str.isascii sql = true) :
  (re_search fuzzy_pattern sql = None -> expand_fuzzy_sql sql = sql)
  /\ ((forall pre column post,
         sql = pre ++ column ++ post ->
         ~ In (map lower column) allow_list) ->
      expand_fuzzy_sql sql = sql).
Proof.
  split.
  - intros Hnone. rewrite expand_as_steps.
    rewrite no_match_no_hits; [reflexivity|].
    apply search_none_no_match. exact Hnone.
  - intros Hnone. rewrite expand_as_steps.
    destruct (hits (scan fuzzy_pattern sql)) as [|m l] eqn:E; [reflexivity|].
    exfalso.
    destruct (hit_column sql m) as (Hal & pre & post & Hs).
    + rewrite E. left. reflexivity.
    + exact (Hnone _ _ _ Hs Hal).
Qed.

Lemma expand_fuzzy_sql_unchanged_without_match_witness :
  expand_fuzzy_sql Examples.name_clause_only = Examples.name_clause_only.
Proof.
  apply (proj1 (expand_fuzzy_sql_unchanged_without_match
                  Examples.name_clause_only eq_refl)).
  vm_compute. reflexivity.
Defined.

(** C7 fails on this statement, which the sanitizer makes of an
    answer whose address literal does not end with a percent sign:
    group 3 of the pattern, meant for the keyword inside one literal,
    runs on to the next percent sign and quote, so the text that is
    replaced holds the clause on [name], a column outside the
    allow-list; the result puts that clause inside the disjunction
    and adds a copy of it without its spaces. *)
Theorem expand_fuzzy_sql_draws_in_next_clause :
  clean_sql_query Examples.open_literal_answer
  = Examples.open_literal_statement
  /\ findall3 fuzzy_pattern Examples.open_literal_statement
     = [ (T "WHERE ", quoted (T "address"), T "a' AND name LIKE '%b") ]
  /\ expand_fuzzy_sql Examples.open_literal_statement
     = T "SELECT * " ++ [nl] ++ T "FROM outlets " ++ [nl] ++ T "WHERE ("
         ++ quoted (T "address") ++ T " LIKE '%a' AND name LIKE '%b%'"
         ++ T " OR REPLACE(" ++ quoted (T "address")
         ++ T ", ' ', '') LIKE '%a'ANDnameLIKE'%b%');".
Proof. repeat split; vm_compute; reflexivity. Qed.

End FuzzyFacts.

(** ** White space and line breaks *)

Module ShapeFacts.
Import Shape.

Lemma collapse_nonspace_prefix (h s : text) (b : bool) :
  forallb (fun a => negb (is_space a)) h = true -> h <> [] ->
  collapse b (h ++ s) = h ++ collapse false s.
Proof.
  revert b. induction h as [|a h IH]; intros b H Hne; [congruence|].
  cbn [forallb] in H. apply andb_true_iff in H as [Ha H].
  cbn [app collapse]. destruct (is_space a); [discriminate|]. f_equal.
  destruct h as [|a' h]; [reflexivity|]. apply IH; [exact H|discriminate].
Qed.

Lemma collapse_snoc (u : text) (c : ascii) (b : bool) :
  is_space c = false -> collapse b (u ++ [c]) = collapse b u ++ [c].
Proof.
  intros Hc. revert b. induction u as [|a u IH]; intros b; cbn.
  - rewrite Hc. reflexivity.
  - destruct (is_space a); [destruct b|]; cbn; rewrite IH; reflexivity.
Qed.

Lemma collapse_skip_run (u s : text) :
  forallb is_space u = true -> collapse true (u ++ s) = collapse true s.
Proof.
  induction u as [|a u IH]; [reflexivity|]. cbn. intros H.
  apply andb_true_iff in H as [-> H]. exact (IH H).
Qed.

Lemma collapse_after_run (s : text) :
  match s with [] => True | b :: _ => is_space b = false end ->
  collapse true s = collapse false s.
Proof. destruct s as [|b s]; [reflexivity|]. cbn. intros ->. reflexivity. Qed.

Lemma collapse_forall (P : ascii -> Prop) (s : text) (b : bool) :
  P sp -> Forall P s -> Forall P (collapse b s).
Proof.
  intros Hsp H. revert b. induction H as [|a s Ha _ IH]; intros b; cbn.
  - constructor.
  - destruct (is_space a); [destruct b|]; try constructor; auto.
Qed.

Lemma collapse_normal (s : text) (b : bool) :
  normal b (collapse b s) = true.
Proof.
  revert b. induction s as [|a s IH]; intros b; cbn; [reflexivity|].
  destruct (is_space a) eqn:Ea.
  - destruct b; [apply IH|]. cbn. apply IH.
  - cbn. rewrite Ea. apply IH.
Qed.

Lemma normal_no_newline (s : text) (b : bool) :
  normal b s = true -> Forall (fun a => a <> nl) s.
Proof.
  revert b. induction s as [|a s IH]; intros b H; [constructor|].
  cbn in H. destruct (is_space a) eqn:Ea.
  - apply andb_true_iff in H as [H Hs]. apply andb_true_iff in H as [H _].
    apply Ascii.eqb_eq in H. subst a. constructor; [discriminate|].
    exact (IH _ Hs).
  - constructor; [|exact (IH _ H)]. intros ->. discriminate.
Qed.

Lemma normal_from (s : text) (b : bool) :
  normal b s = true ->
  match s with [] => True | a :: _ => is_space a = false end ->
  normal true s = true.
Proof.
  destruct s as [|a s]; [reflexivity|]. cbn. intros H Ha.
  rewrite Ha in *. exact H.
Qed.

Lemma broken_forall (P : ascii -> Prop) (b : bool) (s t : text) :
  broken b s t -> P nl -> Forall P s -> Forall P t.
Proof.
  intros H Hnl. induction H as [b|b a s t _ IH|a s t Ha _ IH]; intros Hs.
  - constructor.
  - inversion Hs; subst. constructor; auto.
  - inversion Hs; subst. repeat constructor; auto.
Qed.

Lemma broken_collapse (b : bool) (s t : text) :
  broken b s t -> normal b s = true -> collapse b t = s.
Proof.
  induction 1 as [b|b a s t _ IH|a s t Ha _ IH]; intros Hn.
  - reflexivity.
  - cbn in Hn |- *. destruct (is_space a).
    + apply andb_true_iff in Hn as [Hn Hs]. apply andb_true_iff in Hn as [Ea Hb].
      apply Ascii.eqb_eq in Ea. destruct b; [discriminate|].
      rewrite (IH Hs). subst a. reflexivity.
    + rewrite (IH Hn). reflexivity.
  - cbn in Hn. rewrite Ha in Hn. cbn. rewrite Ha, (IH Hn). reflexivity.
Qed.

Lemma broken_keep_app (a : ascii) (u s t : text) :
  broken (may_break (prev_after (Some a) u)) s t ->
  broken (is_space a) (u ++ s) (u ++ t).
Proof.
  revert a. induction u as [|b u IH]; intros a H; [exact H|].
  cbn [app]. apply broken_keep. apply IH. exact H.
Qed.

Lemma broken_nonspace_prefix (h s t : text) :
  forallb (fun a => negb (is_space a)) h = true ->
  broken false (h ++ s) t -> exists t', t = h ++ t' /\ broken false s t'.
Proof.
  revert t. induction h as [|a h IH]; intros t Hh H.
  - exists t. auto.
  - cbn [forallb] in Hh. apply andb_true_iff in Hh as [Ha Hh].
    cbn [app] in H. inversion H as [|b a' s' t1 H1|]; subst.
    destruct (is_space a); [discriminate|].
    destruct (IH _ Hh H1) as (t' & -> & Ht). exists t'. auto.
Qed.

Lemma broken_snoc (s : text) (c : ascii) :
  forall b t,
    broken b (s ++ [c]) t ->
    exists t', t = t' ++ [c]
               /\ forall P : ascii -> Prop, P nl -> Forall P s -> Forall P t'.
Proof.
  induction s as [|a s IH]; intros b t H; cbn [app] in H.
  - inversion H as [|b' a' s' t1 H1|a' s' t1 Ha H1]; subst;
      inversion H1; subst.
    + exists []. split; [reflexivity|]. intros; constructor.
    + exists [nl]. split; [reflexivity|]. intros; repeat constructor; auto.
  - inversion H as [|b' a' s' t1 H1|a' s' t1 Ha H1]; subst;
      destruct (IH _ _ H1) as (t' & -> & Ht).
    + exists (a :: t'). split; [reflexivity|]. intros P Hnl Hs.
      inversion Hs; subst. constructor; auto.
    + exists (nl :: a :: t'). split; [reflexivity|]. intros P Hnl Hs.
      inversion Hs; subst. repeat constructor; auto.
Qed.

Lemma broken_keep_nonspace (l x y : text) :
  forallb (fun a => negb (is_space a)) l = true ->
  broken false x y -> broken false (l ++ x) (l ++ y).
Proof.
  induction l as [|a l IH]; intros Hl H; [exact H|].
  cbn [forallb] in Hl. apply andb_true_iff in Hl as [Ha Hl].
  cbn [app]. apply broken_keep.
  destruct (is_space a); [discriminate|]. exact (IH Hl H).
Qed.

Lemma broken_first (a : ascii) (s t : text) :
  broken true (a :: s) t -> is_space a = false ->
  exists t', Str.lstrip t = a :: t' /\ broken false s t'.
Proof.
  intros H Ha. inversion H as [|b a' s' t1 H1|a' s' t1 _ H1]; subst.
  - rewrite Ha in H1. exists t1. cbn [Str.lstrip]. rewrite Ha. auto.
  - exists t1. cbn [Str.lstrip]. change (is_space nl) with true.
    cbv iota. rewrite Ha. auto.
Qed.

Lemma occurrences_app (c : ascii) (u v : text) :
  occurrences c (u ++ v) = occurrences c u + occurrences c v.
Proof. unfold occurrences. rewrite List.filter_app. apply length_app. Qed.

Lemma occurrences_none (c : ascii) (s : text) :
  forallb (isnt_chr c) s = true -> occurrences c s = 0.
Proof.
  unfold occurrences. induction s as [|a s IH]; [reflexivity|]. cbn.
  intros H. apply andb_true_iff in H as [Ha H]. unfold isnt_chr in Ha.
  unfold is_chr. destruct (Ascii.eqb a c); [discriminate|]. exact (IH H).
Qed.

Lemma occurrences_collapse (c : ascii) (s : text) (b : bool) :
  is_space c = false -> occurrences c (collapse b s) = occurrences c s.
Proof.
  intros Hc. unfold occurrences. revert b.
  induction s as [|a s IH]; intros b; [reflexivity|]. cbn [collapse].
  assert (Hsp : forall x, is_space x = true -> is_chr c x = false).
  { intros x Hx. unfold is_chr. destruct (Ascii.eqb_spec x c); [|reflexivity].
    congruence. }
  destruct (is_space a) eqn:Ea.
  - cbn [List.filter]. rewrite (Hsp a Ea). destruct b; [apply IH|].
    cbn [List.filter]. rewrite (Hsp sp eq_refl). apply IH.
  - cbn [List.filter]. destruct (is_chr c a); cbn [length]; rewrite IH;
      reflexivity.
Qed.

Lemma broken_occurrences (c : ascii) (b : bool) (s t : text) :
  broken b s t -> c <> nl -> occurrences c t = occurrences c s.
Proof.
  intros H Hc. unfold occurrences.
  assert (Hnl : is_chr c nl = false).
  { unfold is_chr. destruct (Ascii.eqb_spec nl c); [congruence|reflexivity]. }
  induction H as [b|b a s t _ IH|a s t Ha _ IH]; [reflexivity| |].
  - cbn [List.filter]. destruct (is_chr c a); cbn [length]; rewrite IH;
      reflexivity.
  - cbn [List.filter]. rewrite Hnl.
    destruct (is_chr c a); cbn [length]; rewrite IH; reflexivity.
Qed.

Lemma dropped_forall (P : ascii -> Prop) (c : ascii) (s t : text) :
  dropped c s t -> Forall P s -> Forall P t.
Proof.
  induction 1 as [|a s t _ IH|s t _ IH]; intros Hs;
    [constructor| |]; inversion Hs; subst; [constructor|]; auto.
Qed.

Lemma dropped_app_keep (c : ascii) (u s t : text) :
  dropped c s t -> dropped c (u ++ s) (u ++ t).
Proof.
  intros H. induction u as [|a u IH]; [exact H|]. cbn [app].
  apply dropped_keep, IH.
Qed.

Lemma dropped_prefix (c : ascii) (h s t : text) :
  forallb (isnt_chr c) h = true -> dropped c (h ++ s) t ->
  exists t', t = h ++ t' /\ dropped c s t'.
Proof.
  revert t. induction h as [|a h IH]; intros t Hh H.
  - exists t. auto.
  - cbn [forallb] in Hh. apply andb_true_iff in Hh as [Ha Hh].
    cbn [app] in H. inversion H as [|a' s' t1 H1|s' t1 H1]; subst.
    + destruct (IH _ Hh H1) as (t' & -> & Ht). exists t'. auto.
    + unfold isnt_chr in Ha. rewrite Ascii.eqb_refl in Ha. discriminate.
Qed.

Lemma dropped_snoc (c a : ascii) (s : text) :
  a <> c ->
  forall t, dropped c (s ++ [a]) t ->
            exists t', t = t' ++ [a] /\ dropped c s t'.
Proof.
  intros Hac. induction s as [|x s IH]; intros t H; cbn [app] in H.
  - inversion H as [|a' s' t1 H1|s' t1 H1]; subst; [|congruence].
    inversion H1; subst. exists []. split; [reflexivity|constructor].
  - inversion H as [|a' s' t1 H1|s' t1 H1]; subst;
      destruct (IH _ H1) as (t' & -> & Ht).
    + exists (x :: t'). split; [reflexivity|]. apply dropped_keep, Ht.
    + exists t'. split; [reflexivity|]. apply dropped_drop, Ht.
Qed.

Lemma first_split {A : Type} (q : A -> bool) (s : list A) :
  forallb q s = false ->
  exists u a s', s = u ++ a :: s' /\ forallb q u = true /\ q a = false.
Proof.
  induction s as [|x s IH]; [discriminate|]. cbn. intros H.
  destruct (q x) eqn:Ex.
  - destruct (IH H) as (u & a & s' & -> & Hu & Ha).
    exists (x :: u), a, s'. cbn. rewrite Ex. auto.
  - exists [], x, s. auto.
Qed.

Lemma lstrip_nonspace (a : ascii) (s : text) :
  is_space a = false -> Str.lstrip (a :: s) = a :: s.
Proof. intros H. cbn. rewrite H. reflexivity. Qed.

Lemma rstrip_nonspace (s : text) (c : ascii) :
  is_space c = false -> Str.rstrip (s ++ [c]) = s ++ [c].
Proof.
  intros H. unfold Str.rstrip. rewrite rev_app_distr. cbn [rev app].
  rewrite (lstrip_nonspace _ _ H). cbn [rev]. rewrite rev_involutive.
  reflexivity.
Qed.

End ShapeFacts.

(** ** The steps of the sanitizer *)

Module StepFacts.
Import Shape ReFacts ShapeFacts Sql.

Lemma star_greedy_max {R : Type} (f : ascii -> bool) (k : cont (R := R))
    (p : option ascii) (s : text) (c : caps) :
  (forall p' s' c', k p' s' c' <> None) ->
  exists u s',
    s = u ++ s' /\ forallb f u = true
    /\ match s' with [] => True | b :: _ => f b = false end
    /\ star_greedy f k p s c = k (prev_after p u) s' c.
Proof.
  intros Hk. revert p. induction s as [|a s IH]; intros p.
  - exists [], []. repeat split.
  - cbn [star_greedy]. destruct (f a) eqn:Ea.
    + destruct (IH (Some a)) as (u & s' & -> & Hu & Hs & E).
      exists (a :: u), s'. cbn. rewrite Ea, E. repeat split; auto.
      destruct (k (prev_after (Some a) u) s' c) eqn:Ek; [reflexivity|].
      exfalso. exact (Hk _ _ _ Ek).
    + exists [], (a :: s). repeat split; auto.
Qed.

(** Step 5 is [collapse]. *)
Lemma space_run (p : option ascii) (a : ascii) (s : text) :
  is_space a = true ->
  exists u s',
    s = u ++ s' /\ forallb is_space u = true
    /\ match s' with [] => True | b :: _ => is_space b = false end
    /\ match_here space_pattern p (a :: s)
       = Some (Found p (a :: u) (prev_after (Some a) u) s' []).
Proof.
  intros Ha. unfold match_here, space_pattern, Plus. cbn [rmatch].
  rewrite Ha.
  destruct (star_greedy_max is_space
              (fun prev' s' c' =>
                 Some (Found p (firstn (length (a :: s) - length s') (a :: s))
                         prev' s' c'))
              (Some a) s []) as (u & s' & E & Hu & Hs & Hm);
    [discriminate|].
  exists u, s'. rewrite Hm. subst s.
  pose proof (firstn_consumed (a :: u) s') as F. cbn [app] in F.
  rewrite F. auto.
Qed.

Lemma normalize_loop (fuel : nat) :
  forall p s,
    length s < fuel ->
    flat_map (emit [TLit [sp]]) (scan_loop fuel space_pattern p s)
    = collapse false s.
Proof.
  induction fuel as [|fuel IH]; intros p s Hlen; [lia|].
  cbn [scan_loop]. destruct s as [|a s].
  - reflexivity.
  - destruct (is_space a) eqn:Ea.
    + destruct (space_run p a s Ea) as (u & s' & -> & Hu & Hs & ->).
      cbn [m_text m_last m_rest flat_map emit expand expand_item app].
      rewrite IH by (cbn in Hlen; rewrite length_app in Hlen; lia).
      cbn [collapse]. rewrite Ea, (collapse_skip_run _ _ Hu),
        (collapse_after_run _ Hs). reflexivity.
    + unfold match_here, space_pattern, Plus at 1. cbn [rmatch].
      rewrite Ea. cbn [flat_map emit app collapse]. rewrite Ea.
      rewrite IH by (cbn in Hlen; lia). reflexivity.
Qed.

Lemma normalize_spaces_collapse (s : text) :
  normalize_spaces s = collapse false s.
Proof. apply normalize_loop. lia. Qed.

(** Step 6 breaks lines before keywords. *)
Lemma keyword_begins :
  begins_with keyword_pattern (fun a => negb (is_space a)) = true.
Proof. vm_compute. reflexivity. Qed.

Lemma break_loop (fuel : nat) :
  forall p s,
    length s < fuel ->
    (forall m, In (Hit m) (scan_loop fuel keyword_pattern p s) ->
               may_break (m_prev m) = true) ->
    broken (may_break p) s
      (flat_map (emit [TLit [nl]; TGroup 1])
         (scan_loop fuel keyword_pattern p s)).
Proof.
  induction fuel as [|fuel IH]; intros p s Hlen Hall; [lia|].
  cbn [scan_loop] in *.
  assert (Hkeep :
    (forall m,
       In (Hit m)
         match s with
         | [] => []
         | a :: s' => Keep a :: scan_loop fuel keyword_pattern (Some a) s'
         end -> may_break (m_prev m) = true) ->
    broken (may_break p) s
      (flat_map (emit [TLit [nl]; TGroup 1])
         match s with
         | [] => []
         | a :: s' => Keep a :: scan_loop fuel keyword_pattern (Some a) s'
         end)).
  { destruct s as [|a s]; intros Hin; [constructor|].
    cbn [flat_map emit app]. apply broken_keep.
    apply (IH (Some a)); [cbn in Hlen; lia|].
    intros m Hm. apply Hin. right. exact Hm. }
  destruct (match_here keyword_pattern p s) as [m|] eqn:E; [|exact (Hkeep Hall)].
  destruct (match_here_begins _ _ _ _ _ keyword_begins E) as (a & u & Eu & Ha).
  pose proof (match_here_group _ _ _ _ _ E) as Hg.
  destruct (match_here_inv _ _ _ _ E) as (u0 & s' & new & -> & _ & ->).
  cbn [m_text m_last m_rest m_caps m_prev] in *. subst u0.
  cbn [flat_map emit expand expand_item app m_caps]. rewrite Hg.
  rewrite app_nil_r. cbn [app].
  assert (Hp : may_break p = true).
  { apply (Hall (Found p (a :: u) (prev_after p (a :: u)) s' new)).
    left. reflexivity. }
  rewrite Hp. apply broken_break.
  - destruct (is_space a); [discriminate|reflexivity].
  - replace false with (is_space a)
      by (destruct (is_space a); [discriminate|reflexivity]).
    apply broken_keep_app.
    apply (IH (prev_after p (a :: u))).
    + rewrite length_app in Hlen. cbn in Hlen. lia.
    + intros m Hm. apply Hall. right. exact Hm.
Qed.

Lemma break_keywords_broken (s : text) :
  keywords_spaced s = true -> broken true s (break_keywords s).
Proof.
  intros H. unfold break_keywords, re_sub, scan.
  apply (break_loop (S (length s)) None s); [lia|].
  intros m Hm. unfold keywords_spaced in H.
  rewrite List.forallb_forall in H. apply H.
  apply FuzzyFacts.in_hits. exact Hm.
Qed.

(** Step 3 keeps a text that begins with SELECT, in some letter
    case, and ends with its only semicolon. *)
Lemma star_lazy_until {R : Type} (f g : ascii -> bool)
    (k K : cont (R := R)) :
  (forall p s c,
     k p s c = match s with
               | a :: s' => if g a then K (Some a) s' c else None
               | [] => None
               end) ->
  (forall p s c, K p s c <> None) ->
  forall s p c x,
    star_lazy f k p s c = Some x ->
    exists u a s',
      s = u ++ a :: s' /\ forallb (fun b => negb (g b)) u = true
      /\ g a = true /\ K (Some a) s' c = Some x.
Proof.
  intros Hk HK. induction s as [|a s IH]; intros p c x H;
    cbn [star_lazy] in H; rewrite Hk in H.
  - discriminate.
  - destruct (g a) eqn:Ea.
    + destruct (K (Some a) s c) eqn:EK; [|exfalso; exact (HK _ _ _ EK)].
      cbn [orelse] in H. exists [], a, s. rewrite <- H. auto.
    + cbn [orelse] in H. destruct (f a); [|discriminate].
      destruct (IH _ _ _ H) as (u & a' & s' & -> & Hu & Ha & HKx).
      exists (a :: u), a', s'. cbn. rewrite Ea. auto.
Qed.

Lemma star_lazy_reaches {R : Type} (f g : ascii -> bool)
    (k K : cont (R := R)) :
  (forall p s c,
     k p s c = match s with
               | a :: s' => if g a then K (Some a) s' c else None
               | [] => None
               end) ->
  forall u a s' p c,
    forallb (fun b => negb (g b) && f b) u = true -> g a = true ->
    K (Some a) s' c <> None ->
    star_lazy f k p (u ++ a :: s') c = K (Some a) s' c.
Proof.
  intros Hk. induction u as [|b u IH]; intros a s' p c Hu Ha HK;
    cbn [app star_lazy]; rewrite Hk.
  - rewrite Ha. destruct (K (Some a) s' c); [reflexivity|congruence].
  - cbn [forallb] in Hu. apply andb_true_iff in Hu as [Hb Hu].
    apply andb_true_iff in Hb as [Hg Hf].
    destruct (g b); [discriminate|]. cbn [orelse]. rewrite Hf.
    apply IH; assumption.
Qed.

Lemma semicolon_cont {R : Type} (K : cont (R := R)) p s c :
  rmatch (lit_ci (T ";")) K p s c
  = match s with
    | a :: s' => if is_chr ";" a then K (Some a) s' c else None
    | [] => None
    end.
Proof.
  cbn. destruct s as [|a s]; [reflexivity|].
  replace (is_ci ";" a) with (is_chr ";" a); [reflexivity|].
  destruct a as [[] [] [] [] [] [] [] []]; reflexivity.
Qed.

Lemma alpha_facts (a : ascii) :
  is_alpha (lower a) = true ->
  is_space a = false /\ isnt_chr bt a = true /\ isnt_chr ";" a = true.
Proof.
  destruct a as [[] [] [] [] [] [] [] []]; vm_compute; intros H;
    try discriminate H; repeat split.
Qed.

Lemma select_letters (h : text) :
  map lower h = T "select" ->
  forallb (fun a => negb (is_space a)) h = true
  /\ forallb (isnt_chr bt) h = true
  /\ forallb (isnt_chr ";") h = true
  /\ exists a1 a2 h', h = a1 :: a2 :: h'
                      /\ lower a1 = "s"%char /\ lower a2 = "e"%char.
Proof.
  intros H.
  assert (Hal : forallb (fun a => is_alpha (lower a)) h = true).
  { assert (E : forallb is_alpha (map lower h) = true)
      by (rewrite H; reflexivity).
    clear H. induction h as [|a h IH]; [reflexivity|]. cbn in *.
    apply andb_true_iff in E as [-> E]. exact (IH E). }
  repeat split.
  - rewrite List.forallb_forall in *. intros a Ha.
    destruct (alpha_facts a (Hal a Ha)) as (-> & _). reflexivity.
  - rewrite List.forallb_forall in *. intros a Ha.
    exact (proj1 (proj2 (alpha_facts a (Hal a Ha)))).
  - rewrite List.forallb_forall in *. intros a Ha.
    exact (proj2 (proj2 (alpha_facts a (Hal a Ha)))).
  - destruct h as [|a1 [|a2 h']]; try discriminate.
    injection H as H1 H2 _. exists a1, a2, h'. auto.
Qed.

Lemma select_hit (p : option ascii) (s : text) (m : found) :
  match_here sql_statement_pattern p s = Some m ->
  select_shape (group_or_empty 1 m).
Proof.
  unfold match_here, sql_statement_pattern. cbn [cats rmatch]. intros H.
  destruct (lit_ci_inv _ _ _ _ _ _ H) as (h & s1 & -> & Hh & H1). clear H.
  cbn [rmatch] in H1.
  eapply star_lazy_until in H1;
    [|intros; apply semicolon_cont|discriminate].
  destruct H1 as (u & a & s' & -> & Hu & Ha & HK).
  apply Ascii.eqb_eq in Ha. subst a.
  injection HK as <-. unfold group_or_empty. cbn [m_caps group Nat.eqb].
  replace (h ++ u ++ ";"%char :: s') with ((h ++ u ++ [";"%char]) ++ s')
    by (rewrite <- !app_assoc; reflexivity).
  rewrite firstn_consumed. exists h, u. split; [reflexivity|].
  split; [exact Hh|exact Hu].
Qed.

Lemma search_from_hit (r : regex) (m : found) :
  forall s p,
    search_from r p s = Some m ->
    exists pre s', s = pre ++ s'
                   /\ match_here r (prev_after p pre) s' = Some m.
Proof.
  induction s as [|a s IH]; intros p H; cbn [search_from] in H.
  - destruct (match_here r p []) eqn:E; [|discriminate].
    exists [], []. rewrite <- H. auto.
  - destruct (match_here r p (a :: s)) eqn:E.
    + exists [], (a :: s). rewrite <- H. auto.
    + destruct (IH _ H) as (pre & s' & -> & Hm). exists (a :: pre), s'. auto.
Qed.

Lemma select_found (h b : text) :
  map lower h = T "select" -> forallb (isnt_chr ";") b = true ->
  extract_statement (h ++ b ++ [";"%char]) = h ++ b ++ [";"%char].
Proof.
  intros Hh Hb. unfold extract_statement, re_search.
  assert (E : match_here sql_statement_pattern None (h ++ b ++ [";"%char])
              = Some (Found None (h ++ b ++ [";"%char]) (Some ";"%char) []
                        [(1, h ++ b ++ [";"%char])])).
  { unfold match_here, sql_statement_pattern. cbn [cats rmatch].
    rewrite lit_ci_ok by (rewrite Hh; reflexivity). cbn [rmatch].
    erewrite (star_lazy_reaches any (is_chr ";"));
      [|intros; apply semicolon_cont| |reflexivity|discriminate].
    - cbn [length]. rewrite Nat.sub_0_r, firstn_all. reflexivity.
    - rewrite List.forallb_forall in *. intros a Ha.
      specialize (Hb a Ha). unfold isnt_chr, is_chr, any in *.
      rewrite Hb. reflexivity. }
  destruct (h ++ b ++ [";"%char]) eqn:Eo; cbn [search_from]; rewrite E;
    reflexivity.
Qed.

(** Step 4 removes backticks and nothing else. *)
Lemma backtick_hit (p : option ascii) (s : text) (m : found) :
  match_here backtick_pattern p s = Some m ->
  exists u, m_text m = bt :: u ++ [bt]
            /\ group 1 (m_caps m) = Some u
            /\ forallb (isnt_chr bt) u = true.
Proof.
  unfold match_here, backtick_pattern. cbn [cats rmatch]. intros H.
  destruct (lit_inv _ _ _ _ _ _ H) as (s1 & -> & H1). clear H.
  cbn [rmatch] in H1.
  destruct (star_greedy_inv _ _ _ _ _ _ H1) as (u & s2 & -> & Hu & H2).
  clear H1. cbn beta in H2.
  destruct (lit_inv _ _ _ _ _ _ H2) as (s3 & -> & H3). clear H2.
  injection H3 as <-. exists u. cbn [m_text m_caps group Nat.eqb].
  split; [|split; [f_equal|exact Hu]].
  - apply (firstn_consumed_eq (bt :: u ++ [bt]) s3 (bt :: u ++ bt :: s3)).
    cbn. rewrite <- app_assoc. reflexivity.
  - apply (firstn_consumed_eq u (bt :: s3) (u ++ bt :: s3)). reflexivity.
Qed.

Lemma star_greedy_run {R : Type} (f : ascii -> bool) (k : cont (R := R))
    (u : text) (a : ascii) (s : text) (c : caps) :
  forallb f u = true -> f a = false ->
  forall p,
    k (prev_after p u) (a :: s) c <> None ->
    star_greedy f k p (u ++ a :: s) c = k (prev_after p u) (a :: s) c.
Proof.
  intros Hu Ha. induction u as [|b u IH]; intros p Hk.
  - cbn. rewrite Ha. reflexivity.
  - cbn [forallb] in Hu. apply andb_true_iff in Hu as [Hb Hu].
    cbn [app star_greedy]. rewrite Hb, (IH Hu (Some b) Hk).
    cbn [prev_after] in *.
    destruct (k (prev_after (Some b) u) (a :: s) c); [reflexivity|congruence].
Qed.

Lemma lit_one {R : Type} (a : ascii) (k : cont (R := R))
    (p : option ascii) (s : text) (c : caps) :
  rmatch (lit [a]) k p (a :: s) c = k (Some a) s c.
Proof. cbn. unfold is_chr. rewrite Ascii.eqb_refl. reflexivity. Qed.

Lemma backtick_matches (p : option ascii) (u s : text) :
  forallb (isnt_chr bt) u = true ->
  match_here backtick_pattern p (bt :: u ++ bt :: s) <> None.
Proof.
  intros Hu. unfold match_here, backtick_pattern. cbn [cats rmatch].
  rewrite lit_one.
  rewrite star_greedy_run; [|exact Hu|reflexivity|];
    rewrite lit_one; discriminate.
Qed.

Lemma backtick_unmatched (p : option ascii) (s : text) :
  match_here backtick_pattern p (bt :: s) = None ->
  forallb (isnt_chr bt) s = true.
Proof.
  intros H. destruct (forallb (isnt_chr bt) s) eqn:E; [reflexivity|].
  exfalso. destruct (first_split _ _ E) as (u & a & s' & -> & Hu & Ha).
  unfold isnt_chr in Ha. apply negb_false_iff, Ascii.eqb_eq in Ha. subst a.
  exact (backtick_matches p u s' Hu H).
Qed.

Lemma strip_backticks_loop (fuel : nat) :
  forall p s,
    length s < fuel ->
    dropped bt s
      (flat_map (emit [TGroup 1]) (scan_loop fuel backtick_pattern p s))
    /\ occurrences bt
         (flat_map (emit [TGroup 1]) (scan_loop fuel backtick_pattern p s))
       <= 1.
Proof.
  induction fuel as [|fuel IH]; intros p s Hlen; [lia|].
  cbn [scan_loop].
  destruct (match_here backtick_pattern p s) as [m|] eqn:E.
  - destruct (backtick_hit _ _ _ E) as (u & Et & Eg & Hu).
    destruct (match_here_inv _ _ _ _ E) as (u0 & s' & new & -> & _ & ->).
    cbn [m_text m_last m_rest m_caps] in *. subst u0.
    cbn [flat_map emit expand expand_item app m_caps]. rewrite Eg, app_nil_r.
    destruct (IH (prev_after p (bt :: u ++ [bt])) s') as [Hd Hc].
    { rewrite length_app in Hlen. cbn in Hlen. lia. }
    split.
    + apply dropped_drop. rewrite <- app_assoc. apply dropped_app_keep.
      cbn [app]. apply dropped_drop. exact Hd.
    + rewrite occurrences_app, (occurrences_none _ _ Hu). exact Hc.
  - destruct s as [|a s]; [split; [constructor|cbn; lia]|].
    cbn [flat_map emit app].
    destruct (IH (Some a) s) as [Hd Hc]; [cbn in Hlen; lia|].
    split; [apply dropped_keep, Hd|].
    destruct (Ascii.eqb_spec a bt) as [->|Hne].
    + pose proof (backtick_unmatched _ _ E) as Hs.
      rewrite (scan_loop_no_match backtick_pattern s fuel (Some bt)).
      * rewrite emit_keeps. change (bt :: s) with ([bt] ++ s).
        rewrite occurrences_app, (occurrences_none _ _ Hs).
        change (occurrences bt [bt]) with 1. lia.
      * apply (no_match_begins _ (is_chr bt)); [vm_compute; reflexivity|].
        exact Hs.
    + change (a :: ?x) with ([a] ++ x). rewrite occurrences_app.
      rewrite (occurrences_none bt [a]); [exact Hc|].
      cbn. unfold isnt_chr. destruct (Ascii.eqb_spec a bt); [contradiction|].
      reflexivity.
Qed.

Lemma strip_backticks_dropped (s : text) :
  dropped bt s (strip_backticks s) /\ occurrences bt (strip_backticks s) <= 1.
Proof. apply strip_backticks_loop. lia. Qed.

(** With at most one backtick, steps 1 and 4 change nothing. *)
Lemma no_match_few (r : regex) :
  (forall p s m, match_here r p s = Some m -> 2 <= occurrences bt s) ->
  forall s p, occurrences bt s <= 1 -> no_match r p s.
Proof.
  intros Hr. induction s as [|a s IH]; intros p H; cbn [no_match].
  - split; [|exact I]. destruct (match_here r p []) eqn:E; [|reflexivity].
    specialize (Hr _ _ _ E). lia.
  - split.
    + destruct (match_here r p (a :: s)) eqn:E; [|reflexivity].
      specialize (Hr _ _ _ E). lia.
    + apply IH. change (a :: s) with ([a] ++ s) in H.
      rewrite occurrences_app in H. lia.
Qed.

Lemma block_hit (p : option ascii) (s : text) (m : found) :
  match_here block_pattern p s = Some m -> 2 <= occurrences bt s.
Proof.
  unfold match_here, block_pattern. cbn [cats rmatch]. intros H.
  destruct (lit_inv _ _ _ _ _ _ H) as (s1 & -> & _).
  rewrite occurrences_app. change (occurrences bt (T "```")) with 3. lia.
Qed.

Lemma backtick_hit_two (p : option ascii) (s : text) (m : found) :
  match_here backtick_pattern p s = Some m -> 2 <= occurrences bt s.
Proof.
  intros H. destruct (backtick_hit _ _ _ H) as (u & Et & _ & _).
  destruct (match_here_inv _ _ _ _ H) as (u0 & s' & new & -> & _ & ->).
  cbn [m_text] in Et. subst u0.
  change (bt :: u ++ [bt]) with ([bt] ++ u ++ [bt]).
  rewrite !occurrences_app. change (occurrences bt [bt]) with 1. lia.
Qed.

Lemma few_backticks_fixed (o : text) :
  occurrences bt o <= 1 -> strip_fences o = o /\ strip_backticks o = o.
Proof.
  intros H. split; apply re_sub_no_match.
  - exact (no_match_few _ block_hit _ _ H).
  - exact (no_match_few _ backtick_hit_two _ _ H).
Qed.

(** A text that begins with SE is not a labelled text. *)
Lemma lower_cases (a : ascii) (c : ascii) :
  lower a = c -> is_lower c = true -> a = c \/ a = upper c.
Proof.
  intros <-. destruct a as [[] [] [] [] [] [] [] []]; vm_compute;
    intros H; try discriminate H; auto.
Qed.

Lemma prefix_after_start (s : text) :
  forall a, no_match prefix_pattern (Some a) s.
Proof.
  induction s as [|b s IH]; intros a; cbn [no_match]; split; auto.
Qed.

Lemma select_no_prefix (a1 a2 : ascii) (s : text) :
  lower a1 = "s"%char -> lower a2 = "e"%char ->
  strip_prefix (a1 :: a2 :: s) = a1 :: a2 :: s.
Proof.
  intros H1 H2. apply re_sub_no_match. cbn [no_match]. split.
  - destruct (lower_cases _ _ H1 eq_refl) as [->| ->],
      (lower_cases _ _ H2 eq_refl) as [->| ->]; reflexivity.
  - exact (prefix_after_start (a2 :: s) a1).
Qed.

(** After step 6 on a normal form, step 7 only strips. *)
Lemma blank_fails_cons (p : option ascii) (a : ascii) (s : text) :
  a <> nl -> match_here blank_pattern p (a :: s) = None.
Proof.
  intros H. unfold match_here, blank_pattern. cbn. unfold is_chr.
  destruct (Ascii.eqb_spec a nl); [contradiction|reflexivity].
Qed.

Lemma blank_fails_break (p : option ascii) (a : ascii) (s : text) :
  is_space a = false -> match_here blank_pattern p (nl :: a :: s) = None.
Proof.
  intros H. unfold match_here, blank_pattern. cbn. rewrite H.
  unfold is_chr. destruct (Ascii.eqb_spec a nl) as [->|]; [discriminate|].
  reflexivity.
Qed.

Lemma broken_no_blank (b : bool) (s t : text) :
  broken b s t ->
  forall b', normal b' s = true -> forall p, no_match blank_pattern p t.
Proof.
  induction 1 as [b|b a s t _ IH|a s t Ha _ IH]; intros b' Hn p.
  - split; [reflexivity|exact I].
  - pose proof (normal_no_newline _ _ Hn) as Hnl.
    inversion Hnl as [|? ? Ha Hs]; subst.
    cbn in Hn. split; [apply blank_fails_cons, Ha|].
    destruct (is_space a).
    + apply andb_true_iff in Hn as [_ Hn]. exact (IH _ Hn _).
    + exact (IH _ Hn _).
  - cbn in Hn. rewrite Ha in Hn. split; [apply blank_fails_break, Ha|].
    split; [|exact (IH _ Hn _)].
    apply blank_fails_cons. intros ->. discriminate.
Qed.

End StepFacts.

(** ** Sanitizing twice *)

Module SanitizerFacts.
Import Shape ReFacts ShapeFacts StepFacts Sql.

Lemma forallb_Forall (f : ascii -> bool) (l : text) :
  forallb f l = true <-> Forall (fun a => f a = true) l.
Proof. rewrite List.forallb_forall, List.Forall_forall. reflexivity. Qed.

Lemma head_nonspace (a : ascii) (h : text) :
  forallb (fun a => negb (is_space a)) (a :: h) = true -> is_space a = false.
Proof.
  cbn [forallb]. intros H. apply andb_true_iff in H as [H _].
  apply negb_true_iff in H. exact H.
Qed.

(** The statement after steps 1 to 5. *)
Lemma normalized_shape (s : text) :
  re_search sql_statement_pattern (strip_prefix (strip_fences s)) <> None ->
  exists h b,
    normalized_statement s = h ++ b ++ [";"%char]
    /\ map lower h = T "select"
    /\ forallb (isnt_chr ";") b = true
    /\ occurrences bt (normalized_statement s) <= 1
    /\ normal true (normalized_statement s) = true.
Proof.
  intros Hfound. unfold normalized_statement, statement_of in *.
  unfold extract_statement in *.
  destruct (re_search sql_statement_pattern (strip_prefix (strip_fences s)))
    as [m|] eqn:E; [clear Hfound|congruence].
  destruct (search_from_hit _ _ _ _ E) as (pre & s' & _ & Hm).
  destruct (select_hit _ _ _ Hm) as (h & b & Eg & Hh & Hb).
  destruct (select_letters _ Hh) as (Hsp & Hhb & _ & a1 & a2 & h' & Eh & _).
  destruct (strip_backticks_dropped (group_or_empty 1 m)) as [Hd Hc].
  rewrite Eg in Hd, Hc |- *.
  destruct (dropped_prefix _ _ _ _ Hhb Hd) as (t' & E4 & Hd').
  assert (Hsemi : ";"%char <> bt) by discriminate.
  destruct (dropped_snoc bt ";"%char b Hsemi _ Hd') as (b4 & -> & Hd4).
  assert (Hb4 : forallb (isnt_chr ";") b4 = true).
  { apply forallb_Forall. apply (dropped_forall _ _ _ _ Hd4).
    apply forallb_Forall, Hb. }
  rewrite normalize_spaces_collapse.
  rewrite occurrences_collapse by reflexivity.
  rewrite E4 in Hc |- *.
  assert (Hnorm :
    normal true (collapse false (h ++ b4 ++ [";"%char])) = true).
  { apply (normal_from _ false); [apply collapse_normal|].
    subst h. cbn [app collapse]. rewrite (head_nonspace _ _ Hsp).
    exact (head_nonspace _ _ Hsp). }
  revert Hnorm.
  rewrite collapse_nonspace_prefix by first [exact Hsp | subst h; discriminate].
  rewrite collapse_snoc by reflexivity. intros Hnorm.
  exists h, (collapse false b4).
  split; [reflexivity|]. split; [exact Hh|].
  split; [|split; [exact Hc|exact Hnorm]].
  apply forallb_Forall, collapse_forall; [reflexivity|].
  apply forallb_Forall, Hb4.
Qed.

(** Steps 6 and 7 on such a statement. *)
Lemma cleaned_shape (t5 h b : text) :
  t5 = h ++ b ++ [";"%char] ->
  map lower h = T "select" ->
  forallb (isnt_chr ";") b = true ->
  normal true t5 = true ->
  keywords_spaced t5 = true ->
  exists b',
    final_cleanup (break_keywords t5) = h ++ b' ++ [";"%char]
    /\ forallb (isnt_chr ";") b' = true
    /\ broken true t5 (h ++ b' ++ [";"%char]).
Proof.
  intros E5 Hh Hb Hn Hk.
  pose proof (break_keywords_broken _ Hk) as Hbr.
  destruct (select_letters _ Hh) as (Hsp & _ & _ & a1 & a2 & h' & Eh & _).
  assert (Ha1 : is_space a1 = false).
  { subst h. exact (head_nonspace _ _ Hsp). }
  assert (Hsp' : forallb (fun a => negb (is_space a)) (a2 :: h') = true).
  { subst h. cbn [forallb] in Hsp. apply andb_true_iff in Hsp as [_ Hsp].
    exact Hsp. }
  assert (Hfirst : exists t',
    Str.lstrip (break_keywords t5) = a1 :: t'
    /\ broken false ((a2 :: h') ++ b ++ [";"%char]) t').
  { apply broken_first; [|exact Ha1].
    replace (a1 :: (a2 :: h') ++ b ++ [";"%char]) with t5
      by (rewrite E5, Eh; reflexivity).
    exact Hbr. }
  destruct Hfirst as (t' & El & Ht').
  destruct (broken_nonspace_prefix _ _ _ Hsp' Ht') as (t2 & -> & Ht2).
  destruct (broken_snoc _ _ _ _ Ht2) as (b' & -> & Hb').
  assert (Eo : a1 :: (a2 :: h') ++ b' ++ [";"%char] = h ++ b' ++ [";"%char])
    by (subst h; reflexivity).
  assert (Hbroken : broken true t5 (h ++ b' ++ [";"%char])).
  { rewrite <- Eo, E5, Eh. cbn [app]. apply broken_keep. rewrite Ha1.
    exact (broken_keep_nonspace (a2 :: h') _ _ Hsp' Ht2). }
  exists b'. split; [|split].
  - unfold final_cleanup, Str.strip. rewrite El, Eo.
    rewrite !app_assoc, rstrip_nonspace by reflexivity.
    rewrite <- !app_assoc. apply re_sub_no_match.
    exact (broken_no_blank _ _ _ Hbroken _ Hn None).
  - apply forallb_Forall. apply (Hb' (fun a => isnt_chr ";" a = true));
      [reflexivity|]. apply forallb_Forall, Hb.
  - exact Hbroken.
Qed.

(** Steps 1 to 5 on the result. *)
Lemma cleaned_renormalized (o t5 h b : text) :
  o = h ++ b ++ [";"%char] ->
  map lower h = T "select" ->
  forallb (isnt_chr ";") b = true ->
  occurrences bt o <= 1 ->
  broken true t5 o ->
  normal true t5 = true ->
  normalize_spaces
    (strip_backticks (extract_statement (strip_prefix (strip_fences o))))
  = t5.
Proof.
  intros Eo Hh Hb Hbt Hbr Hn.
  destruct (select_letters _ Hh) as (Hsp & Hhb & _ & a1 & a2 & h' & Eh & H1 & H2).
  destruct (few_backticks_fixed _ Hbt) as [E1 E4].
  rewrite E1.
  assert (E2 : strip_prefix o = o).
  { rewrite Eo, Eh. cbn [app]. apply select_no_prefix; assumption. }
  rewrite E2.
  assert (E3 : extract_statement o = o).
  { rewrite Eo. apply select_found; assumption. }
  rewrite E3, E4, normalize_spaces_collapse.
  rewrite <- (collapse_after_run o).
  - exact (broken_collapse _ _ _ Hbr Hn).
  - rewrite Eo, Eh. subst h. exact (head_nonspace _ _ Hsp).
Qed.

(** C5, as the code has it, for an input of ASCII characters: when
    the sanitizer finds a SELECT statement in its input and every
    clause keyword that step 6 finds in that statement is at its
    start or follows white space, sanitizing the result again returns
    the same result. *)
Theorem clean_sql_query_idempotent (s : text)
    (Hascii : Str.isascii s = true)
    (Hfound :
       re_search sql_statement_pattern (strip_prefix (strip_fences s)) <> None)
    (Hspaced : keywords_spaced (normalized_statement s) = true) :
  clean_sql_query (clean_sql_query s) = clean_sql_query s.
Proof.
  destruct (normalized_shape s Hfound) as (h & b & E5 & Hh & Hb & Hbt & Hn).
  destruct (cleaned_shape _ _ _ E5 Hh Hb Hn Hspaced) as (b' & Eo & Hb' & Hbr).
  assert (E : clean_sql_query s
              = final_cleanup (break_keywords (normalized_statement s)))
    by reflexivity.
  assert (Hfew : occurrences bt (h ++ b' ++ [";"%char]) <= 1).
  { rewrite (broken_occurrences bt _ _ _ Hbr) by discriminate. exact Hbt. }
  assert (Hre :
    normalize_spaces
      (strip_backticks
         (extract_statement (strip_prefix (strip_fences (clean_sql_query s)))))
    = normalized_statement s).
  { rewrite E, Eo. apply (cleaned_renormalized _ _ h b'); auto. }
  exact (f_equal (fun t => final_cleanup (break_keywords t)) Hre).
Qed.

Lemma clean_sql_query_idempotent_witness :
  clean_sql_query (clean_sql_query Examples.labelled_answer)
  = clean_sql_query Examples.labelled_answer.
Proof.
  apply clean_sql_query_idempotent.
  - reflexivity.
  - vm_compute. discriminate.
  - vm_compute. reflexivity.
Defined.

(** C5 as the specification words it fails: in this single SELECT
    statement the keyword FROM stands right after a parenthesis; the
    first pass breaks the line before it, as step 6 does before every
    keyword, and the second pass turns that break into a space before
    breaking again. *)
Lemma clean_sql_query_twice_differs_after_parenthesis :
  clean_sql_query Examples.count_statement
  = T "SELECT COUNT(*)" ++ [nl] ++ T "FROM outlets;"
  /\ clean_sql_query (clean_sql_query Examples.count_statement)
     = T "SELECT COUNT(*) " ++ [nl] ++ T "FROM outlets;"
  /\ clean_sql_query (clean_sql_query Examples.count_statement)
     <> clean_sql_query Examples.count_statement
  /\ keywords_spaced (normalized_statement Examples.count_statement) = false.
Proof.
  split; [vm_compute; reflexivity|]. split; [vm_compute; reflexivity|].
  split; [vm_compute; discriminate|]. vm_compute. reflexivity.
Qed.

(** The same happens where step 6 finds a keyword inside a string
    literal: here LIMIT stands right after a percent sign, and the
    line feed that the first pass puts into the literal becomes a
    space and a line feed in the second. *)
Lemma clean_sql_query_twice_differs :
  clean_sql_query Examples.limit_statement
  = T "SELECT * " ++ [nl] ++ T "FROM outlets " ++ [nl]
      ++ T "WHERE address LIKE '%" ++ [nl] ++ T "Limit%';"
  /\ clean_sql_query (clean_sql_query Examples.limit_statement)
     = T "SELECT * " ++ [nl] ++ T "FROM outlets " ++ [nl]
         ++ T "WHERE address LIKE '% " ++ [nl] ++ T "Limit%';"
  /\ clean_sql_query (clean_sql_query Examples.limit_statement)
     <> clean_sql_query Examples.limit_statement.
Proof.
  split; [vm_compute; reflexivity|]. split; [vm_compute; reflexivity|].
  vm_compute. discriminate.
Qed.

End SanitizerFacts.

(** ** The layout of a sanitized text, for every input *)

Module LinesFacts.
Import Shape ReFacts ShapeFacts StepFacts Sql Lines.

Lemma at_boundary_inv {R : Type} (r : regex) :
  at_boundary r = true ->
  forall (k : cont (R := R)) p s c x,
    rmatch r k p s c = Some x ->
    xorb (word_opt p) (word_opt (head s)) = true.
Proof.
  induction r as [|f|r1 IH1 r2 IH2|r1 IH1 r2 IH2|r1 IH1|f|f|n r1 IH1| | |];
    cbn [at_boundary]; intros Hr k p s c x H; try discriminate;
    cbn [rmatch] in H.
  - apply orb_true_iff in Hr as [Hr|Hr].
    + exact (IH1 Hr _ _ _ _ _ H).
    + apply andb_true_iff in Hr as [Hn Hr].
      destruct (reads_nothing_inv _ Hn _ _ _ _ _ H) as [c' H'].
      exact (IH2 Hr _ _ _ _ _ H').
  - apply andb_true_iff in Hr as [Hr1 Hr2].
    destruct (rmatch r1 k p s c) eqn:E.
    + cbn [orelse] in H. rewrite H in E. exact (IH1 Hr1 _ _ _ _ _ E).
    + exact (IH2 Hr2 _ _ _ _ _ H).
  - exact (IH1 Hr _ _ _ _ _ H).
  - destruct (xorb _ _); [reflexivity|discriminate].
Qed.

Lemma keyword_at_boundary : at_boundary keyword_pattern = true.
Proof. reflexivity. Qed.

Lemma keyword_begins_word : begins_with keyword_pattern is_word = true.
Proof. vm_compute. reflexivity. Qed.

(** A clause keyword is found only where a word starts. *)
Lemma keyword_hit_word (p : option ascii) (s : text) (m : found) :
  match_here keyword_pattern p s = Some m ->
  word_opt p = false
  /\ exists a u, m_text m = a :: u /\ is_word a = true.
Proof.
  intros E.
  destruct (match_here_begins _ _ _ _ _ keyword_begins_word E)
    as (a & u & Eu & Ha).
  assert (Hx : xorb (word_opt p) (word_opt (head s)) = true).
  { pose proof E as E'. unfold match_here in E'.
    exact (at_boundary_inv _ keyword_at_boundary _ _ _ _ _ E'). }
  destruct (match_here_inv _ _ _ _ E) as (u0 & s' & new & -> & _ & ->).
  cbn [m_text] in Eu. subst u0. cbn [app head word_opt] in Hx.
  rewrite Ha in Hx. split; [|exists a, u; auto].
  destruct (word_opt p); [discriminate|reflexivity].
Qed.

Lemma lined_keep_app (u s t : text) :
  forall p, lined (prev_after p u) s t -> lined p (u ++ s) (u ++ t).
Proof.
  induction u as [|a u IH]; intros p H; [exact H|].
  cbn [app]. apply lined_keep. apply IH. exact H.
Qed.

Lemma break_loop_lined (fuel : nat) :
  forall p s,
    length s < fuel ->
    lined p s
      (flat_map (emit [TLit [nl]; TGroup 1])
         (scan_loop fuel keyword_pattern p s)).
Proof.
  induction fuel as [|fuel IH]; intros p s Hlen; [lia|].
  cbn [scan_loop].
  assert (Hkeep :
    lined p s
      (flat_map (emit [TLit [nl]; TGroup 1])
         match s with
         | [] => []
         | a :: s' => Keep a :: scan_loop fuel keyword_pattern (Some a) s'
         end)).
  { destruct s as [|a s]; [constructor|].
    cbn [flat_map emit app]. apply lined_keep.
    apply (IH (Some a)). cbn in Hlen. lia. }
  destruct (match_here keyword_pattern p s) as [m|] eqn:E; [|exact Hkeep].
  destruct (keyword_hit_word _ _ _ E) as (Hp & a & u & Eu & Ha).
  pose proof (match_here_group _ _ _ _ _ E) as Hg.
  destruct (match_here_inv _ _ _ _ E) as (u0 & s' & new & -> & _ & ->).
  cbn [m_text m_last m_rest m_caps m_prev] in *. subst u0.
  cbn [flat_map emit expand expand_item app m_caps]. rewrite Hg.
  rewrite app_nil_r. cbn [app].
  apply lined_break; [exact Hp|exact Ha|].
  apply lined_keep_app.
  apply (IH (prev_after p (a :: u))).
  rewrite length_app in Hlen. cbn in Hlen. lia.
Qed.

(** Step 6 only adds line feeds, each before the first character of
    a word. *)
Lemma break_keywords_lined (s : text) : lined None s (break_keywords s).
Proof.
  unfold break_keywords, re_sub, scan.
  apply (break_loop_lined (S (length s)) None s). lia.
Qed.

Lemma word_not_space (a : ascii) : is_word a = true -> is_space a = false.
Proof.
  destruct a as [[] [] [] [] [] [] [] []]; vm_compute; congruence.
Qed.

Lemma lined_solid (p : option ascii) (s t : text) :
  lined p s t -> solid t = solid s.
Proof.
  induction 1 as [p|p a s t _ IH|p a s t _ _ _ IH]; [reflexivity| |];
    unfold solid in *; cbn [List.filter]; rewrite IH; reflexivity.
Qed.

Lemma lined_head (p : option ascii) (s t : text) :
  lined p s t ->
  match t with
  | [] => s = []
  | b :: _ => b = nl \/ exists s', s = b :: s'
  end.
Proof.
  destruct 1; [reflexivity| |]; [right; eauto|left; reflexivity].
Qed.

Lemma lined_spaced (p : option ascii) (s t : text) :
  lined p s t -> forall b, normal b s = true -> spaced t = true.
Proof.
  induction 1 as [p|p a s t H IH|p a s t Hp Ha H IH]; intros b Hn;
    [reflexivity| |].
  - cbn [normal] in Hn. cbn [spaced]. unfold follows_ok.
    destruct (is_space a) eqn:Ea.
    + apply andb_true_iff in Hn as [Hn Hs].
      apply andb_true_iff in Hn as [Hsp _]. rewrite Hsp. cbn [andb].
      rewrite (IH _ Hs), andb_true_r. apply orb_true_iff. left.
      pose proof (lined_head _ _ _ H) as Hh.
      destruct t as [|c t]; [reflexivity|].
      destruct Hh as [->|[s' ->]]; [reflexivity|].
      cbn [normal] in Hs. destruct (is_space c); [|reflexivity].
      rewrite andb_false_r in Hs. discriminate.
    + cbn [andb]. exact (IH _ Hn).
  - cbn [normal] in Hn. rewrite (word_not_space _ Ha) in Hn.
    cbn [spaced]. unfold follows_ok at 1.
    change (is_space nl) with true. change (Ascii.eqb nl sp) with false.
    change (Ascii.eqb nl nl) with true. cbn [andb orb].
    rewrite (word_not_space _ Ha). cbn [negb andb].
    unfold follows_ok. rewrite (word_not_space _ Ha). cbn [andb].
    exact (IH _ Hn).
Qed.

(** A run of word characters stays in one piece, a line feed before
    it apart. *)
Lemma lined_word_run (h : text) :
  forallb is_word h = true ->
  forall p s t,
    word_opt p = true ->
    lined p (h ++ s) t ->
    exists t', t = h ++ t' /\ lined (prev_after p h) s t'.
Proof.
  induction h as [|a h IH]; intros Hh p s t Hp H.
  - exists t. split; [reflexivity|exact H].
  - cbn [forallb] in Hh. apply andb_true_iff in Hh as [Ha Hh].
    cbn [app] in H. inversion H as [|p' a' s' t' H'|p' a' s' t' Hp' _ _];
      subst; [|congruence].
    destruct (IH Hh (Some a) s t') as (t2 & -> & H2);
      [exact Ha|exact H'|].
    exists t2. split; [reflexivity|exact H2].
Qed.

Lemma lined_word_prefix (a : ascii) (h s t : text) (p : option ascii) :
  forallb is_word (a :: h) = true ->
  lined p ((a :: h) ++ s) t ->
  exists t',
    Str.lstrip t = (a :: h) ++ t'
    /\ lined (prev_after p (a :: h)) s t'.
Proof.
  intros Hh H. cbn [forallb] in Hh. apply andb_true_iff in Hh as [Ha Hh].
  cbn [app] in H.
  assert (Hrun : forall t0, lined (Some a) (h ++ s) t0 ->
    exists t', a :: t0 = (a :: h) ++ t'
               /\ lined (prev_after p (a :: h)) s t').
  { intros t0 H0.
    destruct (lined_word_run h Hh (Some a) s t0 Ha H0) as (t' & -> & H').
    exists t'. split; [reflexivity|exact H']. }
  inversion H as [|p' a' s' t' H'|p' a' s' t' Hp' _ H']; subst.
  - destruct (Hrun _ H') as (t2 & E & H2). exists t2.
    rewrite E. split; [|exact H2].
    cbn [app]. apply lstrip_nonspace, word_not_space, Ha.
  - destruct (Hrun _ H') as (t2 & E & H2). exists t2.
    split; [|exact H2].
    change (Str.lstrip (nl :: a :: t')) with (Str.lstrip (a :: t')).
    rewrite E. cbn [app]. apply lstrip_nonspace, word_not_space, Ha.
Qed.

Lemma lined_snoc (s : text) (c : ascii) :
  forall p t,
    lined p (s ++ [c]) t ->
    exists t', t = t' ++ [c]
               /\ forall P : ascii -> Prop, P nl -> Forall P s -> Forall P t'.
Proof.
  induction s as [|a s IH]; intros p t H; cbn [app] in H.
  - inversion H as [|p' a' s' t' H'|p' a' s' t' _ _ H']; subst;
      inversion H'; subst.
    + exists []. split; [reflexivity|]. intros; constructor.
    + exists [nl]. split; [reflexivity|]. intros P Hnl _.
      constructor; [exact Hnl|constructor].
  - inversion H as [|p' a' s' t' H'|p' a' s' t' _ _ H']; subst;
      destruct (IH _ _ H') as (t2 & -> & Ht2).
    + exists (a :: t2). split; [reflexivity|]. intros P Hnl Hs.
      inversion Hs; subst. constructor; [assumption|]. apply Ht2; assumption.
    + exists (nl :: a :: t2). split; [reflexivity|]. intros P Hnl Hs.
      inversion Hs; subst. constructor; [assumption|].
      constructor; [assumption|]. apply Ht2; assumption.
Qed.

(** *** Stripping *)

Lemma lstrip_spec (s : text) :
  exists w,
    s = w ++ Str.lstrip s /\ forallb is_space w = true
    /\ match Str.lstrip s with [] => True | a :: _ => is_space a = false end.
Proof.
  induction s as [|a s IH].
  - exists []. repeat split.
  - cbn [Str.lstrip]. destruct (is_space a) eqn:Ea.
    + destruct IH as (w & E & Hw & Hh). exists (a :: w).
      cbn [app forallb]. rewrite Ea, Hw. rewrite <- E. repeat split.
      exact Hh.
    + exists []. repeat split. exact Ea.
Qed.

Lemma rstrip_spec (s : text) :
  exists w,
    s = Str.rstrip s ++ w /\ forallb is_space w = true
    /\ (Str.rstrip s = []
        \/ exists u c, Str.rstrip s = u ++ [c] /\ is_space c = false).
Proof.
  unfold Str.rstrip. destruct (lstrip_spec (rev s)) as (w & E & Hw & Hh).
  exists (rev w). split; [|split].
  - rewrite <- rev_app_distr, <- E, rev_involutive. reflexivity.
  - rewrite MemoryFacts.forallb_rev. exact Hw.
  - destruct (Str.lstrip (rev s)) as [|a l]; [left; reflexivity|].
    right. exists (rev l), a. split; [reflexivity|exact Hh].
Qed.

(** [strip] cuts white space at both ends and leaves a text that
    neither begins nor ends with white space. *)
Lemma strip_spec (s : text) :
  exists w1 w2,
    s = w1 ++ Str.strip s ++ w2
    /\ forallb is_space w1 = true /\ forallb is_space w2 = true
    /\ (Str.strip s = []
        \/ exists a u c,
             (Str.strip s = a :: u /\ is_space a = false)
             /\ (exists v, Str.strip s = v ++ [c]) /\ is_space c = false).
Proof.
  unfold Str.strip.
  destruct (lstrip_spec s) as (w1 & E1 & Hw1 & Hh).
  destruct (rstrip_spec (Str.lstrip s)) as (w2 & E2 & Hw2 & Hl).
  exists w1, w2. split; [|split; [exact Hw1|split; [exact Hw2|]]].
  - rewrite <- E2. exact E1.
  - destruct Hl as [Hl|(u & c & Hl & Hc)]; [left; exact Hl|]. right.
    rewrite Hl in E2 |- *.
    destruct (Str.lstrip s) as [|a l]; [destruct u; discriminate|].
    destruct u as [|b u]; cbn [app] in E2 |- *; injection E2 as Ea _.
    + subst a. exists c, [], c. repeat split; [exact Hh|exists []; reflexivity|exact Hc].
    + subst b. exists a, (u ++ [c]), c. repeat split; [exact Hh| |exact Hc].
      exists (a :: u). reflexivity.
Qed.

Lemma strip_fixed (s : text) :
  match s with [] => True | a :: _ => is_space a = false end ->
  (s = [] \/ exists v c, s = v ++ [c] /\ is_space c = false) ->
  Str.strip s = s.
Proof.
  intros Hh Hl. unfold Str.strip. destruct s as [|a s]; [reflexivity|].
  rewrite (lstrip_nonspace _ _ Hh).
  destruct Hl as [|(v & c & -> & Hc)]; [discriminate|].
  apply rstrip_nonspace, Hc.
Qed.

Lemma strip_idempotent (s : text) : Str.strip (Str.strip s) = Str.strip s.
Proof.
  destruct (strip_spec s) as (w1 & w2 & _ & _ & _ & H).
  apply strip_fixed.
  - destruct H as [->|(a & u & c & [-> Ha] & _)]; [exact I|exact Ha].
  - destruct H as [->|(a & u & c & _ & [v ->] & Hc)]; [left; reflexivity|].
    right. exists v, c. auto.
Qed.

Lemma solid_app (u v : text) : solid (u ++ v) = solid u ++ solid v.
Proof. apply List.filter_app. Qed.

Lemma solid_spaces (w : text) : forallb is_space w = true -> solid w = [].
Proof.
  induction w as [|a w IH]; [reflexivity|]. cbn [forallb]. intros H.
  apply andb_true_iff in H as [Ha H]. unfold solid in *.
  cbn [List.filter]. rewrite Ha. cbn [negb]. exact (IH H).
Qed.

Lemma solid_strip (s : text) : solid (Str.strip s) = solid s.
Proof.
  destruct (strip_spec s) as (w1 & w2 & E & H1 & H2 & _).
  rewrite E at 2. rewrite !solid_app, (solid_spaces _ H1), (solid_spaces _ H2).
  rewrite app_nil_r. reflexivity.
Qed.

Lemma solid_collapse (s : text) (b : bool) : solid (collapse b s) = solid s.
Proof.
  revert b. induction s as [|a s IH]; intros b; [reflexivity|].
  cbn [collapse]. unfold solid in *. cbn [List.filter].
  destruct (is_space a) eqn:Ea; cbn [negb].
  - destruct b; [apply IH|]. cbn [List.filter].
    change (is_space sp) with true. cbn [negb]. apply IH.
  - cbn [List.filter]. rewrite Ea. cbn [negb]. f_equal. apply IH.
Qed.

Lemma spaced_tail (u v : text) : spaced (u ++ v) = true -> spaced v = true.
Proof.
  induction u as [|a u IH]; [auto|]. cbn [app spaced]. intros H.
  apply andb_true_iff in H as [_ H]. exact (IH H).
Qed.

Lemma follows_ok_cut (a : ascii) (u v : text) :
  u <> [] -> follows_ok a (u ++ v) = follows_ok a u.
Proof. destruct u; [congruence|reflexivity]. Qed.

Lemma spaced_front (u : text) (c : ascii) (v : text) :
  is_space c = false -> spaced ((u ++ [c]) ++ v) = true ->
  spaced (u ++ [c]) = true.
Proof.
  intros Hc. induction u as [|a u IH]; cbn [app spaced]; intros H.
  - unfold follows_ok. rewrite Hc. reflexivity.
  - apply andb_true_iff in H as [Ha H]. rewrite (IH H), andb_true_r.
    rewrite <- Ha. symmetry. apply follows_ok_cut. destruct u; discriminate.
Qed.

Lemma spaced_strip (s : text) :
  spaced s = true -> spaced (Str.strip s) = true.
Proof.
  intros H. destruct (strip_spec s) as (w1 & w2 & E & _ & _ & Hs).
  rewrite E in H. apply spaced_tail in H.
  destruct Hs as [->|(a & u & c & _ & [v Ev] & Hc)]; [reflexivity|].
  rewrite Ev in H |- *. exact (spaced_front _ _ _ Hc H).
Qed.

Lemma spaced_no_blank (t : text) :
  spaced t = true -> forall p, no_match blank_pattern p t.
Proof.
  induction t as [|a t IH]; intros H p.
  - split; [reflexivity|exact I].
  - cbn [spaced] in H. apply andb_true_iff in H as [Ha H].
    split; [|exact (IH H _)].
    destruct (Ascii.eqb_spec a nl) as [->|Hn];
      [|exact (blank_fails_cons _ _ _ Hn)].
    unfold follows_ok in Ha. change (is_space nl) with true in Ha.
    change (Ascii.eqb nl sp) with false in Ha.
    change (Ascii.eqb nl nl) with true in Ha. cbn [andb orb] in Ha.
    destruct t as [|b t]; [discriminate|].
    apply blank_fails_break. destruct (is_space b); [discriminate|reflexivity].
Qed.

Lemma spaced_chars (t : text) :
  spaced t = true ->
  Forall (fun a => is_space a = true -> a = sp \/ a = nl) t.
Proof.
  induction t as [|a t IH]; intros H; [constructor|].
  cbn [spaced] in H. apply andb_true_iff in H as [Ha H].
  constructor; [|exact (IH H)]. intros Hs. unfold follows_ok in Ha.
  rewrite Hs in Ha. apply orb_true_iff in Ha as [Ha|Ha];
    apply andb_true_iff in Ha as [Ha _];
    apply Ascii.eqb_eq in Ha; auto.
Qed.

Lemma spaced_pairs (t : text) :
  spaced t = true ->
  forall pre a b post,
    t = pre ++ a :: b :: post ->
    is_space a = true -> is_space b = true -> a = sp /\ b = nl.
Proof.
  intros H pre a b post E Ha Hb. rewrite E in H.
  apply spaced_tail in H. cbn [spaced] in H.
  apply andb_true_iff in H as [H _]. unfold follows_ok in H.
  rewrite Ha, Hb in H. cbn [negb orb andb] in H.
  rewrite andb_false_r, orb_false_r in H.
  apply andb_true_iff in H as [H1 H2].
  apply Ascii.eqb_eq in H1, H2. auto.
Qed.

(** Steps 5 to 7 on any text: the substitution of step 7 finds
    nothing to replace. *)
Lemma laid_out (x : text) :
  final_cleanup (break_keywords (normalize_spaces x))
  = Str.strip (break_keywords (normalize_spaces x))
  /\ spaced (Str.strip (break_keywords (normalize_spaces x))) = true
  /\ solid (Str.strip (break_keywords (normalize_spaces x))) = solid x.
Proof.
  assert (Hs : spaced (Str.strip (break_keywords (normalize_spaces x)))
               = true).
  { apply spaced_strip.
    apply (lined_spaced _ _ _ (break_keywords_lined _) false).
    rewrite normalize_spaces_collapse. apply collapse_normal. }
  split; [|split; [exact Hs|]].
  - unfold final_cleanup. apply re_sub_no_match.
    exact (spaced_no_blank _ Hs None).
  - rewrite solid_strip, (lined_solid _ _ _ (break_keywords_lined _)).
    rewrite normalize_spaces_collapse. apply solid_collapse.
Qed.

End LinesFacts.

(** ** The sanitizer on every input *)

Module CleanFacts.
Import Shape ReFacts ShapeFacts StepFacts SanitizerFacts Sql Lines LinesFacts.

Lemma clean_sql_query_steps (s : text) :
  clean_sql_query s
  = final_cleanup
      (break_keywords (normalize_spaces (strip_backticks (statement_of s)))).
Proof. reflexivity. Qed.

Lemma occurrences_solid (c : ascii) (s : text) :
  is_space c = false -> occurrences c (solid s) = occurrences c s.
Proof.
  intros Hc. induction s as [|a s IH]; [reflexivity|].
  unfold occurrences, solid in *. cbn [List.filter].
  destruct (is_space a) eqn:Ea; cbn [negb List.filter].
  - unfold is_chr at 2. destruct (Ascii.eqb_spec a c) as [->|_];
      [congruence|exact IH].
  - destruct (is_chr c a); cbn [length]; rewrite IH; reflexivity.
Qed.

Lemma lower_word (a : ascii) :
  is_lower (lower a) = true -> is_word a = true.
Proof.
  destruct a as [[] [] [] [] [] [] [] []]; vm_compute; congruence.
Qed.

Lemma select_word (h : text) :
  map lower h = T "select" -> forallb is_word h = true.
Proof.
  intros H.
  assert (Hl : forallb is_lower (map lower h) = true)
    by (rewrite H; reflexivity).
  clear H. induction h as [|a h IH]; [reflexivity|].
  cbn [map forallb] in Hl |- *. apply andb_true_iff in Hl as [Ha Hl].
  rewrite (lower_word _ Ha), (IH Hl). reflexivity.
Qed.

(** X1: whatever the input, the sanitized text neither begins nor
    ends with white space; its only white-space characters are the
    space and the line feed; and two white-space characters stand
    side by side only as a space followed by a line feed: there is
    no tab, no double space and no blank line. *)
Theorem clean_sql_query_spacing (s : text) :
  Str.strip (clean_sql_query s) = clean_sql_query s
  /\ Forall (fun a => is_space a = true -> a = sp \/ a = nl)
       (clean_sql_query s)
  /\ forall pre a b post,
       clean_sql_query s = pre ++ a :: b :: post ->
       is_space a = true -> is_space b = true -> a = sp /\ b = nl.
Proof.
  rewrite clean_sql_query_steps.
  destruct (laid_out (strip_backticks (statement_of s))) as (E & Hs & _).
  rewrite E. split; [apply strip_idempotent|].
  split; [exact (spaced_chars _ Hs)|exact (spaced_pairs _ Hs)].
Qed.

(** X2: the substitution that closes step 7 never finds a blank
    line to remove: on every input the result of the sanitizer is
    the stripped result of step 6. *)
Theorem clean_sql_query_no_blank_line (s : text) :
  clean_sql_query s
  = Str.strip
      (break_keywords
         (normalize_spaces
            (strip_backticks
               (extract_statement (strip_prefix (strip_fences s))))))
  /\ re_search blank_pattern
       (Str.strip
          (break_keywords
             (normalize_spaces
                (strip_backticks
                   (extract_statement (strip_prefix (strip_fences s)))))))
     = None.
Proof.
  destruct (laid_out (strip_backticks (statement_of s))) as (E & Hs & _).
  split; [exact E|].
  pose proof (spaced_no_blank _ Hs None) as Hn.
  unfold statement_of in Hn. unfold re_search.
  revert Hn.
  generalize (Str.strip
                (break_keywords
                   (normalize_spaces
                      (strip_backticks
                         (extract_statement
                            (strip_prefix (strip_fences s))))))).
  generalize (@None ascii).
  intros p t. revert p. induction t as [|a t IH]; intros p [H1 H2];
    cbn [search_from]; rewrite H1; [reflexivity|]. exact (IH _ H2).
Qed.

(** X3: on an input of ASCII characters steps 5 to 7 touch white
    space only: the characters of the sanitized text that are not
    white space are, in order, those of the text that step 4 leaves,
    which is the extracted statement without some of its backticks. *)
Theorem clean_sql_query_keeps_content (s : text)
    (Hascii : Str.isascii s = true) :
  solid (clean_sql_query s)
  = solid (strip_backticks
             (extract_statement (strip_prefix (strip_fences s))))
  /\ dropped bt (extract_statement (strip_prefix (strip_fences s)))
       (strip_backticks
          (extract_statement (strip_prefix (strip_fences s)))).
Proof.
  split.
  - rewrite clean_sql_query_steps.
    destruct (laid_out (strip_backticks (statement_of s))) as (E & _ & Hc).
    rewrite E. exact Hc.
  - exact (proj1 (strip_backticks_dropped _)).
Qed.

(** X4: whatever the input, at most one backtick is left in the
    sanitized text. *)
Theorem clean_sql_query_backticks (s : text) :
  occurrences bt (clean_sql_query s) <= 1.
Proof.
  rewrite clean_sql_query_steps.
  destruct (laid_out (strip_backticks (statement_of s))) as (E & _ & Hc).
  rewrite E, <- (occurrences_solid bt) by reflexivity.
  rewrite Hc, (occurrences_solid bt) by reflexivity.
  exact (proj2 (strip_backticks_dropped _)).
Qed.

Lemma single_statement (s : text) :
  re_search sql_statement_pattern (strip_prefix (strip_fences s)) <> None ->
  exists h b,
    clean_sql_query s = h ++ b ++ [";"%char]
    /\ map lower h = T "select"
    /\ forallb (isnt_chr ";") b = true.
Proof.
  intros Hfound.
  destruct (normalized_shape s Hfound) as (h & b & E5 & Hh & Hb & _ & _).
  rewrite clean_sql_query_steps.
  destruct (laid_out (strip_backticks (statement_of s))) as (E & _ & _).
  rewrite E. clear E.
  change (normalize_spaces (strip_backticks (statement_of s)))
    with (normalized_statement s).
  pose proof (break_keywords_lined (normalized_statement s)) as Hl.
  rewrite E5 in Hl |- *.
  generalize dependent (break_keywords (h ++ b ++ [";"%char])).
  intros t6 Hl.
  pose proof (select_word _ Hh) as Hw.
  destruct h as [|a h]; [discriminate|].
  destruct (lined_word_prefix _ _ _ _ _ Hw Hl) as (t' & El & Ht').
  destruct (lined_snoc _ _ _ _ Ht') as (b' & -> & Hb').
  exists (a :: h), b'. split; [|split; [exact Hh|]].
  - unfold Str.strip. rewrite El.
    rewrite !app_assoc. apply rstrip_nonspace. reflexivity.
  - apply forallb_Forall. apply (Hb' (fun a => isnt_chr ";" a = true));
      [reflexivity|]. apply forallb_Forall, Hb.
Qed.

(** X5: when step 3 finds a statement in an input of ASCII
    characters, the sanitized text begins with SELECT, in some letter
    case, and ends with a semicolon, its only one: what followed the
    first semicolon of the statement is gone. *)
Theorem clean_sql_query_single_statement (s : text)
    (Hascii : Str.isascii s = true)
    (Hfound :
       re_search sql_statement_pattern (strip_prefix (strip_fences s))
       <> None) :
  exists h b,
    clean_sql_query s = h ++ b ++ [";"%char]
    /\ map lower h = T "select"
    /\ forallb (isnt_chr ";") b = true.
Proof. exact (single_statement s Hfound). Qed.

Lemma clean_sql_query_single_statement_witness :
  exists h b,
    clean_sql_query Examples.labelled_answer = h ++ b ++ [";"%char]
    /\ map lower h = T "select"
    /\ forallb (isnt_chr ";") b = true.
Proof.
  apply (clean_sql_query_single_statement Examples.labelled_answer eq_refl).
  vm_compute. discriminate.
Defined.

Lemma clean_sql_query_keeps_content_witness :
  solid (clean_sql_query Examples.labelled_answer)
  = T "selectname,addressfromoutletswhere`id=1limit5;".
Proof.
  rewrite (proj1 (clean_sql_query_keeps_content Examples.labelled_answer
                    eq_refl)).
  vm_compute. reflexivity.
Defined.

End CleanFacts.

(** ** The statement that the outlets endpoint executes *)

Module ExecutedFacts.
Import Shape ReFacts ShapeFacts StepFacts SanitizerFacts FuzzyFacts Sql.
Import Api.

Lemma starts_with_snoc (c : ascii) (old : text) :
  ~ In c old ->
  forall s, Str.starts_with old (s ++ [c]) = Str.starts_with old s.
Proof.
  induction old as [|a old IH]; intros Hc s; [reflexivity|].
  destruct s as [|b s]; cbn [app Str.starts_with].
  - destruct (Ascii.eqb_spec a c) as [->|_]; [|reflexivity].
    exfalso. apply Hc. left. reflexivity.
  - rewrite IH; [reflexivity|]. intros H. apply Hc. right. exact H.
Qed.

Lemma replace_loop_nil (old new : text) (fuel : nat) :
  old <> [] -> Str.replace_loop fuel old new [] = [].
Proof.
  intros H. destruct fuel; [reflexivity|].
  destruct old; [congruence|reflexivity].
Qed.

(** A character that the text to replace does not hold, standing at
    the end, stays at the end. *)
Lemma replace_loop_snoc (c : ascii) (old new : text) :
  old <> [] -> ~ In c old ->
  forall fuel s,
    Str.replace_loop fuel old new (s ++ [c])
    = Str.replace_loop fuel old new s ++ [c].
Proof.
  intros Hold Hc. induction fuel as [|fuel IH]; intros s; [reflexivity|].
  cbn [Str.replace_loop]. rewrite (starts_with_snoc _ _ Hc).
  destruct (Str.starts_with old s) eqn:E.
  - apply StrFacts.starts_with_spec in E as [post ->].
    rewrite <- !app_assoc, !skipn_exact, IH, app_assoc. reflexivity.
  - destruct s as [|a s]; cbn [app].
    + rewrite replace_loop_nil by exact Hold. reflexivity.
    + rewrite IH. reflexivity.
Qed.

Lemma replace_loop_forall (P : ascii -> Prop) (old new : text) :
  Forall P new ->
  forall fuel s, Forall P s -> Forall P (Str.replace_loop fuel old new s).
Proof.
  intros Hnew. induction fuel as [|fuel IH]; intros s Hs; [exact Hs|].
  cbn [Str.replace_loop]. destruct (Str.starts_with old s) eqn:E.
  - apply List.Forall_app. split; [exact Hnew|]. apply IH.
    apply StrFacts.starts_with_spec in E as [post ->].
    rewrite skipn_exact. apply List.Forall_app in Hs. tauto.
  - destruct s as [|a s]; [constructor|]. inversion Hs; subst.
    constructor; [assumption|]. apply IH. assumption.
Qed.

Lemma replace_loop_absent (old new : text) :
  forall fuel s,
    (forall x y, s = x ++ y -> Str.starts_with old y = false) ->
    Str.replace_loop fuel old new s = s.
Proof.
  induction fuel as [|fuel IH]; intros s H; [reflexivity|].
  cbn [Str.replace_loop]. rewrite (H [] s eq_refl).
  destruct s as [|a s]; [reflexivity|]. f_equal. apply IH.
  intros x y E. apply (H (a :: x) y). rewrite E. reflexivity.
Qed.

(** A text to replace that holds the closing character before its
    own end occurs nowhere in a text that holds it at its end only. *)
Lemma terminator_inside (c : ascii) (x y body : text) :
  y <> [] -> ~ In c body ->
  forall u v,
    body ++ [c] = u ++ v -> Str.starts_with (x ++ c :: y) v = false.
Proof.
  intros Hy Hc u v E.
  destruct (Str.starts_with (x ++ c :: y) v) eqn:Hs; [|reflexivity].
  exfalso. apply StrFacts.starts_with_spec in Hs as [post ->].
  destruct (exists_last (l := y ++ post)) as (r & z & Er).
  { destruct y; [congruence|discriminate]. }
  rewrite <- !app_assoc in E. cbn [app] in E. rewrite Er in E.
  replace (u ++ x ++ c :: r ++ [z]) with ((u ++ x ++ c :: r) ++ [z]) in E
    by (rewrite <- !app_assoc; reflexivity).
  apply app_inj_tail in E as [E _]. apply Hc. rewrite E.
  apply in_or_app. right. apply in_or_app. right. left. reflexivity.
Qed.

Lemma like_clause_split (column keyword : text) :
  In ";"%char (like_clause column keyword) ->
  exists x y, like_clause column keyword = x ++ ";"%char :: y /\ y <> [].
Proof.
  intros H. rewrite like_clause_ends in H |- *.
  apply in_app_or in H as [H|H].
  - apply in_split in H as (x & y & ->).
    exists x, (y ++ T "%'"). rewrite <- app_assoc. split; [reflexivity|].
    destruct y; discriminate.
  - exfalso. cbn in H. destruct H as [H|[H|[]]]; discriminate.
Qed.

Lemma not_in_forall (c : ascii) (s : text) :
  ~ In c s <-> Forall (fun a => a <> c) s.
Proof.
  rewrite List.Forall_forall. split.
  - intros H a Ha ->. exact (H Ha).
  - intros H Hc. exact (H c Hc eq_refl).
Qed.

Lemma fuzzy_clause_free (c : ascii) (column keyword : text) :
  ~ In c (T "( LIKE '%' OR REPLACE(, ' ', '')") ->
  ~ In c (like_clause column keyword) ->
  ~ In c (fuzzy_clause column keyword).
Proof.
  intros Hlit H. unfold like_clause in H. unfold fuzzy_clause.
  rewrite not_in_forall in *.
  rewrite !List.Forall_app in H. destruct H as (Hc & _ & Hk & _).
  assert (Hk' : Forall (fun a => a <> c) (Str.replace [sp] [] keyword)).
  { unfold Str.replace. apply replace_loop_forall; [constructor|exact Hk]. }
  assert (L : forall w, incl w (T "( LIKE '%' OR REPLACE(, ' ', '')") ->
                        Forall (fun a => a <> c) w).
  { intros w Hw. apply List.Forall_forall. intros a Ha.
    rewrite List.Forall_forall in Hlit. apply Hlit, Hw, Ha. }
  repeat (apply List.Forall_app; split); try assumption;
    apply L; intros a Ha; cbn in Ha |- *; tauto.
Qed.

Lemma rewrite_step_terminated (body : text) (st : text * text) :
  ~ In ";"%char body ->
  exists body',
    rewrite_step (body ++ [";"%char]) st = body' ++ [";"%char]
    /\ ~ In ";"%char body'.
Proof.
  intros Hb. unfold rewrite_step.
  assert (Hne : like_clause (fst st) (snd st) <> []).
  { rewrite like_clause_ends. destruct (fst st ++ _); discriminate. }
  rewrite (replace_nonempty _ _ _ Hne).
  destruct (in_dec ascii_dec ";"%char (like_clause (fst st) (snd st)))
    as [Hin|Hout].
  - destruct (like_clause_split _ _ Hin) as (x & y & E & Hy).
    exists body. split; [|exact Hb]. apply replace_loop_absent.
    intros u v Euv. rewrite E.
    exact (terminator_inside _ x y body Hy Hb u v Euv).
  - rewrite (replace_loop_snoc _ _ _ Hne Hout).
    eexists. split; [reflexivity|].
    apply not_in_forall. apply replace_loop_forall.
    + apply not_in_forall. apply fuzzy_clause_free; [|exact Hout].
      cbn. intuition discriminate.
    + apply not_in_forall, Hb.
Qed.

Lemma column_quote (column : text) :
  In (map lower column) allow_list ->
  exists rest, column = dq :: rest.
Proof.
  intros H. destruct column as [|a rest].
  - cbn in H. intuition discriminate.
  - exists rest. f_equal. apply lower_is_dq.
    cbn in H. decompose [or] H; try contradiction;
      match goal with E : _ = _ |- _ => injection E as E _; exact (eq_sym E) end.
Qed.

Lemma word_clash (h old : text) :
  forallb is_word h = true ->
  forall x y, h = x ++ y -> y <> [] -> clash (dq :: old) y = true.
Proof.
  intros Hh x y E Hy. destruct y as [|b y]; [congruence|].
  cbn [clash]. rewrite E, List.forallb_app in Hh.
  apply andb_true_iff in Hh as [_ Hh]. cbn [forallb] in Hh.
  apply andb_true_iff in Hh as [Hb _].
  destruct (Ascii.eqb_spec dq b) as [<-|_]; [discriminate|reflexivity].
Qed.

Lemma rewrite_step_statement (h b : text) (st : text * text) :
  map lower h = T "select" ->
  ~ In ";"%char b ->
  In (map lower (fst st)) allow_list ->
  exists b',
    rewrite_step (h ++ b ++ [";"%char]) st = h ++ b' ++ [";"%char]
    /\ ~ In ";"%char b'.
Proof.
  intros Hh Hb Hcol.
  pose proof (CleanFacts.select_word _ Hh) as Hw.
  assert (Hhs : ~ In ";"%char h).
  { intros H. rewrite List.forallb_forall in Hw. specialize (Hw _ H).
    discriminate. }
  destruct (rewrite_step_terminated (h ++ b) st) as (body' & E & Hbody).
  { intros H. apply in_app_or in H. tauto. }
  rewrite <- app_assoc in E.
  destruct (column_quote _ Hcol) as [rest Ec].
  assert (Hne : like_clause (fst st) (snd st) <> []).
  { rewrite like_clause_ends. destruct (fst st ++ _); discriminate. }
  destruct (replace_inside (like_clause (fst st) (snd st))
              (fuzzy_clause (fst st) (snd st)) h) with
    (fuel := S (length (h ++ b ++ [";"%char]))) (post := b ++ [";"%char])
    as [post' Ep].
  { unfold like_clause. rewrite Ec. cbn [app]. apply word_clash, Hw. }
  unfold rewrite_step in E |- *.
  rewrite (replace_nonempty _ _ _ Hne) in E |- *.
  rewrite Ep in E |- *.
  destruct (exists_last (l := post')) as (b' & z & ->).
  { intros ->. rewrite app_nil_r in E. apply Hhs. rewrite E.
    apply in_or_app. right. left. reflexivity. }
  rewrite app_assoc in E. apply app_inj_tail in E as [E ->].
  exists b'. split; [reflexivity|]. intros H. apply Hbody.
  rewrite <- E. apply in_or_app. right. exact H.
Qed.

Lemma steps_statement (h : text) (steps : list (text * text)) :
  map lower h = T "select" ->
  Forall (fun st => In (map lower (fst st)) allow_list) steps ->
  forall b,
    ~ In ";"%char b ->
    exists b',
      fold_left rewrite_step steps (h ++ b ++ [";"%char])
      = h ++ b' ++ [";"%char]
      /\ ~ In ";"%char b'.
Proof.
  intros Hh. induction 1 as [|st steps Hst _ IH]; intros b Hb.
  - exists b. split; [reflexivity|exact Hb].
  - cbn [fold_left].
    destruct (rewrite_step_statement h b st Hh Hb Hst) as (b1 & -> & Hb1).
    exact (IH b1 Hb1).
Qed.

Lemma expand_statement (h b : text) :
  map lower h = T "select" -> ~ In ";"%char b ->
  exists b',
    expand_fuzzy_sql (h ++ b ++ [";"%char]) = h ++ b' ++ [";"%char]
    /\ ~ In ";"%char b'.
Proof.
  intros Hh Hb. rewrite expand_as_steps. apply steps_statement;
    [exact Hh| |exact Hb].
  apply List.Forall_forall. intros st Hst.
  apply in_map_iff in Hst as (m & <- & Hm). cbn [fst].
  exact (proj1 (hit_column _ _ Hm)).
Qed.

(** X6: when the answer of the text-to-SQL chain is made of ASCII
    characters and holds a statement that step 3 finds, what the
    endpoint hands to the query tool is one statement: it begins with
    SELECT, in some letter case, and its only semicolon is its last
    character, also after the fuzzy expansion. *)
Theorem get_outlet_info_executes_one_statement
    (generate execute : text -> result text)
    (query summary context raw : text)
    (Hraw : generate query = Ok raw)
    (Hascii : Str.isascii raw = true)
    (Hfound :
       re_search sql_statement_pattern (strip_prefix (strip_fences raw))
       <> None) :
  exists h b,
    map lower h = T "select"
    /\ ~ In ";"%char b
    /\ expand_fuzzy_sql (clean_sql_query raw) = h ++ b ++ [";"%char]
    /\ get_outlet_info (Some generate) (Some execute) query (Some summary)
         context
       = match execute (h ++ b ++ [";"%char]) with
         | Raise e =>
             HTTPException 500
               (T "Failed to retrieve outlet information: " ++ e)
         | Ok r =>
             if empty_result r then Response nothing_found else Response r
         end.
Proof.
  destruct (CleanFacts.single_statement raw Hfound) as (h & b & E & Hh & Hb).
  destruct (expand_statement h b Hh) as (b' & E' & Hb').
  { intros H. rewrite List.forallb_forall in Hb. specialize (Hb _ H).
    discriminate. }
  exists h, b'. split; [exact Hh|]. split; [exact Hb'|].
  rewrite E. split; [exact E'|].
  unfold get_outlet_info. rewrite Hraw, E, E'. reflexivity.
Qed.

Lemma get_outlet_info_executes_one_statement_witness :
  exists h b,
    map lower h = T "select"
    /\ ~ In ";"%char b
    /\ expand_fuzzy_sql
         (clean_sql_query (Examples.fenced Examples.ss2_statement_quoted))
       = h ++ b ++ [";"%char]
    /\ get_outlet_info
         (Some (Examples.always
                  (Examples.fenced Examples.ss2_statement_quoted)))
         (Some (Examples.always (T "[(1, 'SS 2')]")))
         (T "outlets in SS2") (Some []) (T "[]")
       = Response (T "[(1, 'SS 2')]").
Proof.
  destruct (get_outlet_info_executes_one_statement
              (Examples.always (Examples.fenced Examples.ss2_statement_quoted))
              (Examples.always (T "[(1, 'SS 2')]"))
              (T "outlets in SS2") [] (T "[]")
              (Examples.fenced Examples.ss2_statement_quoted) eq_refl
              eq_refl)
    as (h & b & Hh & Hb & E & Hr).
  - vm_compute. discriminate.
  - exists h, b. split; [exact Hh|]. split; [exact Hb|].
    split; [exact E|]. rewrite Hr. reflexivity.
Defined.

(** X7: the outcomes of the endpoint.  A response never carries an
    empty text nor one that holds the two characters [[]]; the status
    of an error it raises is 503 when the chain or the query tool is
    missing, and 500, with the failure in its detail, when one of
    them fails; and when the caller gives no conversation summary
    while both are ready, the line that prints the first characters
    of the summary, which stands before the [try], fails with an
    error that no handler of the endpoint turns into a status. *)
Theorem get_outlet_info_outcomes
    (generate_query execute_query : option (text -> result text))
    (query : text) (summary : option text) (context : text) :
  match
    get_outlet_info generate_query execute_query query summary context
  with
  | Response r =>
      r <> [] /\ Str.contains (T "[]") r = false
      /\ exists generate execute raw,
           generate_query = Some generate /\ execute_query = Some execute
           /\ summary <> None /\ generate query = Ok raw
           /\ exists r',
                execute (expand_fuzzy_sql (clean_sql_query raw)) = Ok r'
                /\ (r = r' \/ r = nothing_found /\ empty_result r' = true)
  | HTTPException status detail =>
      (status = 503 /\ (generate_query = None \/ execute_query = None))
      \/ (status = 500
          /\ generate_query <> None /\ execute_query <> None
          /\ summary <> None
          /\ exists e, detail = T "Failed to retrieve outlet information: " ++ e)
  | Unhandled _ =>
      summary = None /\ generate_query <> None /\ execute_query <> None
  end.
Proof.
  unfold get_outlet_info.
  destruct generate_query as [generate|]; [|left; auto].
  destruct execute_query as [execute|]; [|left; auto].
  destruct summary as [summary|]; [|repeat split; discriminate].
  assert (Hfail : forall e,
    (500 = 503
     /\ (Some generate = None \/ Some execute = None))
    \/ (500 = 500
        /\ Some generate <> None /\ Some execute <> None
        /\ Some summary <> None
        /\ exists e',
             T "Failed to retrieve outlet information: " ++ e
             = T "Failed to retrieve outlet information: " ++ e')).
  { intros e. right. repeat split; try discriminate. exists e. reflexivity. }
  destruct (generate query) as [raw|e] eqn:Eg; [|apply Hfail].
  destruct (execute _) as [r|e] eqn:Ee; [|apply Hfail].
  assert (Hfrom : forall r0,
    (r0 = r \/ r0 = nothing_found /\ empty_result r = true) ->
    exists generate0 execute0 raw0,
      Some generate = Some generate0 /\ Some execute = Some execute0
      /\ Some summary <> None /\ generate0 query = Ok raw0
      /\ exists r',
           execute0 (expand_fuzzy_sql (clean_sql_query raw0)) = Ok r'
           /\ (r0 = r' \/ r0 = nothing_found /\ empty_result r' = true)).
  { intros r0 H. exists generate, execute, raw.
    split; [reflexivity|]. split; [reflexivity|]. split; [discriminate|].
    split; [exact Eg|]. exists r. split; [exact Ee|exact H]. }
  destruct (empty_result r) eqn:Er.
  - split; [discriminate|]. split; [vm_compute; reflexivity|].
    apply Hfrom. right. split; reflexivity.
  - unfold empty_result in Er. apply orb_false_iff in Er as [Hn Hc].
    split; [intros ->; discriminate|]. split; [exact Hc|].
    apply Hfrom. left. reflexivity.
Qed.

End ExecutedFacts.

(** ** The price filter of the products endpoint *)

Module ProductsFacts.
Import Shape ReFacts StepFacts FuzzyFacts Products.

Lemma digits_literal (u : text) :
  forallb is_digit u = true ->
  forallb digit_or_point u = true
  /\ List.filter is_digit u = u
  /\ List.filter (is_chr ".") u = [].
Proof.
  induction u as [|a u IH]; [repeat split|]. cbn [forallb]. intros H.
  apply andb_true_iff in H as [Ha H]. destruct (IH H) as (H1 & H2 & H3).
  unfold digit_or_point at 1. cbn [List.filter]. rewrite Ha, H1, H2, H3.
  cbn [orb andb]. repeat split.
  destruct (is_chr "." a) eqn:E; [|reflexivity].
  unfold is_chr in E. apply Ascii.eqb_eq in E. subst a. discriminate.
Qed.

Lemma point_ci (a : ascii) : is_ci "." a = true -> a = "."%char.
Proof.
  destruct a as [[] [] [] [] [] [] [] []]; vm_compute; congruence.
Qed.

(** The shape of the text that the amount of a price pattern
    captures: digits, or digits, a point and digits. *)
Lemma numeral_literal (d1 d2 : text) (a : ascii) :
  is_digit a = true -> forallb is_digit d1 = true ->
  forallb is_digit d2 = true ->
  float_literal (a :: d1) = true
  /\ float_literal ((a :: d1) ++ "."%char :: d2) = true.
Proof.
  intros Ha H1 H2.
  destruct (digits_literal (a :: d1)) as (A1 & A2 & A3).
  { cbn [forallb]. rewrite Ha, H1. reflexivity. }
  destruct (digits_literal d2 H2) as (B1 & B2 & B3).
  unfold float_literal. split.
  - rewrite A1, A2, A3. reflexivity.
  - rewrite List.forallb_app, !List.filter_app, A1, A2, A3.
    cbn [forallb List.filter]. rewrite B1, B3.
    change (digit_or_point ".") with true.
    change (is_digit ".") with false. change (is_chr "." ".") with true.
    cbn. reflexivity.
Qed.

Lemma amount_inv {R : Type} (n : nat) (K : cont (R := R)) p s c x :
  rmatch (amount n) K p s c = Some x ->
  exists u s' new,
    s = u ++ s' /\ float_literal u = true
    /\ Forall (fun e => fst e = S n) new
    /\ K (prev_after p u) s' ((n, u) :: new ++ c) = Some x.
Proof.
  unfold amount, Plus. cbn [rmatch]. intros H.
  destruct s as [|a s]; [discriminate|].
  destruct (is_digit a) eqn:Ea; [|discriminate].
  destruct (star_greedy_inv _ _ _ _ _ _ H) as (d1 & s1 & -> & Hd1 & H1).
  clear H. cbn [prev_after] in H1.
  match type of H1 with
  | orelse ?A _ = _ => destruct A as [y|] eqn:E1
  end; cbn [orelse] in H1.
  - rewrite H1 in E1. clear H1.
    destruct (lit_ci_inv _ _ _ _ _ _ E1) as (h & s2 & -> & Hh & H2).
    clear E1. destruct h as [|pt [|]]; try discriminate.
    cbn [map] in Hh. injection Hh as Hpt.
    assert (Ept : pt = "."%char).
    { apply point_ci. unfold is_ci. rewrite Hpt. reflexivity. }
    subst pt. cbn [app] in H2 |- *.
    destruct s2 as [|b s2]; [discriminate|]. cbn beta iota in H2.
    destruct (is_digit b) eqn:Eb; [|discriminate].
    destruct (star_greedy_inv _ _ _ _ _ _ H2) as (d2 & s3 & -> & Hd2 & H3).
    clear H2. cbn beta in H3.
    exists ((a :: d1) ++ "."%char :: b :: d2), s3.
    eexists [ (S n, _) ]. split; [|split; [|split]].
    + rewrite <- !app_assoc. reflexivity.
    + apply numeral_literal; [exact Ea|exact Hd1|].
      cbn [forallb]. rewrite Eb, Hd2. reflexivity.
    + constructor; [reflexivity|constructor].
    + cbn [app].
      assert (Ep : prev_after p (a :: d1 ++ "."%char :: b :: d2)
                   = prev_after (Some b) d2).
      { cbn [prev_after]. rewrite prev_after_app. reflexivity. }
      rewrite Ep.
      replace (firstn _ (a :: d1 ++ "."%char :: b :: d2 ++ s3))
        with ((a :: d1) ++ "."%char :: b :: d2) in H3.
      * exact H3.
      * symmetry. apply firstn_consumed_eq.
        rewrite <- !app_assoc. reflexivity.
  - exists (a :: d1), s1, [].
    split; [reflexivity|]. split.
    + exact (proj1 (numeral_literal d1 [] a Ea Hd1 eq_refl)).
    + split; [constructor|]. cbn [app].
      replace (firstn _ (a :: d1 ++ s1)) with (a :: d1) in H1.
      * exact H1.
      * symmetry. apply (firstn_consumed_eq (a :: d1) s1). reflexivity.
Qed.

Lemma groups_apart (n : nat) (l : list nat) (new : caps) :
  ~ In n l -> Forall (fun e => In (fst e) l) new ->
  Forall (fun e => fst e <> n) new.
Proof.
  intros Hn H. eapply List.Forall_impl; [|exact H].
  intros e He. cbn beta in He |- *. intros E. rewrite E in He. exact (Hn He).
Qed.

Lemma fraction_apart (n k : nat) (new : caps) :
  S k <> n -> Forall (fun e => fst e = S k) new ->
  Forall (fun e => fst e <> n) new.
Proof.
  intros Hn H. eapply List.Forall_impl; [|exact H].
  intros e He. cbn beta in He |- *. congruence.
Qed.

(** Where the below or the above pattern matches, group 3 is a text
    that [float] accepts. *)
Lemma one_amount_hit (word : regex) (p : option ascii) (s : text)
    (m : found) :
  match_here (Sql.cats [ word; currency 2; amount 3 ]) p s = Some m ->
  float_literal (group_or_empty 3 m) = true.
Proof.
  unfold match_here. cbn [Sql.cats rmatch]. intros H.
  destruct (rmatch_inv _ _ _ _ _ _ H) as (u1 & s1 & n1 & -> & _ & H1).
  clear H. cbn beta in H1.
  destruct (rmatch_inv _ _ _ _ _ _ H1) as (u2 & s2 & n2 & -> & _ & H2).
  clear H1. cbn beta in H2.
  destruct (amount_inv _ _ _ _ _ _ H2) as (u & s3 & new & -> & Hu & Hnew & H3).
  clear H2. cbn beta in H3. injection H3 as <-.
  unfold group_or_empty. cbn [m_caps].
  cbn [group Nat.eqb]. exact Hu.
Qed.

Lemma below_hit (p : option ascii) (s : text) (m : found) :
  match_here price_below_pattern p s = Some m ->
  float_literal (group_or_empty 3 m) = true.
Proof. apply one_amount_hit. Qed.

Lemma above_hit (p : option ascii) (s : text) (m : found) :
  match_here price_above_pattern p s = Some m ->
  float_literal (group_or_empty 3 m) = true.
Proof. apply one_amount_hit. Qed.

Lemma between_hit (p : option ascii) (s : text) (m : found) :
  match_here price_between_pattern p s = Some m ->
  float_literal (group_or_empty 3 m) = true
  /\ float_literal (group_or_empty 7 m) = true.
Proof.
  unfold match_here, price_between_pattern. cbn [Sql.cats rmatch].
  intros H.
  destruct (rmatch_inv _ _ _ _ _ _ H) as (u1 & s1 & n1 & -> & _ & H1).
  clear H. cbn beta in H1.
  destruct (rmatch_inv _ _ _ _ _ _ H1) as (u2 & s2 & n2 & -> & _ & H2).
  clear H1. cbn beta in H2.
  destruct (amount_inv _ _ _ _ _ _ H2)
    as (u3 & s3 & new4 & -> & Hu3 & Hnew4 & H3).
  clear H2.
  destruct (star_greedy_inv _ _ _ _ _ _ H3) as (w & s4 & -> & _ & H4).
  clear H3.
  destruct (rmatch_inv _ _ _ _ _ _ H4) as (u5 & s5 & n5 & -> & F5 & H5).
  clear H4. cbn beta in H5.
  destruct (rmatch_inv _ _ _ _ _ _ H5) as (u6 & s6 & n6 & -> & F6 & H6).
  clear H5. cbn beta in H6.
  destruct (amount_inv _ _ _ _ _ _ H6)
    as (u7 & s7 & new8 & -> & Hu7 & Hnew8 & H7).
  clear H6. cbn beta in H7. injection H7 as <-.
  unfold group_or_empty. cbn [m_caps]. split.
  - cbn [group Nat.eqb].
    rewrite group_skip
      by (apply (fraction_apart 3 7); [discriminate|exact Hnew8]).
    rewrite group_skip
      by (apply (groups_apart 3 (groups_of (currency 6)));
          [cbn; intuition discriminate|exact F6]).
    cbn [group Nat.eqb].
    rewrite group_skip
      by (eapply (groups_apart 3); [|exact F5]; cbn; intuition discriminate).
    cbn [group Nat.eqb]. exact Hu3.
  - cbn [group Nat.eqb]. exact Hu7.
Qed.

Lemma search_hit (r : regex) (s : text) (m : found) :
  re_search r s = Some m ->
  exists p s', match_here r p s' = Some m.
Proof.
  intros H. destruct (search_from_hit _ _ _ _ H) as (pre & s' & _ & Hm).
  eauto.
Qed.

Section Filter.
Variable float : Type.
Variable py_float : text -> option float.
Variable float_ge float_le : float -> float -> bool.

Lemma keep_priced_filter (min_price max_price : option float) :
  forall docs acc,
    fold_left (keep_priced float float_ge float_le min_price max_price)
      docs acc
    = acc ++ List.filter (priced_within float float_ge float_le min_price max_price) docs.
Proof.
  induction docs as [|d docs IH]; intros acc; cbn [fold_left List.filter].
  - rewrite app_nil_r. reflexivity.
  - rewrite IH. unfold keep_priced, priced_within.
    destruct (price_float float d) as [v|]; [|reflexivity].
    destruct (within _ _ _ _ _ v); [|reflexivity].
    rewrite <- app_assoc. reflexivity.
Qed.

Lemma filter_docs_spec (min_price max_price : option float)
    (docs : list (Document float)) :
  filter_docs float float_ge float_le min_price max_price docs
  = match min_price, max_price with
    | None, None => docs
    | _, _ => List.filter (priced_within float float_ge float_le min_price max_price) docs
    end.
Proof.
  unfold filter_docs.
  destruct min_price, max_price; try reflexivity;
    apply (keep_priced_filter _ _ docs []).
Qed.

Lemma float_of_group_ok (n : nat) (m : found) :
  (forall s, float_literal s = true -> py_float s <> None) ->
  float_literal (group_or_empty n m) = true ->
  exists v, float_of_group float py_float n m = Ok v.
Proof.
  intros Hf Hl. unfold float_of_group.
  destruct (py_float (group_or_empty n m)) as [v|] eqn:E; [eauto|].
  exfalso. exact (Hf _ Hl E).
Qed.

Lemma price_bounds_ok (query : text) :
  (forall s, float_literal s = true -> py_float s <> None) ->
  exists min_price max_price,
    price_bounds float py_float query = Ok (min_price, max_price).
Proof.
  intros Hf. unfold price_bounds.
  destruct (re_search price_below_pattern query) as [m|] eqn:Eb.
  { destruct (search_hit _ _ _ Eb) as (p & s' & Hm).
    destruct (float_of_group_ok 3 m Hf (below_hit _ _ _ Hm)) as [v ->].
    eauto. }
  destruct (re_search price_above_pattern query) as [m|] eqn:Ea.
  { destruct (search_hit _ _ _ Ea) as (p & s' & Hm).
    destruct (float_of_group_ok 3 m Hf (above_hit _ _ _ Hm)) as [v ->].
    eauto. }
  destruct (re_search price_between_pattern query) as [m|] eqn:Ew;
    [|eauto].
  destruct (search_hit _ _ _ Ew) as (p & s' & Hm).
  destruct (between_hit _ _ _ Hm) as [H3 H7].
  destruct (float_of_group_ok 3 m Hf H3) as [lo ->].
  destruct (float_of_group_ok 7 m Hf H7) as [hi ->].
  eauto.
Qed.

Lemma strip_non_numeric (fuel : nat) :
  forall p s,
    length s < fuel ->
    flat_map (emit []) (scan_loop fuel non_numeric_pattern p s)
    = List.filter digit_or_point s.
Proof.
  induction fuel as [|fuel IH]; intros p s Hlen; [lia|].
  destruct s as [|a s]; [reflexivity|].
  assert (Hm : match_here non_numeric_pattern p (a :: s)
               = if digit_or_point a then None
                 else Some (Found p [a] (Some a) s [])).
  { unfold match_here, non_numeric_pattern. cbn [rmatch].
    destruct (digit_or_point a); [reflexivity|]. cbn [negb length].
    replace (S (length s) - length s) with 1 by lia. reflexivity. }
  cbn [scan_loop List.filter]. rewrite Hm. cbn in Hlen.
  destruct (digit_or_point a); cbn [m_text m_last m_rest].
  - cbn [flat_map emit app]. f_equal. apply IH. lia.
  - cbn [flat_map emit expand app]. apply IH. lia.
Qed.

(** The ingestion keeps the digits and the points of a price text,
    in their order. *)
Lemma numeric_part (raw_price : text) :
  re_sub non_numeric_pattern [] raw_price
  = List.filter digit_or_point raw_price.
Proof.
  unfold re_sub, scan. apply strip_non_numeric. lia.
Qed.

Lemma filter_digit_or_point (s : text) :
  forallb digit_or_point (List.filter digit_or_point s) = true
  /\ List.filter is_digit (List.filter digit_or_point s)
     = List.filter is_digit s
  /\ List.filter (is_chr ".") (List.filter digit_or_point s)
     = List.filter (is_chr ".") s.
Proof.
  induction s as [|a s (IH1 & IH2 & IH3)]; [repeat split|].
  cbn [List.filter]. destruct (digit_or_point a) eqn:E.
  - cbn [forallb List.filter]. rewrite E, IH1, IH2, IH3. repeat split.
  - unfold digit_or_point in E. apply orb_false_iff in E as [Ed Ep].
    rewrite Ed, Ep. repeat split; assumption.
Qed.

Lemma float_literal_numeric (raw_price : text) :
  float_literal (List.filter digit_or_point raw_price) = false
  <-> List.filter is_digit raw_price = []
      \/ 2 <= length (List.filter (is_chr ".") raw_price).
Proof.
  unfold float_literal.
  destruct (filter_digit_or_point raw_price) as (-> & -> & ->).
  cbn [andb].
  destruct (List.filter is_digit raw_price) as [|d ds]; cbn [nonempty andb].
  - split; [auto|reflexivity].
  - destruct (Nat.leb_spec (length (List.filter (is_chr ".") raw_price)) 1).
    + split; [discriminate|]. intros [H0|H0]; [discriminate|lia].
    + split; [intros _; right; lia|reflexivity].
Qed.

(** X8: the amounts that the three price patterns capture are texts
    that [float] accepts, so the conversions, which stand before the
    [try], cannot fail; the errors that escape the handler of the
    endpoint come from [json.loads] raising something else than
    [JSONDecodeError], from a request without conversation summary
    and from a context that decodes to a value without slices. *)
Theorem get_product_summary_amounts_convert
    (json_loads : text -> decoding) (slice_error : json -> text)
    (product_kb :
       option ((text -> result (list (Document float)))
               * (list (Document float) -> text -> text -> json
                  -> result text)))
    (query : text) (long_term_summary : option text)
    (retrieved_context : text)
    (Hfloat : forall s, float_literal s = true -> py_float s <> None) :
  (exists min_price max_price,
     price_bounds float py_float query = Ok (min_price, max_price))
  /\ forall e,
       get_product_summary float py_float float_ge float_le json_loads
         slice_error product_kb query long_term_summary retrieved_context
       = Unhandled e ->
       (retrieved_context <> [] /\ json_loads retrieved_context = OtherError e)
       \/ long_term_summary = None
       \/ exists v,
            context_list json_loads retrieved_context = Ok v
            /\ sliceable v = false /\ e = slice_error v.
Proof.
  destruct (price_bounds_ok query Hfloat) as (lo & hi & Eb).
  split; [eauto|]. intros e. unfold get_product_summary. rewrite Eb.
  destruct product_kb as [[retriever chain]|]; [|discriminate].
  destruct (context_list json_loads retrieved_context) as [v|e'] eqn:Ec.
  - destruct long_term_summary as [summary|]; [|auto].
    destruct (sliceable v) eqn:Es.
    + destruct (retriever query) as [docs|]; [|discriminate].
      destruct (nonempty _); [|discriminate].
      destruct (chain _ _ _ _); discriminate.
    + intros H. injection H as <-. right. right. exists v. auto.
  - intros H. injection H as ->. left. unfold context_list in Ec.
    destruct retrieved_context as [|a t]; [discriminate|].
    split; [discriminate|]. cbn [nonempty] in Ec.
    destruct (json_loads (a :: t)); congruence.
Qed.

(** X9: with the bounds that the query gives, the documents handed
    to the chain are the retrieved ones when there is no bound, and
    otherwise, in their order, the retrieved ones that carry a price
    between the bounds: a document without price is then left out.
    When none is left the chain is not called and the answer is the
    fixed no-product text. *)
Theorem get_product_summary_price_filter
    (json_loads : text -> decoding) (slice_error : json -> text)
    (product_retriever : text -> result (list (Document float)))
    (product_rag_chain :
       list (Document float) -> text -> text -> json -> result text)
    (query summary retrieved_context : text)
    (retrieved_context_list : json)
    (min_price max_price : option float)
    (retrieved_docs : list (Document float))
    (Hcontext :
       context_list json_loads retrieved_context = Ok retrieved_context_list)
    (Hslice : sliceable retrieved_context_list = true)
    (Hbounds : price_bounds float py_float query = Ok (min_price, max_price))
    (Hdocs : product_retriever query = Ok retrieved_docs) :
  let kept :=
    match min_price, max_price with
    | None, None => retrieved_docs
    | _, _ =>
        List.filter
          (priced_within float float_ge float_le min_price max_price)
          retrieved_docs
    end in
  get_product_summary float py_float float_ge float_le json_loads
    slice_error (Some (product_retriever, product_rag_chain))
    query (Some summary) retrieved_context
  = match kept with
    | [] => Summary no_product
    | _ :: _ =>
        match
          product_rag_chain kept query summary retrieved_context_list
        with
        | Ok response => Summary response
        | Raise e => failed e
        end
    end.
Proof.
  intros kept. unfold get_product_summary.
  rewrite Hcontext, Hslice, Hbounds, Hdocs, filter_docs_spec. fold kept.
  destruct kept; reflexivity.
Qed.

(** X10: for a price text of ASCII characters, the ingestion stores
    no price for a product exactly when its price text holds no digit
    or more than one point, as a range of two prices does; such a
    product is never among the documents that a query with a price
    bound hands to the chain. *)
Theorem unpriced_product_is_filtered_out
    (raw_price : text)
    (Hascii : Str.isascii raw_price = true)
    (Hfloat :
       forall s, forallb digit_or_point s = true ->
                 (py_float s = None <-> float_literal s = false)) :
  (price_value float py_float raw_price = None
   <-> List.filter is_digit raw_price = []
       \/ 2 <= length (List.filter (is_chr ".") raw_price))
  /\ forall (doc : Document float) (docs : list (Document float))
            (min_price max_price : option float),
       price_float float doc = price_value float py_float raw_price ->
       price_value float py_float raw_price = None ->
       min_price <> None \/ max_price <> None ->
       ~ In doc (filter_docs float float_ge float_le min_price max_price docs).
Proof.
  split.
  - unfold price_value. rewrite numeric_part.
    rewrite (Hfloat _ (proj1 (filter_digit_or_point raw_price))).
    apply float_literal_numeric.
  - intros doc docs lo hi Hdoc Hnone Hb. rewrite filter_docs_spec.
    assert (Hf : ~ In doc
      (List.filter (priced_within float float_ge float_le lo hi) docs)).
    { intros H. apply List.filter_In in H as [_ H].
      unfold priced_within in H. rewrite Hdoc, Hnone in H. discriminate. }
    destruct lo, hi; try exact Hf. destruct Hb; congruence.
Qed.

End Filter.

Lemma literal_float_accepts (s : text) :
  float_literal s = true -> literal_float s <> None.
Proof. unfold literal_float. intros ->. discriminate. Qed.

Lemma literal_float_exact (s : text) :
  forallb digit_or_point s = true ->
  (literal_float s = None <-> float_literal s = false).
Proof.
  intros _. unfold literal_float. destruct (float_literal s); split;
    congruence.
Qed.

Lemma get_product_summary_amounts_convert_witness :
  price_bounds text literal_float (T "tumblers under RM 55.90 please")
  = Ok (None, Some (T "55.90")).
Proof.
  destruct (get_product_summary_amounts_convert text literal_float
              longer_or_equal shorter_or_equal (fun _ => Decoded (JArray []))
              (fun _ => []) None (T "tumblers under RM 55.90 please")
              None [] literal_float_accepts)
    as [(lo & hi & E) _].
  rewrite E. vm_compute in E. injection E as <- <-. reflexivity.
Defined.

Lemma get_product_summary_price_filter_witness :
  get_product_summary text literal_float longer_or_equal shorter_or_equal
    (fun _ => Decoded (JArray [])) (fun _ => [])
    (Some (Samples.always_docs, Samples.echo_chain))
    (T "cups below 100") (Some []) (T "[]")
  = Summary (T "Mug").
Proof.
  rewrite (get_product_summary_price_filter text literal_float
             longer_or_equal shorter_or_equal (fun _ => Decoded (JArray []))
             (fun _ => [])
             Samples.always_docs Samples.echo_chain
             (T "cups below 100") [] (T "[]") (JArray []) None
             (Some (T "100"))
             Samples.three_docs eq_refl eq_refl eq_refl eq_refl).
  reflexivity.
Defined.

Lemma unpriced_product_is_filtered_out_witness :
  price_value text literal_float (T "RM10.50 - RM20.00") = None
  /\ price_value text literal_float (T "RM 55.00") = Some (T "55.00").
Proof.
  pose proof (unpriced_product_is_filtered_out text literal_float
                longer_or_equal shorter_or_equal (T "RM10.50 - RM20.00")
                eq_refl literal_float_exact) as [H _].
  split; [|reflexivity]. apply H. right. vm_compute. lia.
Defined.

End ProductsFacts.

(** ** The planner, the routing and the memory arguments of the tools *)

Module PlannerFacts.
Import Graph Planner.

(** X11: the planner routes to the tool executor exactly when the
    answer of the model carries tool calls, and to the response
    generator when it carries none; after a routing to the executor,
    on any state whose last turn is the planner's, the executor
    returns one tool-result turn per call and never its
    no-tool-call error. *)
Theorem planner_node_routing
    (tool_description : Tool -> text)
    (planner_chain :
       list Message -> text -> text -> text -> result (text * list ToolCall))
    (state : GraphState) (tools_list : list Tool) (update : planned)
    (Hplan :
       planner_node tool_description planner_chain state tools_list
       = Ok update) :
  exists content tool_calls,
    planned_messages update = [ AIMessage content tool_calls ]
    /\ (tool_calls = [] ->
        next_node planner (planned_next_action_type update)
        = Some chat_response_generator)
    /\ (tool_calls <> [] ->
        next_node planner (planned_next_action_type update)
        = Some tool_executor
        /\ forall (tools : list Tool) (state' : GraphState),
             last (messages state') = Some (AIMessage content tool_calls) ->
             exists done,
               tool_executor_node tools state' = Ok done
               /\ length (new_messages done) = length tool_calls
               /\ forall m, In m (new_messages done) ->
                            exists c id, m = ToolMessage c id).
Proof.
  unfold planner_node in Hplan.
  destruct (planner_chain _ _ _ _) as [[content calls]|e]; [|discriminate].
  exists content, calls. destruct calls as [|tc calls];
    injection Hplan as <-; cbn [planned_messages planned_next_action_type];
    (split; [reflexivity|]); split; try congruence; try reflexivity.
  intros _. split; [reflexivity|]. intros tools state' Hlast.
  eexists. split.
  - apply (GraphFacts.tool_executor_node_steps _ _ _ _ Hlast). discriminate.
  - cbn [new_messages]. split; [rewrite !length_map; reflexivity|].
    intros m Hm. rewrite map_map in Hm.
    apply in_map_iff in Hm as (tc' & <- & _). unfold run_tool_call.
    destruct (find_tool tools (tc_name tc')) as [t|]; cbn [snd];
      [destruct (tool_invoke t _)|]; eauto.
Qed.

Lemma planner_node_routing_witness :
  exists content tool_calls,
    planned_messages
      {| planned_messages :=
           [ AIMessage [] [ Examples.call "calculator" "call_1" ] ];
         planned_next_action_type := T "tool_call";
         planned_intent := T "tool_call_detected" |}
    = [ AIMessage content tool_calls ]
    /\ tool_calls <> []
    /\ next_node planner (T "tool_call") = Some tool_executor.
Proof.
  destruct (planner_node_routing (fun _ => [])
              (fun _ _ _ _ => Ok ([], [ Examples.call "calculator" "call_1" ]))
              (Examples.state_of [ HumanMessage (T "2+2?") ])
              [ Examples.adder ] _ eq_refl)
    as (content & calls & E & _ & H).
  exists content, calls. split; [exact E|].
  injection E as <- <-. split; [discriminate|].
  apply H. discriminate.
Defined.

Lemma actual_tool_args_lookup (t : Tool) (args : gmap string Value)
    (summary : text) (context : list text) :
  actual_tool_args t args summary context !! "long_term_summary"%string
  = (if has_parameter t "long_term_summary" then Some (VStr summary)
     else args !! "long_term_summary"%string)
  /\ actual_tool_args t args summary context !! "retrieved_context"%string
     = (if has_parameter t "retrieved_context" then Some (VList context)
        else args !! "retrieved_context"%string)
  /\ forall k : string,
       k <> "long_term_summary"%string -> k <> "retrieved_context"%string ->
       actual_tool_args t args summary context !! k = args !! k.
Proof.
  unfold actual_tool_args.
  destruct (has_parameter t "long_term_summary");
    destruct (has_parameter t "retrieved_context");
    repeat split; intros;
    repeat first
      [ rewrite lookup_insert_eq
      | rewrite lookup_insert_ne by congruence ];
    reflexivity.
Qed.

(** X12: what a tool receives.  When its signature declares the
    summary or the context, the executor puts the value of the state
    under that name, the empty text or list when the state has none,
    whatever the planner's call gave for it; an argument that the
    signature does not declare, and every other argument, is passed
    as the call gave it. *)
Theorem tool_executor_node_memory_arguments
    (tools : list Tool) (state : GraphState)
    (content : text) (calls : list ToolCall)
    (Hlast : last (messages state) = Some (AIMessage content calls))
    (Hcalls : calls <> []) :
  exists done,
    tool_executor_node tools state = Ok done
    /\ forall name args,
         In (name, args) (invocations done) ->
         exists tc t,
           In tc calls /\ find_tool tools (tc_name tc) = Some t
           /\ name = tool_name t
           /\ args !! "long_term_summary"%string
              = (if has_parameter t "long_term_summary"
                 then Some (VStr (default [] (long_term_summary state)))
                 else tc_args tc !! "long_term_summary"%string)
           /\ args !! "retrieved_context"%string
              = (if has_parameter t "retrieved_context"
                 then Some (VList (default [] (retrieved_context state)))
                 else tc_args tc !! "retrieved_context"%string)
           /\ forall k : string,
                k <> "long_term_summary"%string ->
                k <> "retrieved_context"%string ->
                args !! k = tc_args tc !! k.
Proof.
  eexists. split;
    [apply (GraphFacts.tool_executor_node_steps _ _ _ _ Hlast Hcalls)|].
  cbn [invocations]. intros name args Hin.
  apply list_elem_of_In, list_elem_of_omap in Hin as (step & Hstep & Hfst).
  apply list_elem_of_In, in_map_iff in Hstep as (tc & <- & Htc).
  unfold run_tool_call in Hfst.
  destruct (find_tool tools (tc_name tc)) as [t|] eqn:Et; [|discriminate].
  cbn [fst] in Hfst. injection Hfst as <- <-.
  exists tc, t. split; [exact Htc|]. split; [exact Et|].
  split; [reflexivity|]. apply actual_tool_args_lookup.
Qed.

Lemma tool_executor_node_memory_arguments_witness :
  exists done,
    tool_executor_node [ Examples.adder; Examples.failing ]
      Examples.mixed_calls = Ok done
    /\ forall name args,
         In (name, args) (invocations done) ->
         name = "get_outlet_details"%string ->
         args !! "long_term_summary"%string = Some (VStr []).
Proof.
  destruct (tool_executor_node_memory_arguments
              [ Examples.adder; Examples.failing ] Examples.mixed_calls
              [] [ Examples.call "calculator" "call_1";
                   Examples.call "get_outlet_details" "call_2";
                   Examples.call "weather" "call_3" ] eq_refl)
    as (done & E & H); [discriminate|].
  exists done. split; [exact E|]. intros name args Hin Hname.
  destruct (H name args Hin) as (tc & t & Htc & Ht & -> & Hs & _).
  rewrite Hs. cbn in Htc. destruct Htc as [<-|[<-|[<-|[]]]];
    cbn in Ht; try discriminate; injection Ht as <-;
    [discriminate Hname|reflexivity].
Defined.

Lemma join_empty (sep : text) (l : list text) :
  sep <> [] -> Str.join sep l = [] -> l = [] \/ l = [ [] ].
Proof.
  intros Hsep H. destruct l as [|x [|y l]]; cbn [Str.join] in H; auto.
  - right. rewrite H. reflexivity.
  - exfalso. apply app_eq_nil in H as [_ H].
    apply app_eq_nil in H as [H _]. exact (Hsep H).
Qed.

(** X13: the context text of the fallback chat node and that of the
    response generator.  With no snippet each puts its own fixed
    text; with the empty text as only snippet, as the first entry of
    the index is, the generator passes the empty text and the
    fallback node its fixed text; in every other case both pass the
    snippets joined by line feeds. *)
Theorem fallback_context_and_generator_context (state : GraphState) :
  match default [] (retrieved_context state) with
  | [] =>
      retrieved_context_str state = T "No relevant past context found."
      /\ fallback_context state = T "No relevant context."
  | [ [] ] =>
      retrieved_context_str state = []
      /\ fallback_context state = T "No relevant context."
  | l =>
      retrieved_context_str state = Str.join [nl] l
      /\ fallback_context state = Str.join [nl] l
      /\ Str.join [nl] l <> []
  end.
Proof.
  unfold retrieved_context_str, fallback_context.
  destruct (default [] (retrieved_context state)) as [|x [|y l]] eqn:E.
  - split; reflexivity.
  - destruct x as [|a x]; [split; reflexivity|].
    repeat split. discriminate.
  - assert (Hne : Str.join [nl] (x :: y :: l) <> []).
    { intros H. apply join_empty in H as [H|H]; discriminate. }
    destruct x as [|a x];
      (split; [reflexivity|]); (split; [|exact Hne]);
      destruct (Str.join [nl] (_ :: y :: l)); congruence.
Qed.

End PlannerFacts.

(** ** The memory node before the retrieval node *)

Module MemoryFlow.
Import Memory MemoryFacts.

Lemma skipn_snoc {A : Type} (n : nat) (l : list A) (x : A) :
  n <= length l -> skipn n (l ++ [x]) = skipn n l ++ [x].
Proof.
  intros H. rewrite skipn_app.
  replace (n - length l) with 0 by lia. reflexivity.
Qed.

Lemma manage_memory_node_result
    (summary_chain : list Message -> text -> result text)
    (state state' : GraphState) (vectorstore vectorstore' : list text) :
  manage_memory_node summary_chain state vectorstore
  = Ok (state', vectorstore') ->
  (state' = state /\ vectorstore' = vectorstore
   /\ length (conversational (messages state)) <= 10)
  \/ (10 < length (conversational (messages state))
      /\ exists reply,
           messages state'
           = system_messages (messages state)
               ++ skipn 5 (conversational (messages state))
           /\ long_term_summary state' = Some (Str.strip reply)
           /\ vectorstore'
              = if nonempty (Str.strip reply)
                then vectorstore ++ [ Str.strip reply ]
                else vectorstore).
Proof.
  unfold manage_memory_node, MAX_RECENT_MESSAGES,
    MESSAGES_TO_SUMMARIZE_PER_BATCH.
  destruct (Nat.ltb_spec 10 (length (conversational (messages state))))
    as [Hlt|Hle].
  - destruct (summary_chain _ _) as [reply|e]; [|discriminate].
    intros H. injection H as <- <-. right. split; [exact Hlt|].
    exists reply. repeat split.
  - intros H. injection H as <- <-. left. auto.
Qed.

(** X14: the memory node never evicts the newest turn.  When the
    last turn of the state is the user's, it is still the last turn
    after the node, evicting or not, and the retrieval node that
    follows searches with its text, in the index as the memory node
    left it. *)
Theorem manage_memory_node_keeps_newest_question
    (summary_chain : list Message -> text -> result text)
    (similarity_search : list text -> text -> nat -> list text)
    (state state' : GraphState) (vectorstore vectorstore' : list text)
    (c : text)
    (Hlast : last (messages state) = Some (HumanMessage c))
    (Hnode :
       manage_memory_node summary_chain state vectorstore
       = Ok (state', vectorstore')) :
  last (messages state') = Some (HumanMessage c)
  /\ last_human_input (messages state') = c
  /\ retrieved_context
       (retrieve_long_term_memory_node similarity_search state' vectorstore')
     = Some (if nonempty c && (1 <? length vectorstore')
             then similarity_search vectorstore' c 3
             else []).
Proof.
  assert (Hkept : exists pre, messages state' = pre ++ [ HumanMessage c ]).
  { apply last_Some in Hlast as [pre Hpre].
    destruct (manage_memory_node_result _ _ _ _ _ Hnode)
      as [(-> & _ & _)|(Hlt & reply & Hm & _ & _)]; [eauto|].
    assert (Hc : conversational (pre ++ [ HumanMessage c ])
                 = conversational pre ++ [ HumanMessage c ])
      by (rewrite conversational_app; reflexivity).
    rewrite Hm, Hpre, Hc. rewrite Hpre, Hc, length_app in Hlt.
    cbn [length] in Hlt. rewrite skipn_snoc by lia.
    eexists. rewrite app_assoc. reflexivity. }
  destruct Hkept as [pre Hpre].
  assert (Hq : last_human_input (messages state') = c).
  { rewrite Hpre. exact (last_human_input_latest pre [] c eq_refl). }
  split; [rewrite Hpre; apply last_snoc|]. split; [exact Hq|].
  unfold retrieve_long_term_memory_node. cbn [retrieved_context].
  rewrite Hq. reflexivity.
Qed.

Lemma manage_memory_node_keeps_newest_question_witness :
  exists state' vectorstore',
    manage_memory_node Examples.fixed_summary Examples.eleven_turns
      vectorstore_init = Ok (state', vectorstore')
    /\ retrieved_context
         (retrieve_long_term_memory_node Examples.first_k state'
            vectorstore')
       = Some [ []; T "The user said hello." ].
Proof.
  eexists _, _. split; [reflexivity|].
  destruct (manage_memory_node_keeps_newest_question
              Examples.fixed_summary Examples.first_k Examples.eleven_turns
              _ vectorstore_init _ (T "turn 9") eq_refl eq_refl)
    as (_ & _ & H).
  refine (eq_trans H _). reflexivity.
Defined.

(** X15: the index only grows, by at most one entry per call, at
    its end; the entry added is the new summary of the state, and it
    is neither empty nor bordered by white space. *)
Theorem manage_memory_node_index_grows
    (summary_chain : list Message -> text -> result text)
    (state state' : GraphState) (vectorstore vectorstore' : list text)
    (Hnode :
       manage_memory_node summary_chain state vectorstore
       = Ok (state', vectorstore')) :
  vectorstore' = vectorstore
  \/ exists new_summary,
       vectorstore' = vectorstore ++ [ new_summary ]
       /\ long_term_summary state' = Some new_summary
       /\ new_summary <> []
       /\ Str.strip new_summary = new_summary
       /\ 10 < length (conversational (messages state)).
Proof.
  destruct (manage_memory_node_result _ _ _ _ _ Hnode)
    as [(_ & -> & _)|(Hlt & reply & _ & Hs & ->)]; [left; reflexivity|].
  destruct (Str.strip reply) as [|a r] eqn:E; [left; reflexivity|].
  right. exists (a :: r). split; [reflexivity|]. split; [exact Hs|].
  split; [discriminate|]. split; [|exact Hlt].
  rewrite <- E. apply LinesFacts.strip_idempotent.
Qed.

Lemma manage_memory_node_index_grows_witness :
  exists state',
    manage_memory_node Examples.fixed_summary Examples.eleven_turns
      vectorstore_init
    = Ok (state', [ []; T "The user said hello." ]).
Proof.
  eexists.
  destruct (manage_memory_node_index_grows Examples.fixed_summary
              Examples.eleven_turns _ vectorstore_init _ eq_refl)
    as [H|(x & H & _)]; [discriminate H|].
  reflexivity.
Defined.

End MemoryFlow.

(** ** The scrapers and the outlet database *)

Module ScrapersFacts.
Import Products Scrapers.

Lemma text_eqb_eq (s t : text) : Str.text_eqb s t = true <-> s = t.
Proof.
  revert t. induction s as [|a s IH]; intros [|b t]; cbn [Str.text_eqb];
    try (split; [discriminate|discriminate]); [split; reflexivity|].
  rewrite andb_true_iff, Ascii.eqb_eq, IH. split.
  - intros [-> ->]. reflexivity.
  - intros E. injection E as -> ->. auto.
Qed.

Lemma text_eqb_refl (s : text) : Str.text_eqb s s = true.
Proof. apply text_eqb_eq. reflexivity. Qed.

Lemma existsb_text (v : text) (l : list text) :
  existsb (Str.text_eqb v) l = true <-> In v l.
Proof.
  rewrite List.existsb_exists. split.
  - intros (x & Hx & E). apply text_eqb_eq in E. subst x. exact Hx.
  - intros H. exists v. split; [exact H|apply text_eqb_refl].
Qed.

Lemma distinct_in (v : text) (l : list text) : In v (distinct l) <-> In v l.
Proof.
  induction l as [|x l IH]; [reflexivity|]. cbn [distinct].
  destruct (existsb (Str.text_eqb x) l) eqn:E.
  - rewrite IH. apply existsb_text in E. split; [right; assumption|].
    intros [<-|H]; assumption.
  - cbn [In]. rewrite IH. reflexivity.
Qed.

Lemma distinct_nodup (l : list text) : List.NoDup (distinct l).
Proof.
  induction l as [|x l IH]; [constructor|]. cbn [distinct].
  destruct (existsb (Str.text_eqb x) l) eqn:E; [exact IH|].
  constructor; [|exact IH]. rewrite distinct_in. intros H.
  apply existsb_text in H. congruence.
Qed.

Lemma distinct_same (v : text) (l : list text) :
  l <> [] -> Forall (eq v) l -> distinct l = [ v ].
Proof.
  induction l as [|x l IH]; [congruence|]. intros _ H.
  apply List.Forall_cons_iff in H as [<- Hl]. cbn [distinct].
  destruct l as [|y l]; [reflexivity|].
  assert (E : existsb (Str.text_eqb v) (y :: l) = true).
  { apply existsb_text. apply List.Forall_cons_iff in Hl as [<- _].
    left. reflexivity. }
  rewrite E. apply IH; [discriminate|exact Hl].
Qed.

Lemma distinct_two (v w : text) (l : list text) :
  In v l -> In w l -> v <> w ->
  exists x y rest, distinct l = x :: y :: rest.
Proof.
  intros Hv Hw Hne. apply distinct_in in Hv, Hw.
  destruct (distinct l) as [|x [|y rest]]; [destruct Hv| |eauto].
  exfalso. destruct Hv as [<-|[]], Hw as [<-|[]]. congruence.
Qed.

(** X16: the opening summary.  When every listed day has the same
    opening time the summary names Monday to Sunday with that time,
    however few days the dictionary lists; with no day at all it is
    the empty text; and as soon as two days differ it lists each day
    with its time, in the order of the dictionary. *)
Theorem generate_opening_summary_cases (hours : list (text * text)) :
  (forall time,
     hours <> [] -> Forall (fun item => snd item = time) hours ->
     generate_opening_summary hours = T "Monday–Sunday: " ++ time)
  /\ (hours = [] -> generate_opening_summary hours = [])
  /\ (forall day1 time1 day2 time2,
        In (day1, time1) hours -> In (day2, time2) hours ->
        time1 <> time2 ->
        generate_opening_summary hours
        = Str.join (T "; ")
            (map (fun item => fst item ++ T ": " ++ snd item) hours)).
Proof.
  unfold generate_opening_summary. split; [|split].
  - intros time Hne Hall. rewrite (distinct_same time); [reflexivity| |].
    + destruct hours; [congruence|discriminate].
    + apply List.Forall_map. eapply List.Forall_impl; [|exact Hall].
      intros item E. symmetry. exact E.
  - intros ->. reflexivity.
  - intros d1 t1 d2 t2 H1 H2 Hne.
    destruct (distinct_two t1 t2 (map snd hours)) as (x & y & rest & ->);
      [| |exact Hne|reflexivity].
    + apply in_map_iff. exists (d1, t1). auto.
    + apply in_map_iff. exists (d2, t2). auto.
Qed.

Lemma generate_opening_summary_cases_witness :
  generate_opening_summary
    [ (T "Tuesday", T "8 am-9 pm"); (T "Friday", T "8 am-9 pm") ]
  = T "Monday–Sunday: 8 am-9 pm".
Proof.
  apply (proj1 (generate_opening_summary_cases
                  [ (T "Tuesday", T "8 am-9 pm");
                    (T "Friday", T "8 am-9 pm") ])).
  - discriminate.
  - repeat constructor.
Defined.

Lemma strings_of_strings (l : list text) :
  strings_of (map JString l) = Some l.
Proof.
  induction l as [|s l IH]; [reflexivity|]. cbn [map strings_of].
  rewrite IH. reflexivity.
Qed.

(** X17: from the scraper to the database.  Of a record that the
    outlet scraper composes, the name, the address, the services
    joined by commas, the opening summary, the opening times and the
    description reach the parameters of the INSERT statement; the
    link does not: the scraper stores it as [google_maps_link], the
    ingestion reads [Maps_link], and the column always receives the
    text N/A. *)
Theorem scraped_outlet_parameters
    (json_dumps : json -> text) (join_error : list json -> text)
    (id_counter : nat) (name address maps_link : text)
    (services : list text) (opening_hours : list (text * text)) :
  outlet_parameters json_dumps join_error
    (scraped_outlet id_counter name address maps_link services opening_hours)
  = Ok {| row_name := JString name;
          row_address := JString address;
          row_services := Str.join (T ", ") services;
          row_hours := JString (generate_opening_summary opening_hours);
          row_Maps_link := JString (T "N/A");
          row_opening_hours :=
            json_dumps
              (JObject (map (fun item => (fst item, JString (snd item)))
                            opening_hours));
          row_full_description :=
            JString
              (build_description name address services
                 (generate_opening_summary opening_hours) maps_link) |}
  /\ scraped_outlet id_counter name address maps_link services opening_hours
       !! "google_maps_link"%string
     = Some (JString maps_link).
Proof.
  unfold outlet_parameters, scraped_outlet.
  repeat first
    [ rewrite lookup_insert_eq
    | rewrite lookup_insert_ne by discriminate
    | rewrite lookup_empty ].
  cbn [default from_option id]. rewrite strings_of_strings. split; reflexivity.
Qed.

(** *** Variants *)

Lemma code_inj (a b : ascii) : code a = code b -> a = b.
Proof.
  unfold code. intros H.
  rewrite <- (ascii_nat_embedding a), <- (ascii_nat_embedding b), H.
  reflexivity.
Qed.

Lemma text_ltb_total (s t : text) :
  text_ltb s t = false -> s <> t -> text_ltb t s = true.
Proof.
  revert t. induction s as [|a s IH]; intros [|b t] H Hne;
    cbn [text_ltb] in *; try congruence.
  apply orb_false_iff in H as [H1 H2].
  apply Nat.ltb_ge in H1.
  destruct (Nat.eqb_spec (code a) (code b)) as [E|E].
  - cbn [andb] in H2. apply code_inj in E. subst b.
    rewrite Nat.ltb_irrefl, Nat.eqb_refl. cbn [orb andb].
    apply IH; [exact H2|]. intros ->. apply Hne. reflexivity.
  - assert (Hlt : (code b <? code a) = true) by (apply Nat.ltb_lt; lia).
    rewrite Hlt. reflexivity.
Qed.

Lemma insert_sorted_in (v x : text) (l : list text) :
  In x (insert_sorted v l) <-> x = v \/ In x l.
Proof.
  induction l as [|w l IH]; cbn [insert_sorted].
  - cbn. intuition.
  - destruct (text_ltb v w); cbn [In]; [intuition|].
    rewrite IH. intuition.
Qed.

Lemma sorted_in (x : text) (l : list text) : In x (sorted l) <-> In x l.
Proof.
  induction l as [|v l IH]; [reflexivity|]. unfold sorted in *.
  cbn [fold_right]. rewrite insert_sorted_in, IH. cbn [In]. intuition.
Qed.

Lemma insert_sorted_nodup (v : text) (l : list text) :
  ~ In v l -> List.NoDup l -> List.NoDup (insert_sorted v l).
Proof.
  induction l as [|w l IH]; intros Hv Hl; cbn [insert_sorted].
  - constructor; [intros []|constructor].
  - destruct (text_ltb v w); [constructor; assumption|].
    inversion Hl; subst. constructor.
    + rewrite insert_sorted_in. intros [->|H]; [apply Hv; left; reflexivity|].
      contradiction.
    + apply IH; [|assumption]. intros H. apply Hv. right. exact H.
Qed.

Lemma insert_sorted_sorted (v : text) (l : list text) :
  ~ In v l ->
  Sorted.Sorted (fun s t => text_ltb s t = true) l ->
  Sorted.Sorted (fun s t => text_ltb s t = true) (insert_sorted v l).
Proof.
  induction l as [|w l IH]; intros Hv Hl; cbn [insert_sorted].
  - repeat constructor.
  - destruct (text_ltb v w) eqn:E.
    + constructor; [exact Hl|]. constructor. exact E.
    + inversion Hl as [|? ? Hl' Hhd]; subst.
      assert (Hwv : text_ltb w v = true).
      { apply text_ltb_total; [exact E|]. intros ->. apply Hv. left.
        reflexivity. }
      constructor.
      * apply IH; [|exact Hl']. intros H. apply Hv. right. exact H.
      * destruct l as [|u l]; cbn [insert_sorted].
        -- constructor. exact Hwv.
        -- destruct (text_ltb v u); constructor; [exact Hwv|].
           inversion Hhd; subst. assumption.
Qed.

Lemma sorted_sorted (l : list text) :
  List.NoDup l ->
  Sorted.Sorted (fun s t => text_ltb s t = true) (sorted l) /\ List.NoDup (sorted l).
Proof.
  induction 1 as [|v l Hv Hl [IH1 IH2]]; [split; constructor|].
  unfold sorted in *. cbn [fold_right].
  assert (Hv' : ~ In v (fold_right insert_sorted [] l)).
  { intros H. apply Hv. apply (sorted_in v l). exact H. }
  split; [apply insert_sorted_sorted|apply insert_sorted_nodup]; assumption.
Qed.

(** X18: the variants kept for a product are the hidden texts of
    its card that are not a price label, in any letter case, nor
    empty; each of them once, in increasing order. *)
Theorem clean_variants_sorted_set (raw_variants : list text) :
  Sorted.Sorted (fun s t => text_ltb s t = true) (clean_variants raw_variants)
  /\ List.NoDup (clean_variants raw_variants)
  /\ forall v,
       In v (clean_variants raw_variants)
       <-> In v raw_variants
           /\ map lower v <> T "sale price"
           /\ map lower v <> T "regular price"
           /\ v <> [].
Proof.
  unfold clean_variants.
  destruct (sorted_sorted _ (distinct_nodup
    (List.filter
       (fun v => negb (existsb (Str.text_eqb (map lower v)) label_texts))
       raw_variants))) as [Hs Hn].
  split; [exact Hs|]. split; [exact Hn|]. intros v.
  rewrite sorted_in, distinct_in, List.filter_In, negb_true_iff.
  assert (E : existsb (Str.text_eqb (map lower v)) label_texts = false
              <-> map lower v <> T "sale price"
                  /\ map lower v <> T "regular price" /\ v <> []).
  { rewrite <- not_true_iff_false, existsb_text. unfold label_texts.
    cbn [In]. split.
    - intros H. repeat split; intros E; apply H; rewrite ?E; cbn; auto.
    - intros (H1 & H2 & H3) [E|[E|[E|[]]]]; try congruence.
      destruct v; [congruence|discriminate]. }
  rewrite E. reflexivity.
Qed.

(** *** The product document *)

Lemma lookup_setdefault (key k : text) (p : Product)
    (grouped : list (text * list Product)) :
  lookup key (setdefault_append k p grouped)
  = if Str.text_eqb k key
    then Some (default [] (lookup key grouped) ++ [ p ])
    else lookup key grouped.
Proof.
  induction grouped as [|[k' l] grouped IH]; cbn [setdefault_append lookup].
  - destruct (Str.text_eqb k key); reflexivity.
  - destruct (Str.text_eqb k' k) eqn:E1; cbn [lookup].
    + apply text_eqb_eq in E1. subst k'.
      destruct (Str.text_eqb k key); reflexivity.
    + destruct (Str.text_eqb k' key) eqn:E2; [|exact IH].
      apply text_eqb_eq in E2. subst k'.
      destruct (Str.text_eqb k key) eqn:E3; [|reflexivity].
      apply text_eqb_eq in E3. subst k. rewrite text_eqb_refl in E1.
      discriminate.
Qed.

Lemma lookup_grouped (key : text) (products : list Product) :
  forall grouped,
    lookup key
      (fold_left
         (fun grouped p => setdefault_append (product_section p) p grouped)
         products grouped)
    = match of_section key products with
      | [] => lookup key grouped
      | _ :: _ =>
          Some (default [] (lookup key grouped) ++ of_section key products)
      end.
Proof.
  induction products as [|p products IH]; intros grouped; [reflexivity|].
  cbn [fold_left]. rewrite IH, lookup_setdefault.
  unfold of_section. cbn [List.filter].
  destruct (Str.text_eqb (product_section p) key); [|reflexivity].
  cbn [default]. destruct (List.filter _ products).
  - reflexivity.
  - cbn [from_option id]. rewrite <- app_assoc. reflexivity.
Qed.

Lemma lookup_group_by_section (key : text) (products : list Product) :
  lookup key (group_by_section products)
  = match of_section key products with
    | [] => None
    | _ :: _ => Some (of_section key products)
    end.
Proof.
  unfold group_by_section. rewrite lookup_grouped.
  destruct (of_section key products); reflexivity.
Qed.

Lemma numbered_loop (ps : list Product) :
  forall result counter,
    fold_left
      (fun rc p => (fst rc ++ [ product_line (snd rc) p ], S (snd rc)))
      ps (result, counter)
    = (result ++ numbered counter ps, counter + length ps).
Proof.
  induction ps as [|p ps IH]; intros result counter; cbn [fold_left].
  - rewrite app_nil_r, Nat.add_0_r. reflexivity.
  - cbn [fst snd]. rewrite IH. cbn [numbered length].
    rewrite <- app_assoc, Nat.add_succ_r. reflexivity.
Qed.

Lemma section_lines_block (products : list Product) (result : list text)
    (counter : nat) (section : text) :
  section_lines (group_by_section products) (result, counter) section
  = (result ++ block section counter (of_section section products),
     counter + length (of_section section products)).
Proof.
  unfold section_lines. rewrite lookup_group_by_section.
  destruct (of_section section products) as [|p ps] eqn:E.
  - cbn [block length]. rewrite app_nil_r, Nat.add_0_r. reflexivity.
  - rewrite numbered_loop. cbn [block]. rewrite <- !app_assoc. reflexivity.
Qed.

Lemma format_for_rag_lines (products : list Product) :
  format_for_rag products
  = Str.join [nl]
      ([ title_line; intro_line ]
         ++ block (T "Tumbler") 1 (of_section (T "Tumbler") products)
         ++ block (T "Accessories")
              (1 + length (of_section (T "Tumbler") products))
              (of_section (T "Accessories") products)).
Proof.
  unfold format_for_rag. cbn [fold_left].
  rewrite !section_lines_block. rewrite <- app_assoc. reflexivity.
Qed.

Lemma of_section_idem (key : text) (products : list Product) :
  of_section key (of_section key products) = of_section key products.
Proof.
  unfold of_section. induction products as [|p ps IH]; [reflexivity|].
  cbn [List.filter].
  destruct (Str.text_eqb (product_section p) key) eqn:E; [|exact IH].
  cbn [List.filter]. rewrite E, IH. reflexivity.
Qed.

Lemma of_section_other (key key' : text) (products : list Product) :
  key <> key' -> of_section key (of_section key' products) = [].
Proof.
  intros Hne. unfold of_section.
  induction products as [|p ps IH]; [reflexivity|]. cbn [List.filter].
  destruct (Str.text_eqb (product_section p) key') eqn:E; [|exact IH].
  cbn [List.filter]. apply text_eqb_eq in E. rewrite E.
  destruct (Str.text_eqb key' key) eqn:E2; [|exact IH].
  apply text_eqb_eq in E2. congruence.
Qed.

Lemma of_section_app (key : text) (l1 l2 : list Product) :
  of_section key (l1 ++ l2) = of_section key l1 ++ of_section key l2.
Proof. apply List.filter_app. Qed.

(** X19: the product document.  It holds the title and the
    introduction, then the Tumbler products and the Accessories
    products, each section under its heading and closed by an empty
    line, a section without product being left out; the products are
    numbered from 1 through both sections, in the order of the list;
    a product of any other section is left out, so the document is
    that of the Tumbler products followed by the Accessories
    products. *)
Theorem format_for_rag_sections (products : list Product) :
  format_for_rag products
  = Str.join [nl]
      ([ title_line; intro_line ]
         ++ block (T "Tumbler") 1 (of_section (T "Tumbler") products)
         ++ block (T "Accessories")
              (1 + length (of_section (T "Tumbler") products))
              (of_section (T "Accessories") products))
  /\ format_for_rag products
     = format_for_rag
         (of_section (T "Tumbler") products
            ++ of_section (T "Accessories") products).
Proof.
  split; [apply format_for_rag_lines|].
  rewrite !format_for_rag_lines, !of_section_app, !of_section_idem.
  rewrite (of_section_other (T "Tumbler") (T "Accessories")) by discriminate.
  rewrite (of_section_other (T "Accessories") (T "Tumbler")) by discriminate.
  rewrite app_nil_r. reflexivity.
Qed.

End ScrapersFacts.

(** ** How many clauses the fuzzy expansion rewrites *)

Module ExpansionFacts.
Import Shape ReFacts FuzzyFacts Sql Count.

Lemma starts_with_ci_prefix (w h s : text) :
  map lower h = map lower w -> starts_with_ci w (h ++ s) = true.
Proof.
  revert h. induction w as [|a w IH]; intros [|b h] E; try discriminate;
    [reflexivity|].
  cbn [map] in E. injection E as Eb E. cbn [app starts_with_ci].
  rewrite Eb, Ascii.eqb_refl. exact (IH _ E).
Qed.

Lemma count_ci_suffix (w u s : text) : count_ci w s <= count_ci w (u ++ s).
Proof.
  induction u as [|a u IH]; [cbn [app]; lia|]. cbn [app count_ci]. lia.
Qed.

Lemma count_ci_hit (w u s : text) :
  u <> [] -> starts_with_ci w (u ++ s) = true ->
  1 + count_ci w s <= count_ci w (u ++ s).
Proof.
  intros Hu Hs. destruct u as [|a u]; [congruence|].
  cbn [app count_ci]. cbn [app] in Hs. rewrite Hs.
  pose proof (count_ci_suffix w u s). lia.
Qed.

Lemma fuzzy_begins : begins_with fuzzy_pattern (fun _ => true) = true.
Proof. vm_compute. reflexivity. Qed.

(** A match of the pattern is not empty and begins with WHERE. *)
Lemma fuzzy_hit_where (p : option ascii) (s : text) (m : found) :
  match_here fuzzy_pattern p s = Some m ->
  starts_with_ci (T "where") s = true
  /\ exists u, u <> [] /\ s = u ++ m_rest m /\ m_text m = u.
Proof.
  intros E. split.
  - revert E. rewrite fuzzy_pattern_parts. unfold match_here, fuzzy_where.
    cbn [rmatch cats]. intros H.
    destruct (lit_ci_inv _ _ _ _ _ _ H) as (h & s1 & -> & Hh & _).
    apply starts_with_ci_prefix. exact Hh.
  - destruct (match_here_begins _ _ _ _ _ fuzzy_begins E) as (a & u & Eu & _).
    destruct (match_here_inv _ _ _ _ E) as (u0 & s' & new & -> & _ & ->).
    cbn [m_text m_rest] in *. exists u0.
    split; [rewrite Eu; discriminate|]. split; reflexivity.
Qed.

Lemma hits_bound (fuel : nat) :
  forall p s,
    length (hits (scan_loop fuel fuzzy_pattern p s))
    <= count_ci (T "where") s.
Proof.
  induction fuel as [|fuel IH]; intros p s.
  - cbn [scan_loop]. assert (E : hits (map Keep s) = []).
    { induction s as [|a s IHs]; [reflexivity|exact IHs]. }
    rewrite E. cbn. lia.
  - cbn [scan_loop].
    assert (Hkeep :
      length
        (hits
           match s with
           | [] => []
           | a :: s' => Keep a :: scan_loop fuel fuzzy_pattern (Some a) s'
           end)
      <= count_ci (T "where") s).
    { destruct s as [|a s]; [cbn; lia|].
      change (hits (Keep a :: ?l)) with (hits l).
      specialize (IH (Some a) s). cbn [count_ci]. lia. }
    destruct (match_here fuzzy_pattern p s) as [m|] eqn:E; [|exact Hkeep].
    destruct (fuzzy_hit_where _ _ _ E) as (Hw & u & Hu & Es & Et).
    rewrite Et. destruct u as [|a u]; [congruence|].
    change (hits (Hit m :: ?l)) with (m :: hits l). cbn [length].
    specialize (IH (m_last m) (m_rest m)).
    assert (Hc : 1 + count_ci (T "where") (m_rest m)
                 <= count_ci (T "where") s).
    { rewrite Es. apply count_ci_hit; [discriminate|].
      rewrite <- Es. exact Hw. }
    lia.
Qed.

Lemma replace_char_filter (c : ascii) (s : text) :
  Str.replace [c] [] s = List.filter (isnt_chr c) s.
Proof.
  unfold Str.replace.
  assert (H : forall fuel s, length s < fuel ->
            Str.replace_loop fuel [c] [] s = List.filter (isnt_chr c) s).
  { induction fuel as [|fuel IH]; intros s' Hlen; [lia|].
    destruct s' as [|a s']; [reflexivity|].
    cbn [Str.replace_loop Str.starts_with List.filter length skipn app].
    cbn in Hlen. unfold isnt_chr at 1. rewrite Ascii.eqb_sym.
    destruct (Ascii.eqb a c); cbn [andb negb].
    - apply IH. lia.
    - f_equal. apply IH. lia. }
  apply H. lia.
Qed.

(** X20: on a statement of ASCII characters the expansion is a
    sequence of calls of [str.replace], at most one for each place
    where WHERE stands, in any letter case.  Each call replaces every
    occurrence of one clause text, a quoted column of the allow-list
    followed by LIKE and a keyword between percent signs, by the
    disjunction of that clause and of the same test on the column
    and the keyword without their space characters.  A statement
    without WHERE is left as it is. *)
Theorem expand_fuzzy_sql_one_replacement_per_where (sql : text)
    (Hascii : Str.isascii sql = true) :
  (exists steps : list (text * text),
     length steps <= count_ci (T "where") sql
     /\ Forall (fun st => In (map lower (fst st)) allow_list) steps
     /\ expand_fuzzy_sql sql
        = fold_left
            (fun acc st =>
               Str.replace
                 (fst st ++ T " LIKE '%" ++ snd st ++ T "%'")
                 (T "(" ++ fst st ++ T " LIKE '%" ++ snd st
                    ++ T "%' OR REPLACE(" ++ fst st ++ T ", ' ', '') LIKE '%"
                    ++ List.filter (isnt_chr sp) (snd st) ++ T "%')")
                 acc)
            steps sql)
  /\ (count_ci (T "where") sql = 0 -> expand_fuzzy_sql sql = sql).
Proof.
  assert (Hlen : length (hits (scan fuzzy_pattern sql))
                 <= count_ci (T "where") sql) by apply hits_bound.
  assert (Hsteps : forall l acc,
    fold_left rewrite_step l acc
    = fold_left
        (fun acc st =>
           Str.replace
             (fst st ++ T " LIKE '%" ++ snd st ++ T "%'")
             (T "(" ++ fst st ++ T " LIKE '%" ++ snd st
                ++ T "%' OR REPLACE(" ++ fst st ++ T ", ' ', '') LIKE '%"
                ++ List.filter (isnt_chr sp) (snd st) ++ T "%')")
             acc)
        l acc).
  { induction l as [|st l IH]; intros acc; [reflexivity|].
    cbn [fold_left]. rewrite <- IH. f_equal.
    unfold rewrite_step, like_clause, fuzzy_clause.
    rewrite replace_char_filter. reflexivity. }
  split.
  - exists (map (fun m => (group_or_empty 2 m, group_or_empty 3 m))
                (hits (scan fuzzy_pattern sql))).
    rewrite length_map. split; [exact Hlen|]. split.
    + apply List.Forall_forall. intros st Hst.
      apply in_map_iff in Hst as (m & <- & Hm). cbn [fst].
      exact (proj1 (hit_column _ _ Hm)).
    + rewrite expand_as_steps. apply Hsteps.
  - intros H0. rewrite expand_as_steps.
    destruct (hits (scan fuzzy_pattern sql)); [reflexivity|].
    cbn [length] in Hlen. lia.
Qed.

Lemma expand_fuzzy_sql_one_replacement_per_where_witness :
  expand_fuzzy_sql (T "SELECT name FROM outlets;")
  = T "SELECT name FROM outlets;".
Proof.
  apply (proj2 (expand_fuzzy_sql_one_replacement_per_where
                  (T "SELECT name FROM outlets;") eq_refl)).
  reflexivity.
Defined.

(** Of two clauses under one WHERE the first is rewritten and the
    second is left as it is. *)
Lemma expand_fuzzy_sql_first_clause_only :
  count_ci (T "where") Clauses.two_fuzzy_clauses = 1
  /\ expand_fuzzy_sql Clauses.two_fuzzy_clauses
     = T "SELECT * " ++ [nl] ++ T "FROM outlets " ++ [nl] ++ T "WHERE ("
         ++ quoted (T "address") ++ T " LIKE '%SS 2%' OR REPLACE("
         ++ quoted (T "address") ++ T ", ' ', '') LIKE '%SS2%') AND "
         ++ quoted (T "services") ++ T " LIKE '%Dine In%';".
Proof. split; vm_compute; reflexivity. Qed.

(** The one call made for a WHERE replaces the clause wherever it
    stands: the same clause twice under one WHERE is rewritten
    twice. *)
Lemma expand_fuzzy_sql_replaces_every_occurrence :
  count_ci (T "where") Clauses.repeated_clause = 1
  /\ expand_fuzzy_sql Clauses.repeated_clause
     = T "SELECT * FROM outlets WHERE ("
         ++ quoted (T "address") ++ T " LIKE '%a%' OR REPLACE("
         ++ quoted (T "address") ++ T ", ' ', '') LIKE '%a%') AND ("
         ++ quoted (T "address") ++ T " LIKE '%a%' OR REPLACE("
         ++ quoted (T "address") ++ T ", ' ', '') LIKE '%a%');".
Proof. split; vm_compute; reflexivity. Qed.

End ExpansionFacts.

(** ** The lines of a sanitized text *)

Module KeywordLines.
Import Shape ReFacts ShapeFacts StepFacts Sql Lines LinesFacts Count.
Import ExpansionFacts.

Lemma alts_map_inv {R : Type} (f : text -> regex) (ws : list text)
    (k : cont (R := R)) (p : option ascii) (s : text) (c : caps) (x : R) :
  rmatch (alts (map f ws)) k p s c = Some x ->
  exists w, In w ws /\ rmatch (f w) k p s c = Some x.
Proof.
  induction ws as [|w ws IH].
  - cbn. destruct s; discriminate.
  - destruct ws as [|w' ws].
    + cbn [map alts]. intros H. exists w. split; [left; reflexivity|exact H].
    + change (alts (map f (w :: w' :: ws)))
        with (Alt (f w) (alts (map f (w' :: ws)))).
      cbn [rmatch]. destruct (rmatch (f w) k p s c) eqn:E.
      * cbn [orelse]. intros H. exists w. split; [left; reflexivity|].
        rewrite <- H. exact E.
      * cbn [orelse]. intros H. destruct (IH H) as (w0 & Hin & H0).
        exists w0. split; [right; exact Hin|exact H0].
Qed.

(** The text of a match of step 6 is one of the keywords, in some
    letter case. *)
Lemma keyword_hit_text (p : option ascii) (s : text) (m : found) :
  match_here keyword_pattern p s = Some m ->
  exists k, In k keywords /\ map lower (m_text m) = map lower k.
Proof.
  unfold match_here, keyword_pattern. cbn [rmatch]. intros H.
  destruct (alts_map_inv _ _ _ _ _ _ _ H) as (w & Hw & H1). clear H.
  exists w. split; [exact Hw|]. cbn [cats rmatch] in H1.
  destruct (xorb _ _); [|discriminate].
  destruct (lit_ci_inv _ _ _ _ _ _ H1) as (h & s1 & -> & Hh & H2).
  clear H1. destruct (xorb _ _); [|discriminate].
  injection H2 as <-. cbn [m_text]. rewrite firstn_consumed. exact Hh.
Qed.

Lemma split_after (u t pre post : text) :
  ~ In nl u -> u ++ t = pre ++ nl :: post ->
  exists pre', pre = u ++ pre' /\ t = pre' ++ nl :: post.
Proof.
  revert pre. induction u as [|a u IH]; intros pre Hu E.
  - exists pre. split; [reflexivity|exact E].
  - destruct pre as [|b pre]; cbn [app] in E; injection E as Ea E.
    + exfalso. apply Hu. left. exact Ea.
    + subst b. destruct (IH pre) as (pre' & -> & Ht); [|exact E|].
      * intros H. apply Hu. right. exact H.
      * exists pre'. split; [reflexivity|exact Ht].
Qed.

Lemma break_loop_keywords (fuel : nat) :
  forall p s,
    ~ In nl s ->
    keyword_lines
      (flat_map (emit [TLit [nl]; TGroup 1])
         (scan_loop fuel keyword_pattern p s)).
Proof.
  induction fuel as [|fuel IH]; intros p s Hs.
  - cbn [scan_loop]. rewrite emit_keeps. intros pre post E. exfalso.
    apply Hs. rewrite E. apply in_or_app. right. left. reflexivity.
  - cbn [scan_loop].
    assert (Hkeep :
      keyword_lines
        (flat_map (emit [TLit [nl]; TGroup 1])
           match s with
           | [] => []
           | a :: s' => Keep a :: scan_loop fuel keyword_pattern (Some a) s'
           end)).
    { destruct s as [|a s]; intros pre post E.
      - destruct pre; discriminate.
      - cbn [flat_map emit app] in E.
        destruct pre as [|b pre]; cbn [app] in E; injection E as Ea Et.
        + exfalso. apply Hs. left. exact Ea.
        + apply (IH (Some a) s) with (pre := pre) (post := post);
            [|exact Et]. intros H. apply Hs. right. exact H. }
    destruct (match_here keyword_pattern p s) as [m|] eqn:E; [|exact Hkeep].
    destruct (keyword_hit_text _ _ _ E) as (k & Hk & Hm).
    destruct (keyword_hit_word _ _ _ E) as (_ & a & u & Eu & _).
    pose proof (match_here_group _ _ _ _ _ E) as Hg.
    destruct (match_here_inv _ _ _ _ E) as (u0 & s' & new & -> & _ & ->).
    cbn [m_text m_last m_rest m_caps m_prev] in *. subst u0.
    cbn [flat_map emit expand expand_item app m_caps]. rewrite Hg.
    rewrite app_nil_r. cbn [app].
    intros pre post Et. destruct pre as [|b pre]; cbn [app] in Et.
    + injection Et as <-. exists k. split; [exact Hk|].
      change (a :: u ++ ?t) with ((a :: u) ++ t).
      apply starts_with_ci_prefix. exact Hm.
    + injection Et as _ Et.
      destruct (split_after (a :: u)
                  (flat_map (emit [TLit [nl]; TGroup 1])
                     (scan_loop fuel keyword_pattern
                        (prev_after p (a :: u)) s'))
                  pre post) as (pre' & _ & Ht).
      * intros H. apply Hs. apply in_or_app. left. exact H.
      * exact Et.
      * apply (IH (prev_after p (a :: u)) s') with (pre := pre')
          (post := post); [|exact Ht].
        intros H. apply Hs. apply in_or_app. right. exact H.
Qed.

Lemma lower_space (a b : ascii) :
  lower b = lower a -> is_space a = is_space b.
Proof.
  assert (H : forall x, is_space (lower x) = is_space x).
  { intros x. destruct x as [[] [] [] [] [] [] [] []]; reflexivity. }
  intros E. rewrite <- (H a), <- (H b), E. reflexivity.
Qed.

Lemma starts_with_ci_spaces (k w : text) :
  forallb is_space w = true -> starts_with_ci k w = true ->
  forallb is_space k = true.
Proof.
  revert w. induction k as [|a k IH]; intros [|b w] Hw H; try reflexivity;
    try discriminate.
  cbn [starts_with_ci forallb] in *.
  apply andb_true_iff in Hw as [Hb Hw]. apply andb_true_iff in H as [E H].
  apply Ascii.eqb_eq in E. rewrite (lower_space a b E), Hb.
  exact (IH _ Hw H).
Qed.

Lemma spaces_last (k : text) :
  forallb is_space k = true -> is_space (List.last k sp) = true.
Proof.
  induction k as [|a [|b k] IH]; [reflexivity| |].
  - cbn. intros H. apply andb_true_iff in H as [H _]. exact H.
  - intros H. change (List.last (a :: b :: k) sp) with (List.last (b :: k) sp).
    apply IH. cbn [forallb] in H. apply andb_true_iff in H as [_ H]. exact H.
Qed.

Lemma starts_with_ci_cut (w2 : text) (k : text) :
  forallb is_space w2 = true ->
  forall post,
    ends_solid k = true ->
    starts_with_ci k (post ++ w2) = true -> starts_with_ci k post = true.
Proof.
  intros Hw. induction k as [|a k IH]; intros post Hk H; [reflexivity|].
  destruct post as [|b post].
  - exfalso. cbn [app] in H.
    pose proof (spaces_last _ (starts_with_ci_spaces _ _ Hw H)) as Hl.
    unfold ends_solid in Hk. rewrite Hl in Hk. discriminate.
  - cbn [app starts_with_ci] in H |- *.
    apply andb_true_iff in H as [E H]. rewrite E. cbn [andb].
    destruct k as [|a' k]; [reflexivity|]. apply IH; [|exact H].
    exact Hk.
Qed.

Lemma keywords_end_solid : forallb ends_solid keywords = true.
Proof. reflexivity. Qed.

Lemma strip_keyword_lines (t : text) :
  keyword_lines t -> keyword_lines (Str.strip t).
Proof.
  intros H pre post E.
  destruct (strip_spec t) as (w1 & w2 & Et & _ & Hw2 & _).
  rewrite E in Et.
  destruct (H (w1 ++ pre) (post ++ w2)) as (k & Hk & Hs).
  { rewrite Et, <- !app_assoc. reflexivity. }
  exists k. split; [exact Hk|].
  apply (starts_with_ci_cut w2 k Hw2); [|exact Hs].
  pose proof keywords_end_solid as Ha. rewrite List.forallb_forall in Ha.
  apply Ha, Hk.
Qed.

(** X21: for an input of ASCII characters, every line feed of the
    sanitized text is directly followed by one of the clause keywords
    of step 6, in some letter case: every line but the first begins
    with one. *)
Theorem clean_sql_query_lines (s : text)
    (Hascii : Str.isascii s = true) :
  forall pre post,
    clean_sql_query s = pre ++ nl :: post ->
    exists k, In k keywords /\ starts_with_ci k post = true.
Proof.
  rewrite CleanFacts.clean_sql_query_steps.
  destruct (laid_out (strip_backticks (statement_of s))) as (E & _ & _).
  rewrite E. apply strip_keyword_lines.
  unfold break_keywords, re_sub, scan. apply break_loop_keywords.
  rewrite normalize_spaces_collapse. intros H.
  pose proof (normal_no_newline _ _ (collapse_normal
                (strip_backticks (statement_of s)) false)) as Hn.
  rewrite List.Forall_forall in Hn. exact (Hn _ H eq_refl).
Qed.

Lemma clean_sql_query_lines_witness :
  exists k,
    In k keywords
    /\ starts_with_ci k
         (T "FROM outlets " ++ [nl] ++ T "WHERE address LIKE '%SS 2%';")
       = true.
Proof.
  apply (clean_sql_query_lines (Examples.fenced Examples.ss2_statement)
           eq_refl (T "SELECT * ")).
  vm_compute. reflexivity.
Defined.

End KeywordLines.

(** ** The expression that the calculator node reads from a reply *)

Module ExpressionFacts.
Import Calculator ShapeFacts LinesFacts.

Lemma lstrip_spaces (w s : text) :
  forallb is_space w = true -> Str.lstrip (w ++ s) = Str.lstrip s.
Proof.
  induction w as [|a w IH]; [reflexivity|]. cbn [forallb app Str.lstrip].
  intros H. apply andb_true_iff in H as [-> H]. exact (IH H).
Qed.

Lemma strip_between (w1 w2 v : text) (a z : ascii) :
  forallb is_space w1 = true -> forallb is_space w2 = true ->
  is_space a = false -> is_space z = false ->
  Str.strip (w1 ++ (a :: v ++ [z]) ++ w2) = a :: v ++ [z].
Proof.
  intros H1 H2 Ha Hz. unfold Str.strip.
  rewrite (lstrip_spaces _ _ H1). cbn [app].
  rewrite (lstrip_nonspace _ _ Ha). unfold Str.rstrip.
  change (a :: (v ++ [z]) ++ w2) with ((a :: v ++ [z]) ++ w2).
  rewrite rev_app_distr, lstrip_spaces
    by (rewrite MemoryFacts.forallb_rev; exact H2).
  change (a :: v ++ [z]) with ((a :: v) ++ [z]).
  rewrite rev_app_distr. cbn [rev app].
  rewrite (lstrip_nonspace _ _ Hz).
  change (z :: rev v ++ [a]) with ([z] ++ rev v ++ [a]).
  rewrite !rev_app_distr, rev_involutive. reflexivity.
Qed.

Lemma lstrip_char_head (c : ascii) (s : text) :
  (forall s', s <> c :: s') -> Str.lstrip_char c s = s.
Proof.
  intros H. destruct s as [|a s]; [reflexivity|]. cbn [Str.lstrip_char].
  destruct (Ascii.eqb_spec a c) as [->|_]; [|reflexivity].
  exfalso. exact (H s eq_refl).
Qed.

Lemma rev_head (c : ascii) (s : text) :
  (forall s', s <> s' ++ [c]) -> forall r, rev s <> c :: r.
Proof.
  intros H r E. apply (H (rev r)).
  rewrite <- (rev_involutive s), E. reflexivity.
Qed.

Lemma strip_char_fixed (c : ascii) (s : text) :
  (forall s', s <> c :: s') -> (forall s', s <> s' ++ [c]) ->
  Str.strip_char c s = s.
Proof.
  intros Hh Hl. unfold Str.strip_char.
  rewrite (lstrip_char_head _ _ Hh), (lstrip_char_head _ _ (rev_head _ _ Hl)).
  apply rev_involutive.
Qed.

Lemma strip_char_wrap (c : ascii) (e : text) :
  (forall e', e <> c :: e') -> (forall e', e <> e' ++ [c]) ->
  Str.strip_char c (c :: e ++ [c]) = e.
Proof.
  intros Hh Hl. unfold Str.strip_char. cbn [Str.lstrip_char].
  rewrite Ascii.eqb_refl. destruct e as [|a e].
  - cbn. rewrite Ascii.eqb_refl. reflexivity.
  - assert (Ha : Str.lstrip_char c ((a :: e) ++ [c]) = (a :: e) ++ [c]).
    { apply lstrip_char_head. intros s' E. cbn [app] in E.
      injection E as -> _. exact (Hh e eq_refl). }
    rewrite Ha, rev_app_distr. cbn [rev app Str.lstrip_char].
    rewrite Ascii.eqb_refl.
    change (rev e ++ [a]) with (rev (a :: e)).
    rewrite (lstrip_char_head _ _ (rev_head _ _ Hl)).
    apply rev_involutive.
Qed.

(** X22: a reply that gives the expression between double quotes,
    or between single quotes, with white space around, is read as
    the expression itself, which keeps the white space it has inside
    the quotes; the expression is taken not to begin or end with a
    quote of its own. *)
Theorem parsed_expression_unquotes (w1 w2 e : text)
    (Hw1 : forallb is_space w1 = true)
    (Hw2 : forallb is_space w2 = true)
    (Hd1 : forall e', e <> dq :: e')
    (Hd2 : forall e', e <> e' ++ [dq])
    (Hs1 : forall e', e <> "'"%char :: e')
    (Hs2 : forall e', e <> e' ++ ["'"%char]) :
  parsed_expression (w1 ++ (dq :: e ++ [dq]) ++ w2) = e
  /\ parsed_expression (w1 ++ ("'"%char :: e ++ ["'"%char]) ++ w2) = e.
Proof.
  unfold parsed_expression. split.
  - rewrite strip_between by (assumption || reflexivity).
    rewrite (strip_char_wrap dq e Hd1 Hd2).
    exact (strip_char_fixed _ e Hs1 Hs2).
  - rewrite strip_between by (assumption || reflexivity).
    rewrite (strip_char_fixed dq ("'"%char :: e ++ ["'"%char])).
    + exact (strip_char_wrap _ e Hs1 Hs2).
    + intros s' E. discriminate E.
    + intros s' E. change ("'"%char :: e ++ ["'"%char])
        with (("'"%char :: e) ++ ["'"%char]) in E.
      apply app_inj_tail in E as [_ E]. discriminate E.
Qed.

Lemma parsed_expression_unquotes_witness :
  parsed_expression (T " " ++ (dq :: T "3 + 5" ++ [dq]) ++ [nl]) = T "3 + 5".
Proof.
  apply (parsed_expression_unquotes (T " ") [nl] (T "3 + 5"));
    try reflexivity; intros e' E; try discriminate E;
    change (T "3 + 5") with (T "3 + " ++ ["5"%char]) in E;
    apply app_inj_tail in E as [_ E]; discriminate E.
Defined.

End ExpressionFacts.

(** ** The tag of a code fence *)

Module FenceFacts.
Import Shape ReFacts StepFacts FuzzyFacts Sql Fences.

Lemma block_pattern_parts :
  block_pattern = Cat (lit (T "```")) (Cat fence_tag fence_body).
Proof. reflexivity. Qed.

Lemma lit_spec {R : Type} (w : text) (k : cont (R := R))
    (p : option ascii) (s : text) (c : caps) :
  rmatch (lit w) k p s c
  = if Str.starts_with w s
    then k (prev_after p w) (skipn (length w) s) c
    else None.
Proof.
  revert p s. induction w as [|a w IH]; intros p s; [reflexivity|].
  cbn [lit rmatch Str.starts_with length skipn prev_after].
  destruct s as [|b s]; [reflexivity|]. unfold is_chr.
  rewrite Ascii.eqb_sym.
  destruct (Ascii.eqb_spec a b) as [->|_]; [|reflexivity].
  cbn [andb]. apply IH.
Qed.

Lemma lit_ok {R : Type} (w : text) (k : cont (R := R))
    (p : option ascii) (s : text) (c : caps) :
  rmatch (lit w) k p (w ++ s) c = k (prev_after p w) s c.
Proof.
  revert p. induction w as [|a w IH]; intros p; [reflexivity|].
  cbn [lit rmatch app prev_after]. unfold is_chr.
  rewrite Ascii.eqb_refl. apply IH.
Qed.

Lemma orelse_none {R : Type} (x : option R) : orelse x None = x.
Proof. destruct x; reflexivity. Qed.

Lemma space_not_backtick (a : ascii) :
  is_space a = true -> Ascii.eqb bt a = false.
Proof.
  intros H. destruct (Ascii.eqb_spec bt a) as [<-|]; [discriminate|].
  reflexivity.
Qed.

(** *** The closing fence *)

(** White space and the closing fence match where the text, without
    its leading white space, begins with the fence. *)
Lemma closing_spec {R : Type} (k : cont (R := R)) (c : caps) :
  forall t p,
    star_greedy is_space (rmatch (lit (T "```")) k) p t c
    = if Str.starts_with (T "```") (Str.lstrip t)
      then k (Some bt) (skipn 3 (Str.lstrip t)) c
      else None.
Proof.
  induction t as [|a t IH]; intros p.
  - cbn [star_greedy Str.lstrip]. rewrite lit_spec. reflexivity.
  - cbn [star_greedy Str.lstrip]. destruct (is_space a) eqn:Ea.
    + rewrite IH, (lit_spec _ _ p (a :: t)).
      change (Str.starts_with (T "```") (a :: t))
        with (Ascii.eqb bt a && Str.starts_with (T "``") t).
      rewrite (space_not_backtick _ Ea). cbn [andb]. apply orelse_none.
    + rewrite lit_spec. reflexivity.
Qed.

Lemma starts_fence_cut (y post : text) :
  y <> [] ->
  Str.starts_with (T "```") (y ++ T "```" ++ post)
  = Str.starts_with (T "```") (y ++ T "``").
Proof.
  intros Hy. destruct y as [|a [|b [|c y]]]; [congruence| | |];
    cbn [app T list_ascii_of_string Str.starts_with].
  - rewrite !Ascii.eqb_refl. reflexivity.
  - rewrite !Ascii.eqb_refl. reflexivity.
  - reflexivity.
Qed.

Lemma ends_solid_tail (b : ascii) (x : text) :
  (exists u c, b :: x = u ++ [c] /\ is_space c = false) ->
  x = [] \/ exists u c, x = u ++ [c] /\ is_space c = false.
Proof.
  intros (u & c & E & Hc). destruct u as [|b' u]; cbn [app] in E.
  - injection E as _ <-. left. reflexivity.
  - injection E as _ ->. right. eauto.
Qed.

(** Before the end of a text that ends with a character that is not
    white space, white space and the closing fence match nowhere,
    when the fence that follows the text is the first one. *)
Lemma no_early_close (w post : text) :
  forall x,
    (x = [] \/ exists u c, x = u ++ [c] /\ is_space c = false) ->
    Str.contains (T "```") (x ++ w ++ T "``") = false ->
    forall u1 a u2,
      x = u1 ++ a :: u2 ->
      Str.starts_with (T "```")
        (Str.lstrip (a :: u2 ++ w ++ T "```" ++ post)) = false.
Proof.
  induction x as [|b x IH]; intros Hend Hc u1 a u2 E.
  - destruct u1; discriminate.
  - destruct Hend as [Hend|Hend]; [discriminate|].
    pose proof (ends_solid_tail _ _ Hend) as Hx.
    cbn [app Str.contains] in Hc. apply orb_false_iff in Hc as [Hh Hc].
    destruct u1 as [|b' u1]; cbn [app] in E; injection E as -> E.
    + subst x. cbn [Str.lstrip]. destruct (is_space a) eqn:Ea.
      * destruct u2 as [|a2 u2].
        { exfalso. destruct Hend as (u & c & E & Hcs).
          destruct u as [|? [|? ?]]; try discriminate.
          injection E as <-. congruence. }
        exact (IH Hx Hc [] a2 u2 eq_refl).
      * replace (a :: u2 ++ w ++ T "```" ++ post)
          with ((a :: u2 ++ w) ++ T "```" ++ post)
          by (cbn [app]; rewrite <- app_assoc; reflexivity).
        rewrite starts_fence_cut by discriminate.
        cbn [app]. rewrite <- app_assoc. exact Hh.
    + exact (IH Hx Hc u1 a u2 E).
Qed.

(** *** The lazy group *)

Lemma star_lazy_first {R : Type} (k : cont (R := R)) (c : caps)
    (r : text) (y : R) :
  forall x p,
    (forall u1 a u2,
       x = u1 ++ a :: u2 -> k (prev_after p u1) (a :: u2 ++ r) c = None) ->
    k (prev_after p x) r c = Some y ->
    star_lazy any k p (x ++ r) c = Some y.
Proof.
  induction x as [|a x IH]; intros p Hno Hk.
  - cbn [app prev_after] in *. destruct r; cbn [star_lazy]; rewrite Hk;
      reflexivity.
  - pose proof (Hno [] a x eq_refl) as H0. cbn [prev_after] in H0.
    cbn [app star_lazy]. rewrite H0. cbn [orelse].
    unfold any at 1. apply IH; [|exact Hk].
    intros u1 b u2 E. exact (Hno (a :: u1) b u2 (f_equal (cons a) E)).
Qed.

Lemma star_greedy_stop {R : Type} (f : ascii -> bool) (k : cont (R := R))
    (p : option ascii) (a : ascii) (s : text) (c : caps) :
  f a = false -> star_greedy f k p (a :: s) c = k p (a :: s) c.
Proof. intros H. cbn [star_greedy]. rewrite H. reflexivity. Qed.

Lemma contains_skip (a : ascii) (s : text) :
  Ascii.eqb bt a = false ->
  Str.contains (T "```") (a :: s) = Str.contains (T "```") s.
Proof.
  intros H. cbn [Str.contains].
  change (Str.starts_with (T "```") (a :: s))
    with (Ascii.eqb bt a && Str.starts_with (T "``") s).
  rewrite H. reflexivity.
Qed.

(** The part after the tag SQL of a fence tagged SQLQuery: group 1 is
    the rest of the tag and the body without the white space at its
    end. *)
Lemma fence_body_query {R : Type} (k : cont (R := R)) (q : option ascii)
    (body post : text) (y : R) :
  Str.contains (T "```") (body ++ T "``") = false ->
  k (Some bt) post [(1, T "Query" ++ Str.rstrip body)] = Some y ->
  rmatch fence_body k q (T "Query" ++ body ++ T "```" ++ post) [] = Some y.
Proof.
  intros Hfirst Hy.
  destruct (LinesFacts.rstrip_spec body) as (w & Eb & Hw & Hend).
  set (b0 := Str.rstrip body) in *.
  unfold fence_body. cbn [cats rmatch].
  change (T "Query" ++ body ++ T "```" ++ post)
    with ("Q"%char :: T "uery" ++ body ++ T "```" ++ post).
  rewrite star_greedy_stop by reflexivity.
  change ("Q"%char :: T "uery" ++ body ++ T "```" ++ post)
    with (T "Query" ++ body ++ T "```" ++ post).
  assert (Es : T "Query" ++ body ++ T "```" ++ post
               = (T "Query" ++ b0) ++ w ++ T "```" ++ post).
  { rewrite Eb at 1. rewrite <- !app_assoc. reflexivity. }
  rewrite Es.
  assert (Hend' : T "Query" ++ b0 = []
                  \/ exists u c, T "Query" ++ b0 = u ++ [c]
                                 /\ is_space c = false).
  { right. destruct Hend as [->|(u & c & -> & Hc)].
    - exists (T "Quer"), "y"%char. split; reflexivity.
    - exists (T "Query" ++ u), c. split; [|exact Hc].
      rewrite <- app_assoc. reflexivity. }
  assert (Hc : Str.contains (T "```") ((T "Query" ++ b0) ++ w ++ T "``")
               = false).
  { rewrite <- app_assoc.
    change (T "Query" ++ b0 ++ w ++ T "``")
      with ("Q"%char :: "u"%char :: "e"%char :: "r"%char :: "y"%char
              :: b0 ++ w ++ T "``").
    rewrite !contains_skip by reflexivity.
    rewrite app_assoc, <- Eb. exact Hfirst. }
  apply star_lazy_first.
  - intros u1 a u2 E. rewrite closing_spec.
    rewrite (no_early_close w post _ Hend' Hc u1 a u2 E). reflexivity.
  - rewrite closing_spec.
    rewrite (ExpressionFacts.lstrip_spaces w _ Hw).
    change (Str.lstrip (T "```" ++ post)) with (T "```" ++ post).
    change (Str.starts_with (T "```") (T "```" ++ post)) with true.
    change (skipn 3 (T "```" ++ post)) with post.
    cbv beta. rewrite firstn_consumed. exact Hy.
Qed.

(** The match at a fence tagged SQLQuery that is closed: the tag
    taken is SQL. *)
Lemma sqlquery_tag_match (p : option ascii) (body post : text) :
  Str.contains (T "```") (body ++ T "``") = false ->
  match_here block_pattern p (T "```SQLQuery" ++ body ++ T "```" ++ post)
  = Some (Found p (T "```SQLQuery" ++ body ++ T "```") (Some bt) post
            [(1, T "Query" ++ Str.rstrip body)]).
Proof.
  intros Hfirst. unfold match_here. rewrite block_pattern_parts.
  set (s := T "```SQLQuery" ++ body ++ T "```" ++ post).
  set (k0 := fun prev' s' c' =>
               Some (Found p (firstn (length s - length s') s) prev' s' c')).
  cbn [rmatch].
  change s with (T "```" ++ (T "SQLQuery" ++ body ++ T "```" ++ post)).
  rewrite lit_ok. unfold fence_tag. cbn [rmatch alts].
  rewrite !lit_spec.
  change (Str.starts_with (T "sql") (T "SQLQuery" ++ body ++ T "```" ++ post))
    with false.
  change (Str.starts_with (T "SQL") (T "SQLQuery" ++ body ++ T "```" ++ post))
    with true.
  change (skipn (length (T "SQL")) (T "SQLQuery" ++ body ++ T "```" ++ post))
    with (T "Query" ++ body ++ T "```" ++ post).
  cbn [orelse].
  rewrite (fence_body_query k0 _ body post _ Hfirst eq_refl).
  cbn [orelse]. f_equal. f_equal.
  apply firstn_consumed_eq. unfold s. rewrite <- !app_assoc. reflexivity.
Qed.

(** *** Patterns that do not look behind *)

Lemma lift_orelse {R : Type} (Q : R -> R -> Prop) (x x' y y' : option R) :
  lift Q x x' -> lift Q y y' -> lift Q (orelse x y) (orelse x' y').
Proof. destruct x, x'; cbn; intros H1 H2; solve [assumption|contradiction]. Qed.

(** A pattern without [^] and [\b] matches in the same way whatever
    the character before the position. *)
Lemma rmatch_prev_free {R : Type} (Q : R -> R -> Prop) (r : regex) :
  prev_free r = true ->
  forall k k' : cont (R := R),
    (forall p p' s c, lift Q (k p s c) (k' p' s c)) ->
    forall p p' s c, lift Q (rmatch r k p s c) (rmatch r k' p' s c).
Proof.
  induction r as [|f|r1 IH1 r2 IH2|r1 IH1 r2 IH2|r1 IH1|f|f|n r1 IH1| | |];
    cbn [prev_free]; intros Hr k k' Hk p p' s c; try discriminate;
    cbn [rmatch].
  - apply Hk.
  - destruct s as [|a s]; [exact I|]. destruct (f a); [apply Hk|exact I].
  - apply andb_true_iff in Hr as [H1 H2]. apply IH1; [exact H1|].
    intros. apply IH2; assumption.
  - apply andb_true_iff in Hr as [H1 H2].
    apply lift_orelse; [apply IH1|apply IH2]; assumption.
  - apply lift_orelse; [apply IH1; assumption|apply Hk].
  - revert p p'. induction s as [|a s IHs]; intros p p'; cbn [star_greedy].
    + apply Hk.
    + destruct (f a); [|apply Hk]. apply lift_orelse; [apply IHs|apply Hk].
  - revert p p'. induction s as [|a s IHs]; intros p p'; cbn [star_lazy].
    + apply lift_orelse; [apply Hk|exact I].
    + apply lift_orelse; [apply Hk|]. destruct (f a); [apply IHs|exact I].
  - apply IH1; [exact Hr|]. intros. apply Hk.
  - destruct s as [|a [|b s]]; [apply Hk| |exact I].
    destruct (Ascii.eqb a nl); [apply Hk|exact I].
Qed.

Lemma match_here_prev_free (r : regex) (p p' : option ascii) (s : text) :
  prev_free r = true ->
  lift same_match (match_here r p s) (match_here r p' s).
Proof.
  intros Hr. unfold match_here. apply rmatch_prev_free; [exact Hr|].
  intros q q' s' c. repeat split.
Qed.

Lemma expand_same (tmpl : list titem) (m m' : found) :
  m_caps m = m_caps m' -> expand tmpl m = expand tmpl m'.
Proof.
  intros H. unfold expand. induction tmpl as [|i tmpl IH]; [reflexivity|].
  cbn [flat_map]. rewrite IH. f_equal. destruct i; cbn [expand_item];
    [reflexivity|]. rewrite H. reflexivity.
Qed.

Lemma scan_emit_prev_free (r : regex) (tmpl : list titem) :
  prev_free r = true ->
  forall fuel p p' s,
    flat_map (emit tmpl) (scan_loop fuel r p s)
    = flat_map (emit tmpl) (scan_loop fuel r p' s).
Proof.
  intros Hr. induction fuel as [|fuel IH]; intros p p' s; [reflexivity|].
  cbn [scan_loop]. pose proof (match_here_prev_free r p p' s Hr) as H.
  destruct (match_here r p s) as [m|], (match_here r p' s) as [m'|];
    cbn [lift] in H; try contradiction; [|reflexivity].
  destruct H as (Ht & Hrest & Hc). rewrite <- Ht, <- Hrest.
  destruct (m_text m); cbn [flat_map emit];
    rewrite (expand_same tmpl m m' Hc); [reflexivity|].
  f_equal. apply IH.
Qed.

(** After a match at the start of the text the substitution goes on
    with the rest as it does with a text of its own. *)
Lemma re_sub_after_hit (r : regex) (tmpl : list titem) (pre post : text)
    (m : found) :
  prev_free r = true -> pre <> [] ->
  match_here r None (pre ++ post) = Some m ->
  m_text m = pre -> m_rest m = post ->
  re_sub r tmpl (pre ++ post) = expand tmpl m ++ re_sub r tmpl post.
Proof.
  intros Hr Hpre Hm Ht Hrest. unfold re_sub, scan.
  destruct pre as [|a pre]; [congruence|].
  cbn [scan_loop]. rewrite Hm, Ht, Hrest. cbn [flat_map emit]. f_equal.
  rewrite (scan_emit_prev_free r tmpl Hr _ (m_last m) None).
  rewrite (scan_loop_fuel r (length ((a :: pre) ++ post)) (S (length post)));
    [reflexivity| |lia].
  rewrite length_app. cbn [length]. lia.
Qed.

(** *** A fence that is not closed *)

(** What a match of the part after the tag reads. *)
Lemma fence_body_inv {R : Type} (k : cont (R := R)) q t c x :
  rmatch fence_body k q t c = Some x ->
  exists w0 w w1 s5,
    t = w0 ++ w ++ w1 ++ T "```" ++ s5
    /\ forallb is_space w0 = true /\ forallb is_space w1 = true
    /\ k (prev_after q (w0 ++ w ++ w1 ++ T "```")) s5 ((1, w) :: c) = Some x.
Proof.
  unfold fence_body. cbn [cats rmatch]. intros H.
  destruct (star_greedy_inv _ _ _ _ _ _ H) as (w0 & s1 & -> & H0 & H1).
  clear H.
  destruct (star_lazy_inv _ _ _ _ _ _ H1) as (w & s2 & -> & _ & H2).
  clear H1. cbn beta in H2.
  destruct (star_greedy_inv _ _ _ _ _ _ H2) as (w1 & s3 & -> & Hw1 & H3).
  clear H2.
  destruct (lit_inv _ _ _ _ _ _ H3) as (s5 & -> & H5). clear H3.
  exists w0, w, w1, s5. split; [reflexivity|]. split; [exact H0|].
  split; [exact Hw1|].
  rewrite (firstn_consumed_eq w (w1 ++ T "```" ++ s5)) in H5 by reflexivity.
  rewrite !prev_after_app. exact H5.
Qed.

(** A match of the pattern holds two fences. *)
Lemma fence_match_closed (p : option ascii) (s : text) (m : found) :
  match_here block_pattern p s = Some m ->
  exists u v, s = T "```" ++ u ++ T "```" ++ v.
Proof.
  unfold match_here. rewrite block_pattern_parts. cbn [rmatch]. intros H.
  destruct (lit_inv _ _ _ _ _ _ H) as (s1 & -> & H1).
  destruct (rmatch_inv _ _ _ _ _ _ H1) as (u & s2 & new & -> & _ & H2).
  destruct (fence_body_inv _ _ _ _ _ H2) as (w0 & w & w1 & s5 & -> & _).
  exists (u ++ w0 ++ w ++ w1), s5. rewrite <- !app_assoc. reflexivity.
Qed.

Lemma no_fence_here (p : option ascii) (s : text) :
  Str.starts_with (T "```") s = false -> match_here block_pattern p s = None.
Proof.
  intros H. unfold match_here. rewrite block_pattern_parts. cbn [rmatch].
  rewrite lit_spec, H. reflexivity.
Qed.

Lemma no_fence_no_match :
  forall s p, Str.contains (T "```") s = false -> no_match block_pattern p s.
Proof.
  induction s as [|a s IH]; intros p H; cbn [no_match].
  - split; [apply no_fence_here; reflexivity|exact I].
  - cbn [Str.contains] in H. apply orb_false_iff in H as [H1 H2].
    split; [apply no_fence_here; exact H1|apply IH; exact H2].
Qed.

Lemma unclosed_fence_no_match (rest : text) :
  Str.contains (T "```") rest = false ->
  no_match block_pattern None (T "```SQLQuery" ++ rest).
Proof.
  intros H.
  change (T "```SQLQuery" ++ rest)
    with (bt :: bt :: bt :: "S"%char :: "Q"%char :: "L"%char
            :: "Q"%char :: "u"%char :: "e"%char :: "r"%char
            :: "y"%char :: rest).
  cbn [no_match]. split.
  - destruct (match_here block_pattern None _) as [m|] eqn:E; [|reflexivity].
    exfalso. destruct (fence_match_closed _ _ _ E) as (u & v & Es).
    injection Es as Es.
    assert (Hc : Str.contains (T "```")
                   ("S"%char :: "Q"%char :: "L"%char :: "Q"%char
                      :: "u"%char :: "e"%char :: "r"%char :: "y"%char
                      :: rest) = true).
    { rewrite Es. apply StrFacts.contains_spec. exists u, v. reflexivity. }
    rewrite !contains_skip in Hc by reflexivity. congruence.
  - do 10 (split; [apply no_fence_here; reflexivity|]).
    apply no_fence_no_match, H.
Qed.

Lemma block_prev_free : prev_free block_pattern = true.
Proof. reflexivity. Qed.

(** X23: step 1 never removes a fence tagged SQLQuery together with
    its tag.  The pattern lists SQL before SQLQuery, so at a closed
    fence the tag taken is SQL: when the closing fence is the first
    one after the tag, what step 1 keeps of the block is the word
    Query followed by the body without the white space at its end,
    and the text after the block is treated as a text of its own.
    When no fence follows the tag, the text stays as it is, fence and
    tag included. *)
Theorem strip_fences_sqlquery_tag (body post : text)
    (Hascii : Str.isascii body = true)
    (Hfirst : Str.contains (T "```") (body ++ T "``") = false) :
  strip_fences (T "```SQLQuery" ++ body ++ T "```" ++ post)
  = T "Query" ++ Str.rstrip body ++ strip_fences post
  /\ forall rest,
       Str.contains (T "```") rest = false ->
       strip_fences (T "```SQLQuery" ++ rest) = T "```SQLQuery" ++ rest.
Proof.
  split.
  - unfold strip_fences.
    pose proof (sqlquery_tag_match None body post Hfirst) as Hm.
    replace (T "```SQLQuery" ++ body ++ T "```" ++ post)
      with ((T "```SQLQuery" ++ body ++ T "```") ++ post) in *
      by (rewrite <- !app_assoc; reflexivity).
    assert (Hne : T "```SQLQuery" ++ body ++ T "```" <> [])
      by discriminate.
    rewrite (re_sub_after_hit _ _ _ _ _ block_prev_free Hne Hm eq_refl
               eq_refl).
    cbn [expand flat_map expand_item m_caps group Nat.eqb].
    rewrite app_nil_r, <- app_assoc. reflexivity.
  - intros rest H. unfold strip_fences. apply re_sub_no_match.
    apply unclosed_fence_no_match, H.
Qed.

Lemma strip_fences_sqlquery_tag_witness :
  strip_fences (tagged all_outlets) = T "Query" ++ nl :: all_outlets.
Proof.
  exact (proj1 (strip_fences_sqlquery_tag (nl :: all_outlets ++ [nl]) []
                  eq_refl eq_refl)).
Defined.

(** A fenced statement without semicolon keeps the word Query in
    front of it. *)
Lemma clean_sql_query_keeps_tag_rest :
  clean_sql_query (tagged all_outlets)
  = T "Query " ++ [nl] ++ T "SELECT * " ++ [nl] ++ T "FROM outlets".
Proof. vm_compute. reflexivity. Qed.

End FenceFacts.
